(** * TNO AI OCR / Add Rows: a shallow embedding of the extraction pipeline
      (ocr.js), the row-fill engine (add_rows.js) and the schema registry
      (schema.js), with the properties of the design specification that
      concern them.

    Layout: Part I holds the definitions (one module per source file), Part II
    the lemmas and theorems. *)

From Stdlib Require Import String Ascii ZArith NArith Bool Lia Floats List.
Import ListNotations.
Set Warnings "-inexact-float,-register-all".

(* ====================================================================== *)
(** * Part I. Definitions                                                   *)
(* ====================================================================== *)

(** ** JavaScript data: strings as UTF-16 code units, values, conversions *)

Module Js.

(** A JavaScript string is a sequence of 16-bit code units. *)
Definition jstr := list N.

Definition js (s : string) : jstr := map N_of_ascii (list_ascii_of_string s).

Definition jstr_eqb (a b : jstr) : bool :=
  if list_eq_dec N.eq_dec a b then true else false.

(** The class [\s] of regular expressions, which is also what [trim] strips
    (WhiteSpace and LineTerminator). *)
Definition is_ws (c : N) : bool :=
  (existsb (N.eqb c)
     [9; 10; 11; 12; 13; 32; 160; 5760; 8232; 8233; 8239; 8287; 12288; 65279]
   || ((8192 <=? c) && (c <=? 8202)))%N.

(** Line terminators: the characters that [.] does not match. *)
Definition is_line_terminator (c : N) : bool :=
  existsb (N.eqb c) [10; 13; 8232; 8233]%N.

Fixpoint dropWhile {A} (p : A -> bool) (l : list A) : list A :=
  match l with
  | [] => []
  | x :: r => if p x then dropWhile p r else l
  end.

Fixpoint takeWhile {A} (p : A -> bool) (l : list A) : list A :=
  match l with
  | [] => []
  | x :: r => if p x then x :: takeWhile p r else []
  end.

Definition trimStart (s : jstr) : jstr := dropWhile is_ws s.
Definition trimEnd (s : jstr) : jstr := rev (dropWhile is_ws (rev s)).
Definition trim (s : jstr) : jstr := trimEnd (trimStart s).

Fixpoint starts_with (p s : jstr) : bool :=
  match p, s with
  | [], _ => true
  | a :: p', b :: s' => (a =? b)%N && starts_with p' s'
  | _ :: _, [] => false
  end.

(** [String.prototype.replace] with a global regular expression whose
    matches are never empty.  The matcher [m] is asked, at each position
    reached by the scan, for the length of the match starting there and for
    the text that replaces it; the scan resumes after the match. [skip]
    counts the characters of the current match still to be passed over. *)
Fixpoint gsub (m : jstr -> option (nat * jstr)) (skip : nat) (s : jstr) : jstr :=
  match s with
  | [] => []
  | c :: r =>
      match skip with
      | S k => gsub m k r
      | O =>
          match m s with
          | Some (S k, rep) => rep ++ gsub m k r
          | _ => c :: gsub m 0 r
          end
      end
  end.

Definition replaceAll (m : jstr -> option (nat * jstr)) (s : jstr) : jstr :=
  gsub m 0 s.

(** [/\s+/g] replaced by one space. *)
Definition m_ws_run (s : jstr) : option (nat * jstr) :=
  match length (takeWhile is_ws s) with
  | O => None
  | n => Some (n, [32%N])
  end.

Definition collapse_ws (s : jstr) : jstr := replaceAll m_ws_run s.

(** Index of the first and of the last occurrence of a code unit. *)
Fixpoint indexOf (c : N) (s : jstr) : option nat :=
  match s with
  | [] => None
  | x :: r => if (x =? c)%N then Some O else option_map S (indexOf c r)
  end.

Definition lastIndexOf (c : N) (s : jstr) : option nat :=
  match indexOf c (rev s) with
  | Some i => Some (length s - 1 - i)%nat
  | None => None
  end.

(** [s.slice(a, b)] for [0 <= a] and [0 <= b]. *)
Definition slice (a b : nat) (s : jstr) : jstr := firstn (b - a) (skipn a s).

Fixpoint join (sep : jstr) (l : list jstr) : jstr :=
  match l with
  | [] => []
  | [x] => x
  | x :: r => x ++ sep ++ join sep r
  end.

(** Decimal digits of an integer, i.e. [String(i)] for an integral number. *)
Fixpoint digits_of (fuel : nat) (n : Z) (acc : jstr) : jstr :=
  match fuel with
  | O => acc
  | S f =>
      let d := Z.to_N (48 + n mod 10)%Z in
      if (n <? 10)%Z then d :: acc else digits_of f (n / 10)%Z (d :: acc)
  end.

Definition Z_to_jstr (z : Z) : jstr :=
  if (z <? 0)%Z then 45%N :: digits_of (S (Z.to_nat (Z.log2 (- z)))) (- z) []
  else digits_of (S (Z.to_nat (Z.log2 z))) z [].

Definition is_digit (c : N) : bool := ((48 <=? c) && (c <=? 57))%N.

Fixpoint digits_value (acc : Z) (s : jstr) : Z :=
  match s with
  | [] => acc
  | c :: r => digits_value (10 * acc + (Z.of_N c - 48))%Z r
  end.

(** [parseInt(s, 10)]: leading white space, an optional sign, the longest run
    of decimal digits; [None] stands for [NaN]. *)
Definition parseInt10 (s : jstr) : option Z :=
  let t := trimStart s in
  let '(neg, u) :=
    match t with
    | 45%N :: r => (true, r)
    | 43%N :: r => (false, r)
    | _ => (false, t)
    end in
  match takeWhile is_digit u with
  | [] => None
  | ds => let v := digits_value 0 ds in Some (if neg then (- v)%Z else v)
  end.

(** [s.replace(p, '')] for a string pattern [p]: the first occurrence goes. *)
Fixpoint removeFirst (p s : jstr) : jstr :=
  if starts_with p s then skipn (length p) s
  else match s with
       | [] => []
       | c :: r => c :: removeFirst p r
       end.

(** ASCII lower-casing. *)
Definition lower_cu (c : N) : N :=
  if ((65 <=? c) && (c <=? 90))%N then (c + 32)%N else c.

Definition toLowerCase (s : jstr) : jstr := map lower_cu s.

(** [s.padStart(n, '0')]. *)
Definition padStart0 (n : nat) (s : jstr) : jstr :=
  repeat 48%N (n - length s) ++ s.

(** *** Values *)

Inductive JsValue : Type :=
| VUndef
| VNull
| VBool (b : bool)
| VNum (x : float)
| VStr (s : jstr)
| VArr (l : list JsValue)
| VObj (o : list (string * JsValue)).

Definition is_finite (x : float) : bool :=
  negb (PrimFloat.is_nan x) && negb (PrimFloat.is_infinity x).

(** [v == null]. *)
Definition nullish (v : JsValue) : bool :=
  match v with
  | VUndef | VNull => true
  | _ => false
  end.

(** ToBoolean. *)
Definition truthy (v : JsValue) : bool :=
  match v with
  | VUndef | VNull => false
  | VBool b => b
  | VNum x => negb (PrimFloat.is_nan x) && negb (PrimFloat.is_zero x)
  | VStr s => match s with [] => false | _ => true end
  | VArr _ | VObj _ => true
  end.

Fixpoint lookup {V} (k : string) (o : list (string * V)) : option V :=
  match o with
  | [] => None
  | (k', v) :: r => if String.eqb k k' then Some v else lookup k r
  end.

Definition has_key {V} (k : string) (o : list (string * V)) : bool :=
  match lookup k o with
  | Some _ => true
  | None => false
  end.

(** Assignment [o[k] = v]: an existing key keeps its place, a new one is
    appended. *)
Fixpoint obj_set {V} (k : string) (v : V) (o : list (string * V)) : list (string * V) :=
  match o with
  | [] => [(k, v)]
  | (k', v') :: r =>
      if String.eqb k k' then (k, v) :: r else (k', v') :: obj_set k v r
  end.

Definition keys {V} (o : list (string * V)) : list string := map fst o.

(** Property read [v[k]] for a named property [k] of a parsed JSON value;
    only objects have named own properties other than [length]. *)
Definition js_get (v : JsValue) (k : string) : JsValue :=
  match v with
  | VObj o => match lookup k o with Some x => x | None => VUndef end
  | VArr l =>
      if String.eqb k "length" then VNum (PrimFloat.of_uint63 (Uint63.of_Z (Z.of_nat (length l))))
      else VUndef
  | VStr s =>
      if String.eqb k "length" then VNum (PrimFloat.of_uint63 (Uint63.of_Z (Z.of_nat (length s))))
      else VUndef
  | _ => VUndef
  end.

(** Indexed read [v[0]]. *)
Definition js_get0 (v : JsValue) : JsValue :=
  match v with
  | VArr (x :: _) => x
  | VStr (c :: _) => VStr [c]
  | VObj o => match lookup "0" o with Some x => x | None => VUndef end
  | _ => VUndef
  end.

(** What the platform provides and the sources only call. *)
Record Platform : Type := {
  JSON_parse : jstr -> option JsValue;   (* [None]: a SyntaxError is thrown *)
  parseFloat : jstr -> float;            (* NaN when there is no numeric prefix *)
  numToString : float -> jstr;           (* Number::toString *)
  strToNumber : jstr -> float            (* Number(string), behind isNaN *)
}.

Section Conversions.
Variable P : Platform.

(** [String(v)]. *)
Fixpoint toStr (v : JsValue) : jstr :=
  match v with
  | VUndef => js "undefined"
  | VNull => js "null"
  | VBool true => js "true"
  | VBool false => js "false"
  | VNum x => numToString P x
  | VStr s => s
  | VArr l =>
      join (js ",")
        ((fix elems (l : list JsValue) : list jstr :=
            match l with
            | [] => []
            | x :: r => (if nullish x then [] else toStr x) :: elems r
            end) l)
  | VObj _ => js "[object Object]"
  end.

(** [arr.join(sep)]. *)
Definition arr_join (sep : jstr) (l : list JsValue) : jstr :=
  join sep (map (fun x => if nullish x then [] else toStr x) l).

(** [isNaN(s)] for a string [s]. *)
Definition isNaN_str (s : jstr) : bool := PrimFloat.is_nan (strToNumber P s).

End Conversions.

End Js.

(** ** schema.js: the schema registry *)

Module Schema.
Import Js.

Record DomDef : Type := { base : option jstr; suffix : option jstr }.

Record FieldDef : Type := {
  f_type : option string;
  f_dom : option DomDef;
  f_minLen : option Z;
  f_maxLen : option Z
}.

(** The object behind [window.TNO_SCHEMA]; each part may be missing. *)
Record Schema : Type := {
  fields : option (list (string * FieldDef));
  transactions : option (list (string * list string));
  fillOrder : option (list string)
}.

Definition field (t : string) (b sfx : string) (mn mx : option Z) : FieldDef :=
  {| f_type := Some t;
     f_dom := Some {| base := Some (js b); suffix := Some (js sfx) |};
     f_minLen := mn; f_maxLen := mx |}.

(** The registry shipped in schema.js. *)
Definition TNO_SCHEMA : Schema :=
  {| fields := Some
       [ ("stkcode_code", field "string" "stkcode_code" "{i}" (Some 3%Z) (Some 64%Z));
         ("description", field "string" "stkcode_desc" "{i}" None (Some 120%Z));
         ("remark", field "string" "desc" "{i}" None (Some 500%Z));
         ("qnty_total", field "number" "qnty_total" "{i}" None None);
         ("uom_trans_code", field "string" "uom_trans_code" "{i}_disp" None (Some 16%Z));
         ("price_unitrate_forex", field "number" "fmi_aup" "{i}_disp" None None) ]%string;
     transactions := Some
       [ ("default",
          ["stkcode_code"; "description"; "remark"; "uom_trans_code"; "qnty_total";
           "price_unitrate_forex"]) ]%string;
     fillOrder := Some
       ["stkcode_code"; "description"; "remark"; "uom_trans_code"; "qnty_total";
        "price_unitrate_forex"]%string |}.

Definition mem (k : string) (l : list string) : bool := existsb (String.eqb k) l.

End Schema.

(** ** Numbers: the double-precision operations the sources rely on *)

Module Num.

(** The exact value of a finite double, as [m * 2^e]. *)
Definition float_parts (x : float) : option (Z * Z) :=
  match Prim2SF x with
  | S754_zero _ => Some (0, 0)%Z
  | S754_finite s m e => Some ((if s then Z.neg m else Z.pos m), e)
  | _ => None
  end.

Definition of_ratio (n d : Z) : float :=
  if (n <? 0)%Z
  then (- (PrimFloat.of_uint63 (Uint63.of_Z (- n)) / PrimFloat.of_uint63 (Uint63.of_Z d)))%float
  else (PrimFloat.of_uint63 (Uint63.of_Z n) / PrimFloat.of_uint63 (Uint63.of_Z d))%float.

Definition of_Z (n : Z) : float := of_ratio n 1.

(** The integer [n] for which [n / 10^f] is closest to [x], the larger one
    of two equally close (taken on the magnitude, the sign put back). *)
Definition scaled_round (f : Z) (x : float) : option Z :=
  match float_parts x with
  | None => None
  | Some (m, e) =>
      let num := (Z.abs m * 10 ^ f)%Z in
      let n := if (0 <=? e)%Z then (num * 2 ^ e)%Z
               else ((2 * num + 2 ^ (- e)) / (2 * 2 ^ (- e)))%Z in
      Some (if (m <? 0)%Z then (- n)%Z else n)
  end.

(** [+x.toFixed(f)]: the decimal with [f] fractional digits closest to [x],
    read back as a double. *)
Definition toFixedNum (f : Z) (x : float) : float :=
  match scaled_round f x with
  | Some n => of_ratio n (10 ^ f)
  | None => x
  end.

(** [Math.floor(x)] for a finite [x]; [None] for NaN and the infinities. *)
Definition floor (x : float) : option Z :=
  match float_parts x with
  | None => None
  | Some (m, e) => Some (if (0 <=? e)%Z then m * 2 ^ e else m / 2 ^ (- e))%Z
  end.

(** [Math.max(a, b)] for two numbers neither of which is NaN. *)
Definition fmax (a b : float) : float := if PrimFloat.ltb a b then b else a.

End Num.

(** ** ocr.js: parsing, normalisation and sanitisation of the model's answer *)

Module Ocr.
Import Js Schema.

Record FieldSpec : Type := {
  fs_string : list string;
  fs_number : list string;
  fs_boolean : list string
}.

Definition Item := list (string * JsValue).

Definition getAllowedKeysFromSchema (sc : option Schema) (transactionType : string)
  : option (list string) :=
  match sc with
  | Some s =>
      match transactions s, fields s with
      | Some tx, Some fs =>
          match lookup transactionType tx with
          | Some l => Some l
          | None =>
              match lookup "default" tx with
              | Some l => Some l
              | None => Some (keys fs)
              end
          end
      | _, _ => None
      end
  | None => None
  end.

(** The static specification used when no schema is installed. *)
Definition legacySpec : FieldSpec :=
  {| fs_string := ["code"; "brand"; "desc_short"; "desc_long"; "uom"; "uomstk"; "acct_disp";
                   "dept_disp"; "proj_disp"; "rqt_day"; "rqt_mth"; "rqt_yr"; "batchnum"]%string;
     fs_number := ["qty"; "unit_list"; "disc_pct"; "unit_price"; "amount"; "unit_w_gst";
                   "conv"; "qty_uomstk"; "uprice_uomstk"]%string;
     fs_boolean := ["gst"]%string |}.

(** [(def && def.type) || 'string'] *)
Definition type_of (def : FieldDef) : string :=
  match f_type def with
  | Some u => if String.eqb u "" then "string" else u
  | None => "string"
  end.

Definition type_is (t : string) (def : FieldDef) : bool := String.eqb (type_of def) t.

Definition getFieldSpec (sc : option Schema) (transactionType : string) : FieldSpec :=
  match sc with
  | Some s =>
      match fields s with
      | Some fs =>
          let allowed :=
            match getAllowedKeysFromSchema sc transactionType with
            | Some l => l
            | None => keys fs
            end in
          let act := filter (fun kd => mem (fst kd) allowed) fs in
          {| fs_string :=
               keys (filter (fun kd => negb (type_is "number" (snd kd))
                                       && negb (type_is "boolean" (snd kd))) act);
             fs_number := keys (filter (fun kd => type_is "number" (snd kd)) act);
             fs_boolean :=
               keys (filter (fun kd => negb (type_is "number" (snd kd))
                                       && type_is "boolean" (snd kd)) act) |}
      | None => legacySpec
      end
  | None => legacySpec
  end.

Definition getFieldMaxLens (sc : option Schema) (transactionType : string)
  : list (string * Z) :=
  match sc with
  | Some s =>
      match fields s with
      | Some fs =>
          let allowed :=
            match getAllowedKeysFromSchema sc transactionType with
            | Some l => l
            | None => keys fs
            end in
          flat_map
            (fun kd =>
               let '(k, def) := kd in
               if mem k allowed && type_is "string" def
               then match f_maxLen def with
                    | Some ml => if (0 <? ml)%Z then [(k, ml)] else []
                    | None => []
                    end
               else [])
            fs
      | None => []
      end
  | None => []
  end.

Section Normalize.
Variable P : Platform.

Definition is_letter_or_pct (c : N) : bool :=
  (((65 <=? c) && (c <=? 90)) || ((97 <=? c) && (c <=? 122)) || (c =? 37))%N.

(** The three replacements of [normalizeNumber] delete single characters of
    a class, so each is a filter. *)
Definition strip_number_noise (s : jstr) : jstr :=
  filter (fun c => negb (is_letter_or_pct c))
    (filter (fun c => negb (c =? 36)%N)
       (filter (fun c => negb (is_ws c || (c =? 44)%N)) s)).

Definition normalizeNumber (value : JsValue) : JsValue :=
  if nullish value then VNull
  else match value with
       | VNum x => if is_finite x then VNum x else VNull
       | _ =>
           let num := parseFloat P (strip_number_noise (toStr P value)) in
           if is_finite num then VNum num else VNull
       end.

Definition affirmative : list jstr :=
  map js ["y"; "yes"; "true"; "t"; "1"; "gst"; "incl"; "included"]%string.

Definition gt0 (v : JsValue) : bool :=
  match v with
  | VNum x => PrimFloat.ltb 0 x
  | _ => false
  end.

Definition coerceBoolean (value : JsValue) : bool :=
  match value with
  | VBool b => b
  | VNum x => PrimFloat.ltb 0 x
  | VStr s =>
      if existsb (jstr_eqb (toLowerCase (trim s))) affirmative then true
      else gt0 (normalizeNumber value)
  | _ => false
  end.

(** [raw?.[k]]. *)
Definition opt_get (raw : JsValue) (k : string) : JsValue := js_get raw k.

Definition normString (raw : JsValue) (k : string) : JsValue :=
  let v := opt_get raw k in
  let v := if nullish v then VStr [] else v in
  let v := match v with VArr l => VStr (arr_join P (js " ") l) | _ => v end in
  VStr (trim (collapse_ws (toStr P (if nullish v then VStr [] else v)))).

(** [if (k in out) out[k] = out[k] ? String(out[k]).padStart(n, '0') : ''] *)
Definition padDatePart (k : string) (n : nat) (out : Item) : Item :=
  match lookup k out with
  | Some v => obj_set k (VStr (if truthy v then padStart0 n (toStr P v) else [])) out
  | None => out
  end.

Definition normalizeItem (spec : FieldSpec) (raw : JsValue) : Item :=
  let out := fold_left (fun o k => obj_set k (normString raw k) o) (fs_string spec) [] in
  let out := fold_left (fun o k => obj_set k (normalizeNumber (opt_get raw k)) o)
               (fs_number spec) out in
  let out := fold_left (fun o k => obj_set k (VBool (coerceBoolean (opt_get raw k))) o)
               (fs_boolean spec) out in
  padDatePart "rqt_yr" 4 (padDatePart "rqt_mth" 2 (padDatePart "rqt_day" 2 out)).

Definition normalizeAndValidate (sc : option Schema) (items : JsValue)
  (transactionType : string) : list Item :=
  let spec := getFieldSpec sc transactionType in
  let arr := match items with
             | VArr l => l
             | _ => if truthy items then [items] else []
             end in
  map (normalizeItem spec) arr.

Definition DEFAULT_STRING_MAXLEN : Z := 120.

Definition is_high_surrogate (c : N) : bool := ((55296 <=? c) && (c <=? 56319))%N.
Definition is_low_surrogate (c : N) : bool := ((56320 <=? c) && (c <=? 57343))%N.

(** The characters a [for ... of] loop over a string yields: code points, a
    surrogate pair counting once. *)
Fixpoint code_points (s : jstr) : list N :=
  match s with
  | [] => []
  | hi :: t =>
      match t with
      | lo :: r =>
          if is_high_surrogate hi && is_low_surrogate lo
          then (65536 + (hi - 55296) * 1024 + (lo - 56320))%N :: code_points r
          else hi :: code_points t
      | [] => [hi]
      end
  end.

Definition count_cp (c : N) (l : list N) : nat := length (filter (N.eqb c) l).

(** [Math.max(...Object.values(counts))]. *)
Definition max_count (l : list N) : nat := list_max (map (fun c => count_cp c l) l).

(** Length of the run of the first character at the head of [s]. *)
Definition head_run (s : jstr) : nat :=
  match s with
  | [] => 0
  | c :: _ => length (takeWhile (N.eqb c) s)
  end.

(** [/(.)\1{n-1,}/.test(s)]: some character other than a line terminator is
    repeated at least [n] times in a row. *)
Fixpoint has_run (n : nat) (s : jstr) : bool :=
  match s with
  | [] => false
  | c :: r => (negb (is_line_terminator c) && (n <=? head_run s)%nat) || has_run n r
  end.

Definition float_of_nat (n : nat) : float := PrimFloat.of_uint63 (Uint63.of_Z (Z.of_nat n)).

Definition isNoiseString (s : jstr) : bool :=
  match s with
  | [] => false
  | _ =>
      if (10 <=? length s)%nat && has_run 10 s then true
      else if (20 <=? length s)%nat
           then PrimFloat.leb 0.8 (float_of_nat (max_count (code_points s))
                                   / float_of_nat (length s))
           else false
  end.

(** [/(.)\1{4,}/g] replaced by ['$1$1$1']. *)
Definition m_repeat_run (s : jstr) : option (nat * jstr) :=
  match s with
  | [] => None
  | c :: _ =>
      if negb (is_line_terminator c) && (5 <=? head_run s)%nat
      then Some (head_run s, [c; c; c])
      else None
  end.

Definition is_zero_width (c : N) : bool :=
  (((8203 <=? c) && (c <=? 8205)) || (c =? 65279))%N.

(** [s.slice(0, cap)]. *)
Definition slice0 (cap : Z) (s : jstr) : jstr :=
  if (cap <? 0)%Z then firstn (Z.to_nat (Z.of_nat (length s) + cap)) s
  else firstn (Z.to_nat cap) s.

(** [maxLen] is [None] when the argument is not a finite number. *)
Definition cleanAndClampString (value : JsValue) (maxLen : option Z) : jstr :=
  let s := toStr P (if nullish value then VStr [] else value) in
  let s := filter (fun c => negb (is_zero_width c)) s in
  let s := trim (collapse_ws s) in
  let s := replaceAll m_repeat_run s in
  if isNoiseString s then []
  else
    let cap := match maxLen with Some n => n | None => DEFAULT_STRING_MAXLEN end in
    if (cap <? Z.of_nat (length s))%Z then slice0 cap s else s.

Definition sanitizeItem (spec : FieldSpec) (limitsMap : list (string * Z)) (row : Item)
  : Item :=
  fold_left
    (fun out k =>
       let limit := match lookup k limitsMap with
                    | Some n => n
                    | None => DEFAULT_STRING_MAXLEN
                    end in
       let cur := match lookup k out with Some v => v | None => VUndef end in
       obj_set k (VStr (cleanAndClampString cur (Some limit))) out)
    (fs_string spec) row.

Definition sanitizeItems (sc : option Schema) (items : list Item) (transactionType : string)
  : list Item :=
  let spec := getFieldSpec sc transactionType in
  let limitsMap := getFieldMaxLens sc transactionType in
  map (sanitizeItem spec limitsMap) items.

(** [/```(?:json)?/g] and [/```/g], both replaced by the empty string. *)
Definition fence : jstr := js "```".
Definition fence_json : jstr := js "```json".

Definition m_fence_json (s : jstr) : option (nat * jstr) :=
  if starts_with fence_json s then Some (7, [])
  else if starts_with fence s then Some (3, [])
  else None.

Definition m_fence (s : jstr) : option (nat * jstr) :=
  if starts_with fence s then Some (3, []) else None.

Definition cleanText (text : jstr) : jstr :=
  trim (replaceAll m_fence
          (replaceAll m_fence_json (filter (fun c => negb (c =? 0)%N) text))).

Definition parseItems (sc : option Schema) (t : jstr) (transactionType : string)
  : option (list Item) :=
  match JSON_parse P t with
  | Some parsed =>
      Some (sanitizeItems sc (normalizeAndValidate sc parsed transactionType) transactionType)
  | None => None
  end.

Definition safeJsonExtract (sc : option Schema) (text : jstr) (transactionType : string)
  : list Item :=
  match text with
  | [] => []
  | _ =>
      let cleaned := cleanText text in
      match parseItems sc cleaned transactionType with
      | Some items => items
      | None =>
          match indexOf 91%N cleaned, lastIndexOf 93%N cleaned with
          | Some start, Some e =>
              if (start <? e)%nat
              then match parseItems sc (slice start (e + 1) cleaned) transactionType with
                   | Some items => items
                   | None => []
                   end
              else []
          | _, _ => []
          end
      end
  end.

End Normalize.

End Ocr.

(** ** ocr.js: image compression *)

Module Compress.
Import Js Num.

Record File : Type := { name : jstr; mime : jstr; size : Z }.

(** An encoded canvas: its byte size and the settings it was made with. *)
Record Blob : Type := { b_size : Z; b_width : Z; b_height : Z; b_quality : float }.

Definition ends_with (sfx s : jstr) : bool := starts_with (rev sfx) (rev s).

(** [name.replace(/\.(png|jpeg|jpg|webp|gif)$/i, '')] *)
Definition strip_image_ext (n : jstr) : jstr :=
  match
    find (fun e => ends_with e (toLowerCase n))
      (map js [".png"; ".jpeg"; ".jpg"; ".webp"; ".gif"]%string)
  with
  | Some e => firstn (length n - length e) n
  | None => n
  end.

Definition minQuality : float := 0.25.
Definition minScale : float := 0.4.
Definition downscaleStep : float := 0.85.

(** [Math.max(1, Math.floor(w * scale))] *)
Definition canvas_dim (w : Z) (scale : float) : Z :=
  match floor (of_Z w * scale) with
  | Some n => Z.max 1 n
  | None => 1%Z
  end.

(** [Math.max(20, Number(targetKB || 100)) * 1024] *)
Definition targetBytes (targetKB : float) : float :=
  (fmax 20 (if truthy (VNum targetKB) then targetKB else 100) * 1024)%float.

(** The adjustment at the end of an iteration that missed the target:
    quality first, then scale; [None] when neither can be reduced. *)
Definition adjust (scale quality : float) : option (float * float) :=
  if PrimFloat.ltb minQuality quality
  then Some (scale, fmax minQuality (toFixedNum 2 (quality - 0.1)))
  else if PrimFloat.ltb minScale scale
  then Some (toFixedNum 3 (scale * downscaleStep), quality)
  else None.

Section Canvas.
(** The natural size of the picture once the browser has decoded it; [None]
    when it cannot be decoded ([img.onerror]). *)
Variable decode : File -> option (Z * Z).
(** The byte size of the JPEG the canvas yields for the picture drawn at
    [cw x ch] with the given quality; [None] when drawing or [toBlob] fails. *)
Variable encode : File -> Z -> Z -> float -> option Z.

(** The body of [for (let iter = 0; iter < 15; iter++)], [iters] being the
    iterations left.  The result is [None] when an exception escapes the
    loop, and the blobs produced are listed oldest first. *)
Fixpoint compressLoop (file : File) (target : float) (w h : Z) (iters : nat)
  (scale quality : float) (bestBlob : option Blob) : option (option Blob) * list Blob :=
  match iters with
  | O => (Some bestBlob, [])
  | S n =>
      let cw := canvas_dim w scale in
      let ch := canvas_dim h scale in
      match encode file cw ch quality with
      | None => (None, [])
      | Some sz =>
          let blob := {| b_size := sz; b_width := cw; b_height := ch; b_quality := quality |} in
          let bestBlob :=
            match bestBlob with
            | None => Some blob
            | Some b => if (sz <? b_size b)%Z then Some blob else Some b
            end in
          if PrimFloat.leb (of_Z sz) target then (Some (Some blob), [blob])
          else
            let '(r, tr) :=
              match adjust scale quality with
              | Some (scale', quality') =>
                  compressLoop file target w h n scale' quality' bestBlob
              | None => (Some bestBlob, [])
              end in
            (r, blob :: tr)
      end
  end.

Definition jpegName (file : File) : jstr :=
  strip_image_ext (match name file with [] => js "image.jpg" | n => n end) ++ js ".jpg".

(** The promise returned by [compressImage] always resolves; the function
    yields the file it resolves with and the blobs encoded on the way. *)
Definition compressImage (file : File) (targetKB : float) : File * list Blob :=
  if negb (starts_with (js "image/") (mime file)) then (file, [])
  else
    match decode file with
    | None => (file, [])
    | Some (w, h) =>
        match compressLoop file (targetBytes targetKB) w h 15 1.0 0.9 None with
        | (Some (Some b), tr) =>
            ({| name := jpegName file; mime := js "image/jpeg"; size := b_size b |}, tr)
        | (Some None, tr) =>
            ({| name := jpegName file; mime := js "image/jpeg"; size := size file |}, tr)
        | (None, tr) => (file, tr)
        end
    end.

End Canvas.

End Compress.

(** ** ocr.js: one request per image, with bounded retry *)

Module Extract.
Import Js Schema Ocr.

Inductive Response : Type :=
| NetworkError                                   (* [fetch] rejects *)
| HttpResponse (status : Z) (body : option JsValue).
                                   (* [body = None]: [response.json()] rejects *)

Definition ok (status : Z) : bool := ((200 <=? status) && (status <=? 299))%Z.

(** [response.status === 503] *)
Definition overloaded (r : Response) : bool :=
  match r with
  | HttpResponse status _ => (status =? 503)%Z
  | NetworkError => false
  end.

Inductive Event : Type :=
| EvSending (i total : nat)          (* the loader message before each request *)
| EvFetch (i : nat) (r : Response)   (* a request for image [i] and its outcome *)
| EvSleep (ms : Z).                  (* a timer *)

Section Network.
Variable P : Platform.
Context {Net : Type}.
(** The model endpoint: the outcome of the next request, made for image [i]. *)
Variable fetch : Net -> nat -> Net * Response.

Record St : Type := { net : Net; trace : list Event }.

Definition emit (e : Event) (st : St) : St :=
  {| net := net st; trace := trace st ++ [e] |}.

(** [x?.k] *)
Definition chain (v : JsValue) (k : string) : JsValue :=
  if nullish v then VUndef else js_get v k.

(** [(data?.candidates?.[0]?.content?.parts || []).map(p => p.text || '')
      .join('\n').trim()]; [None] when a TypeError is thrown. *)
Definition responseText (data : JsValue) : option jstr :=
  let c := chain data "candidates" in
  let c0 := if nullish c then VUndef else js_get0 c in
  let parts := chain (chain c0 "content") "parts" in
  let parts := if truthy parts then parts else VArr [] in
  match parts with
  | VArr l =>
      if existsb nullish l then None
      else Some (trim (arr_join P [10%N]
                         (map (fun p => let t := js_get p "text" in
                                        if truthy t then t else VStr []) l)))
  | _ => None
  end.

(** What a received response contributes; [None] when the [try] block throws. *)
Definition itemsOfResponse (sc : option Schema) (transactionType : string) (r : Response)
  : option (list Item) :=
  match r with
  | NetworkError => None
  | HttpResponse status body =>
      if negb (ok status) then None
      else match body with
           | None => None
           | Some data =>
               match responseText data with
               | None => None
               | Some text => Some (safeJsonExtract P sc text transactionType)
               end
           end
  end.

(** [while (retries > 0) { ... }] for image [i] of [total]. *)
Fixpoint requestLoop (sc : option Schema) (transactionType : string) (i total : nat)
  (retries : nat) (st : St) : list Item * St :=
  match retries with
  | O => ([], st)
  | S remaining =>
      let st := emit (EvSending i total) st in
      let '(n', r) := fetch (net st) i in
      let st := emit (EvFetch i r) {| net := n'; trace := trace st |} in
      if overloaded r then
        match remaining with
        | O => ([], st)
        | S _ => requestLoop sc transactionType i total remaining (emit (EvSleep 2000) st)
        end
      else
        match itemsOfResponse sc transactionType r with
        | Some items => (items, st)
        | None => ([], st)
        end
  end.

(** The [for] loop over the images, from image [i] on. *)
Fixpoint imagesLoop (sc : option Schema) (transactionType : string) (total : nat)
  (files : list Compress.File) (i : nat) (allItems : list Item) (st : St)
  : list Item * St :=
  match files with
  | [] => (allItems, st)
  | _ :: rest =>
      let '(items, st) := requestLoop sc transactionType i total 3 st in
      imagesLoop sc transactionType total rest (S i) (allItems ++ items) st
  end.

Definition getOcrResults (sc : option Schema) (files : list Compress.File)
  (transactionType : string) (st : St) : list Item * St :=
  imagesLoop sc transactionType (length files) files 0 [] st.

End Network.

End Extract.

(** ** add_rows.js: the row-fill engine *)

Module AddRows.
Import Js Schema.

(** *** Configuration *)

Definition ENABLE_TYPING_ANIMATION : bool := false.

Record WaitConfig : Type := {
  rowTimeout : Z;
  pollInterval : Z;
  domStablePre : Z;
  domStablePost : Z;
  stableMsPre : Z;
  stableMsPost : Z
}.

Definition defaults : WaitConfig :=
  {| rowTimeout := 2500; pollInterval := 25; domStablePre := 400;
     domStablePost := 600; stableMsPre := 100; stableMsPost := 150 |}.

(** *** Exceptions and schema helpers *)

Record Exn : Type := { message : jstr; code : option jstr }.

Definition schemaMissing : Exn :=
  {| message := js "TNO_SCHEMA missing: ensure schema.js is loaded BEFORE add_rows.js";
     code := None |}.

Definition Row := list (string * JsValue).

Definition getAllowedKeys (sc : option Schema) (transactionType : string)
  : Exn + list string :=
  match sc with
  | Some s =>
      match transactions s, fields s with
      | Some tx, Some fs =>
          inr (match lookup transactionType tx with
               | Some l => l
               | None =>
                   match lookup "default" tx with
                   | Some l => l
                   | None => keys fs
                   end
               end)
      | _, _ => inl schemaMissing
      end
  | None => inl schemaMissing
  end.

(** [/\{i\}/g], replaced by [String(i)]. *)
Definition m_index (i : Z) (s : jstr) : option (nat * jstr) :=
  if starts_with (js "{i}") s then Some (3, Z_to_jstr i) else None.

Definition makeSuffixFn (pattern : jstr) (i : Z) : jstr :=
  replaceAll (m_index i) pattern.

Record ColumnConfig : Type := { cfg_base : jstr; cfg_suffix : Z -> jstr }.

Definition columnConfig (def : FieldDef) : option ColumnConfig :=
  match f_dom def with
  | Some d =>
      match base d with
      | Some (c :: b) =>
          Some {| cfg_base := c :: b;
                  cfg_suffix := makeSuffixFn (match suffix d with
                                              | Some p => p
                                              | None => js "{i}"
                                              end) |}
      | _ => None
      end
  | None => None
  end.

Definition getColumnConfigs (sc : option Schema) : Exn + list (string * ColumnConfig) :=
  match sc with
  | Some s =>
      match fields s with
      | Some fs =>
          inr (flat_map (fun kd => match columnConfig (snd kd) with
                                   | Some c => [(fst kd, c)]
                                   | None => []
                                   end) fs)
      | None => inl schemaMissing
      end
  | None => inl schemaMissing
  end.

Definition getFieldFillOrder (sc : option Schema) (transactionType : string)
  : Exn + list string :=
  match sc with
  | Some s =>
      match fields s with
      | Some fs =>
          match getAllowedKeys sc transactionType with
          | inl e => inl e
          | inr allowed =>
              let order := match fillOrder s with Some o => o | None => [] end in
              let seq := match order with [] => keys fs | _ => order end in
              inr (filter (fun k => mem k allowed) seq)
          end
      | None => inl schemaMissing
      end
  | None => inl schemaMissing
  end.

(** [None] stands for [undefined]. *)
Definition getColumnName (sc : option Schema) (rowIndex : Z) (key : string)
  (transactionType : string) : Exn + option jstr :=
  match getAllowedKeys sc transactionType with
  | inl e => inl e
  | inr allowedKeys =>
      if negb (mem key allowedKeys) then inr None
      else match getColumnConfigs sc with
           | inl e => inl e
           | inr cfgs =>
               match lookup key cfgs with
               | None => inr None
               | Some c => inr (Some (cfg_base c ++ cfg_suffix c rowIndex))
               end
           end
  end.

(** *** The host page *)

(** What the engine reads of an element. *)
Record Element : Type := {
  e_id : jstr;
  e_type : jstr;
  e_value : jstr;
  e_checked : bool;
  e_readOnly : bool;
  e_attrs : list (string * jstr);
  e_visible : bool           (* display is not none, visibility is not hidden *)
}.

(** What the engine does to the page.  Elements are addressed by the name
    under which the engine found them. *)
Inductive Act : Type :=
| ASetProp (name : jstr) (prop : string) (v : JsValue)   (* element.prop = v *)
| ASetAttr (name : jstr) (attr : string) (v : jstr)      (* element.setAttribute *)
| ARemoveAttr (name : jstr) (attr : string)
| ACall (name : jstr) (method : string)                  (* element.focus(), blur(), click() *)
| AEvent (name : jstr) (ev : string)                     (* element.dispatchEvent *)
| AAppendSelect (name : jstr)                            (* a hidden select is appended *)
| AHostFn (fn : string) (args : list JsValue)            (* a function of the host page *)
| AClickAdd                                              (* #gononstockbtn is clicked *)
| ASearch (key : jstr) (rowIndex : Z)                    (* the stock search dialog is driven *)
| AProgress (current total : Z).                         (* the progress callback *)

(** How the page answers: its next state, the messages it passed to
    [alert] meanwhile, and whether the call threw. *)
Record Reaction (H : Type) : Type := {
  r_host : H;
  r_alerts : list JsValue;
  r_threw : option Exn
}.
Arguments r_host {H}.
Arguments r_alerts {H}.
Arguments r_threw {H}.

(** The passing of time: next state, alerts, and whether the row container
    was mutated meanwhile. *)
Record Elapsed (H : Type) : Type := {
  t_host : H;
  t_alerts : list JsValue;
  t_mutated : bool
}.
Arguments t_host {H}.
Arguments t_alerts {H}.
Arguments t_mutated {H}.

(** The outcome of the stock-code search dialog driven by
    [autoSearchStockCode]. *)
Record Searched (H : Type) : Type := {
  s_host : H;
  s_alerts : list JsValue;
  s_resolved : bool
}.
Arguments s_host {H}.
Arguments s_alerts {H}.
Arguments s_resolved {H}.

Record Host (H : Type) : Type := {
  getElementByName : H -> jstr -> option Element;
  getElementById : H -> jstr -> option Element;
  rowElements : H -> list Element;        (* querySelectorAll('tr[id^="rowtr"]') *)
  hasAddButton : H -> bool;               (* querySelector('#gononstockbtn') *)
  hasFunction : H -> string -> bool;      (* typeof window[f] === 'function' *)
  react : Act -> H -> Reaction H;
  tick : Z -> H -> Elapsed H;             (* the given number of milliseconds pass *)
  search : jstr -> Z -> H -> Searched H
}.
Arguments getElementByName {H}.
Arguments getElementById {H}.
Arguments rowElements {H}.
Arguments hasAddButton {H}.
Arguments hasFunction {H}.
Arguments react {H}.
Arguments tick {H}.
Arguments search {H}.

(** The element an action reads, writes or sends an event to, for those
    that have one; appending a new element touches no existing one. *)
Definition target (a : Act) : option jstr :=
  match a with
  | ASetProp n _ _ | ASetAttr n _ _ | ARemoveAttr n _ | ACall n _ | AEvent n _ => Some n
  | AAppendSelect _ | AHostFn _ _ | AClickAdd | ASearch _ _ | AProgress _ _ => None
  end.

(** How the promise of a call settles. *)
Inductive Outcome (A : Type) : Type :=
| Resolved (a : A)
| Rejected (e : Exn).
Arguments Resolved {A}.
Arguments Rejected {A}.

(** *** The engine, over a host page and an installed schema *)

Section Engine.
Variable P : Platform.
Variable cfg : WaitConfig.
Context {H : Type}.
Variable host : Host H.
Variable sc : option Schema.

(** The page, the two variables of the alert trap, and the actions so far. *)
Record St : Type := { page : H; aborted : bool; lastMsg : jstr; log : list Act }.

Definition M (A : Type) : Type := St -> (Exn + A) * St.

Definition ret {A} (a : A) : M A := fun st => (inr a, st).

Definition throw {A} (e : Exn) : M A := fun st => (inl e, st).

Definition bind {A B} (c : M A) (k : A -> M B) : M B :=
  fun st =>
    match c st with
    | (inr a, st') => k a st'
    | (inl e, st') => (inl e, st')
    end.

Definition gets {A} (f : St -> A) : M A := fun st => (inr (f st), st).

Notation "x <- c ;; k" := (bind c (fun x => k))
  (at level 61, c at next level, right associativity).
Notation "c ;;; k" := (bind c (fun _ => k))
  (at level 61, right associativity).

(** [try { c } finally { f }] *)
Definition try_finally {A} (c : M A) (f : M unit) : M A :=
  fun st =>
    match c st with
    | (r, st') =>
        match f st' with
        | (inr _, st'') => (r, st'')
        | (inl e, st'') => (inl e, st'')
        end
    end.

(** The replacement of [window.alert] installed by [withAlertTrap]. *)
Definition trapAlert (st : St) (msg : JsValue) : St :=
  {| page := page st; aborted := true;
     lastMsg := toStr P (if nullish msg then VStr [] else msg); log := log st |}.

Definition trapAlerts (msgs : list JsValue) (st : St) : St := fold_left trapAlert msgs st.

(** An action on the page; the result tells whether the call threw. *)
Definition perform (a : Act) : M (option Exn) :=
  fun st =>
    let r := react host a (page st) in
    (inr (r_threw r),
     trapAlerts (r_alerts r)
       {| page := r_host r; aborted := aborted st; lastMsg := lastMsg st;
          log := log st ++ [a] |}).

(** A DOM call: exceptions of listeners do not reach the caller. *)
Definition dom (a : Act) : M unit := perform a ;;; ret tt.

(** A direct call of a host function, whose exception propagates. *)
Definition call (a : Act) : M unit :=
  t <- perform a ;;
  match t with
  | Some e => throw e
  | None => ret tt
  end.

(** A timer of [ms] milliseconds; the result tells whether the row
    container was mutated meanwhile. *)
Definition elapse (ms : Z) : M bool :=
  fun st =>
    let t := tick host ms (page st) in
    (inr (t_mutated t),
     trapAlerts (t_alerts t)
       {| page := t_host t; aborted := aborted st; lastMsg := lastMsg st; log := log st |}).

Definition isAborted : M bool := gets aborted.

Definition find_by_name (n : jstr) : M (option Element) :=
  gets (fun st => getElementByName host (page st) n).

(** The present state of an element the engine holds a reference to. *)
Definition live (n : jstr) (el : Element) : M Element :=
  gets (fun st => match getElementByName host (page st) n with
                  | Some e => e
                  | None => el
                  end).

Fixpoint sleepLoop (fuel : nat) (milliseconds waited : Z) : M unit :=
  match fuel with
  | O => ret tt
  | S f =>
      if (waited <? milliseconds)%Z then
        a <- isAborted ;;
        if a then ret tt
        else
          let slice := Z.min 20 (milliseconds - waited) in
          elapse slice ;;; sleepLoop f milliseconds (waited + slice)%Z
      else ret tt
  end.

Definition sleepAbortable (milliseconds : Z) : M unit :=
  a <- isAborted ;;
  if a then ret tt
  else sleepLoop (Z.to_nat ((milliseconds + 19) / 20)) milliseconds 0.

Definition fireFocusEvent (n : jstr) : M unit :=
  dom (ACall n "focus") ;;; dom (AEvent n "focusin") ;;; dom (AEvent n "focus").

Definition fireBlurEvent (n : jstr) : M unit :=
  dom (ACall n "blur") ;;; dom (AEvent n "focusout") ;;; dom (AEvent n "blur").

Definition is_toggle (e : Element) : bool :=
  jstr_eqb (toLowerCase (e_type e)) (js "checkbox")
  || jstr_eqb (toLowerCase (e_type e)) (js "radio").

Definition setValueDirectly (n : jstr) (el : Element) (value : JsValue) : M unit :=
  dom (ASetProp n "readOnly" (VBool false)) ;;;
  dom (ASetProp n "disabled" (VBool false)) ;;;
  e <- live n el ;;
  if is_toggle e then
    let desired := truthy value in
    if negb (Bool.eqb (e_checked e) desired) then
      dom (ASetProp n "checked" (VBool desired)) ;;;
      dom (AEvent n "input") ;;;
      dom (AEvent n "change")
    else dom (AEvent n "change")
  else
    dom (ASetProp n "value" (VStr (toStr P (if nullish value then VStr [] else value)))) ;;;
    e' <- live n el ;;
    dom (ASetAttr n "value" (e_value e')) ;;;
    dom (AEvent n "input") ;;;
    dom (AEvent n "change").

(** With [ENABLE_TYPING_ANIMATION] false the function returns at the end of
    its fast path; the keystroke simulation after it is not reached. *)
Definition typeFocusBlur (n : jstr) (el : Element) (text : jstr) : M unit :=
  dom (ASetProp n "readOnly" (VBool false)) ;;;
  dom (ASetProp n "disabled" (VBool false)) ;;;
  a <- isAborted ;;
  if a then ret tt
  else
    fireFocusEvent n ;;;
    setValueDirectly n el (VStr text) ;;;
    fireBlurEvent n.

Definition clickCheckboxLikeHuman (n : jstr) (el : Element) (isChecked : bool) : M unit :=
  e <- live n el ;;
  if negb (Bool.eqb (e_checked e) isChecked) then dom (ACall n "click") else ret tt.

Definition getCurrentRowIndex (h : H) : option Z :=
  let visibleRows := filter e_visible (rowElements host h) in
  let rowNumbers :=
    flat_map (fun row => match parseInt10 (removeFirst (js "rowtr") (e_id row)) with
                         | Some z => [z]
                         | None => []
                         end) visibleRows in
  let fromRows := match rowNumbers with
                  | [] => None
                  | z :: r => Some (fold_left Z.max r z)
                  end in
  match getElementByName host h (js "HddenMaxRowAdded") with
  | Some hiddenMaxRow =>
      if truthy (VStr (e_value hiddenMaxRow)) && negb (isNaN_str P (e_value hiddenMaxRow))
      then parseInt10 (e_value hiddenMaxRow)
      else fromRows
  | None => fromRows
  end.

(** [getCurrentRowIndex() || 0] *)
Definition currentOrZero (h : H) : Z :=
  match getCurrentRowIndex h with
  | Some z => z
  | None => 0%Z
  end.

Inductive Check : Type := CTrue | CFalse | CAborted.

(** The closure [check] of [waitForRowToBeShown]; [hasHidden] tells whether
    the counter element existed when the wait began. *)
Definition check (rowIndex : Z) (hasHidden : bool) (st : St) : Check :=
  if aborted st then CAborted
  else
    let hiddenVal :=
      match getElementByName host (page st) (js "HddenMaxRowAdded") with
      | Some el =>
          if hasHidden && negb (isNaN_str P (e_value el)) then parseInt10 (e_value el)
          else None
      | None => None
      end in
    if match hiddenVal with Some v => (rowIndex <=? v)%Z | None => false end then CTrue
    else match getElementById host (page st) (js "rowtr" ++ Z_to_jstr rowIndex) with
         | Some rowEl => if e_visible rowEl then CTrue else CFalse
         | None => CFalse
         end.

(** The race of the observers, the poller and the timer: the check is made
    again after each polling interval until the timeout has passed. *)
Fixpoint pollRow (fuel : nat) (interval rowIndex : Z) (hasHidden : bool) : M bool :=
  match fuel with
  | O => ret false
  | S f =>
      elapse interval ;;;
      r <- gets (check rowIndex hasHidden) ;;
      match r with
      | CTrue => ret true
      | CAborted => ret false
      | CFalse => pollRow f interval rowIndex hasHidden
      end
  end.

Definition waitForRowToBeShown (rowIndex timeoutMs : Z) : M bool :=
  let interval := if (pollInterval cfg =? 0)%Z then 25%Z else pollInterval cfg in
  hidden <- find_by_name (js "HddenMaxRowAdded") ;;
  let hasHidden := match hidden with Some _ => true | None => false end in
  initial <- gets (check rowIndex hasHidden) ;;
  match initial with
  | CTrue => ret true
  | CAborted => ret false
  | CFalse => pollRow (Z.to_nat (timeoutMs / interval)) interval rowIndex hasHidden
  end.

(** Every 50 ms: stop when aborted, succeed when no mutation was seen for
    [stableMs]; [quiet] is the time since the last mutation. *)
Fixpoint stableLoop (fuel : nat) (stableMs quiet : Z) : M bool :=
  match fuel with
  | O => ret false
  | S f =>
      mutated <- elapse 50 ;;
      let quiet := if mutated then 0%Z else (quiet + 50)%Z in
      a <- isAborted ;;
      if a then ret false
      else if (stableMs <=? quiet)%Z then ret true
      else stableLoop f stableMs quiet
  end.

Definition waitForDomStable (timeoutMs stableMs : Z) : M bool :=
  stableLoop (Z.to_nat (timeoutMs / 50)) stableMs 0.

Definition ensureListExists (listName : jstr) : M unit :=
  e <- find_by_name listName ;;
  match e with
  | Some _ => ret tt
  | None => dom (AAppendSelect listName)
  end.

Definition ensurePriceListExists (rowIndex : Z) : M unit :=
  ensureListExists (js "fmi_aup" ++ Z_to_jstr rowIndex ++ js "_list").

Definition ensureUomListExists (rowIndex : Z) : M unit :=
  ensureListExists (js "uom_trans_code" ++ Z_to_jstr rowIndex ++ js "_list").

Definition inlineHandlers : list string := ["onfocus"; "onblur"; "onkeyup"; "onchange"]%string.

Fixpoint suppressHandlers (n : jstr) (el : Element) (attrs : list string)
  : M (list (string * option jstr)) :=
  match attrs with
  | [] => ret []
  | a :: r =>
      e <- live n el ;;
      let v := lookup a (e_attrs e) in
      (match v with
       | Some _ => dom (ASetAttr n a [])
       | None => ret tt
       end) ;;;
      rest <- suppressHandlers n el r ;;
      ret ((a, v) :: rest)
  end.

Fixpoint restoreHandlers (n : jstr) (orig : list (string * option jstr)) : M unit :=
  match orig with
  | [] => ret tt
  | (a, v) :: r =>
      (match v with
       | None => dom (ARemoveAttr n a)
       | Some x => dom (ASetAttr n a x)
       end) ;;;
      restoreHandlers n r
  end.

Definition withSuppressedInlineHandlers (n : jstr) (el : Element) (callback : M unit)
  : M unit :=
  orig <- suppressHandlers n el inlineHandlers ;;
  try_finally callback (restoreHandlers n orig).

Definition key_in (key : string) (l : list string) : bool := mem key l.

Definition fillOneField (rowIndex : Z) (key : string) (value : JsValue)
  (transactionType : string) : M unit :=
  match getColumnName sc rowIndex key transactionType with
  | inl e => throw e
  | inr None => ret tt
  | inr (Some fieldName) =>
      a <- isAborted ;;
      if a then ret tt
      else if String.eqb key "gst" then
        cb <- find_by_name fieldName ;;
        match cb with
        | Some el =>
            fireFocusEvent fieldName ;;;
            clickCheckboxLikeHuman fieldName el (truthy value) ;;;
            fireBlurEvent fieldName
        | None => ret tt
        end
      else
        (if key_in key ["unit_list"; "price_unitrate_forex"]%string then
           let flagName := js "fmi_unit_price_editable" ++ Z_to_jstr rowIndex in
           flag <- find_by_name flagName ;;
           (match flag with
            | Some _ => dom (ASetProp flagName "value" (VStr (js "y")))
            | None => ret tt
            end) ;;;
           hasFn <- gets (fun st => hasFunction host (page st) "UnitPriceEditable") ;;
           (if hasFn then perform (AHostFn "UnitPriceEditable" [VNum (Num.of_Z rowIndex)]) ;;; ret tt
            else
              e <- find_by_name fieldName ;;
              match e with
              | Some _ => dom (ACall fieldName "click")
              | None => ret tt
              end) ;;;
           ensurePriceListExists rowIndex
         else ret tt) ;;;
        (if key_in key ["uom"; "uom_trans_code"]%string then ensureUomListExists rowIndex
         else ret tt) ;;;
        element <- find_by_name fieldName ;;
        match element with
        | None => ret tt
        | Some el =>
            if key_in key ["unit_price"; "amount"]%string
               && (e_readOnly el || has_key "readonly" (e_attrs el))
            then fireFocusEvent fieldName ;;; fireBlurEvent fieldName
            else if negb (e_visible el) || jstr_eqb (e_type el) (js "hidden")
            then
              fireFocusEvent fieldName ;;;
              setValueDirectly fieldName el value ;;;
              fireBlurEvent fieldName
            else if key_in key ["acct_disp"; "dept_disp"; "proj_disp"]%string
            then
              withSuppressedInlineHandlers fieldName el (setValueDirectly fieldName el value) ;;;
              fireFocusEvent fieldName ;;;
              sleepAbortable 5 ;;;
              fireBlurEvent fieldName ;;;
              sleepAbortable 5
            else typeFocusBlur fieldName el (toStr P value)
        end
  end.

(** [value == null || (typeof value === 'string' && value.trim() === '')] *)
Definition isBlank (value : JsValue) : bool :=
  nullish value
  || match value with
     | VStr s => match trim s with [] => true | _ => false end
     | _ => false
     end.

Definition data_get (data : Row) (key : string) : JsValue :=
  match lookup key data with
  | Some v => v
  | None => VUndef
  end.

(** [for (const key of order) { ... }] *)
Fixpoint fillLoop (rowIndex : Z) (data : Row) (transactionType : string)
  (fieldsToSkip : list string) (order : list string) : M unit :=
  match order with
  | [] => ret tt
  | key :: rest =>
      a <- isAborted ;;
      if a then ret tt
      else if mem key fieldsToSkip then
        fillLoop rowIndex data transactionType fieldsToSkip rest
      else if negb (has_key key data) then
        fillLoop rowIndex data transactionType fieldsToSkip rest
      else
        let value := data_get data key in
        if isBlank value then fillLoop rowIndex data transactionType fieldsToSkip rest
        else
          fillOneField rowIndex key value transactionType ;;;
          fillLoop rowIndex data transactionType fieldsToSkip rest
  end.

Definition fillRow (rowIndex : Z) (data : Row) (transactionType : string)
  (isStockItem : bool) : M unit :=
  match getFieldFillOrder sc transactionType with
  | inl e => throw e
  | inr order =>
      let fieldsToSkip :=
        if isStockItem then ["stkcode_code"; "stkcode_desc"; "desc"]%string else [] in
      fillLoop rowIndex data transactionType fieldsToSkip order ;;;
      hasFn <- gets (fun st => hasFunction host (page st) "fixNumberDecimal") ;;
      if hasFn then
        t <- perform (AHostFn "fixNumberDecimal" [VStr (js "number"); VStr (js "all")]) ;;
        match t with
        | Some _ => ret tt
        | None =>
            perform (AHostFn "fixNumberDecimal" [VStr (js "text"); VStr (js "all")]) ;;; ret tt
        end
      else ret tt
  end.

(** [window.autoSearchStockCode]: its two guards, then the dialog, which is
    the host's.  The result tells whether the promise resolved. *)
Definition autoSearchStockCode (key : JsValue) (rowIndex : Z) : M bool :=
  match key with
  | VStr (c :: k) =>
      a <- isAborted ;;
      if a then ret false
      else
        fun st =>
          let r := search host (c :: k) rowIndex (page st) in
          (inr (s_resolved r),
           trapAlerts (s_alerts r)
             {| page := s_host r; aborted := aborted st; lastMsg := lastMsg st;
                log := log st ++ [ASearch (c :: k) rowIndex] |})
  | _ => ret false
  end.

(** The interval of 100 ms that waits for the search to have added a row. *)
Fixpoint pollLatest (fuel : nat) (attempts initialRowIndex : Z) : M Z :=
  match fuel with
  | O => gets (fun st => currentOrZero (page st))
  | S f =>
      elapse 100 ;;;
      currentIndex <- gets (fun st => currentOrZero (page st)) ;;
      if (initialRowIndex <? currentIndex)%Z || (50 <? attempts)%Z then ret currentIndex
      else pollLatest f (attempts + 1)%Z initialRowIndex
  end.

(** Steps 1 and 2 of [addOneRowAndFill]: the index of the row obtained and
    whether the stock search made it, or [None] where the function returns
    [null]. *)
Definition createRow (payload : Row) : M (option (Z * bool)) :=
  initialRowIndex <- gets (fun st => currentOrZero (page st)) ;;
  let stockCodeValue := data_get payload "stkcode_code" in
  found <-
    (if truthy stockCodeValue
        && match trim (toStr P stockCodeValue) with [] => false | _ => true end
     then
       resolved <- autoSearchStockCode stockCodeValue (initialRowIndex + 1)%Z ;;
       if resolved then
         latestRowIndex <- pollLatest 52 0 initialRowIndex ;;
         if (initialRowIndex <? latestRowIndex)%Z then ret (Some latestRowIndex)
         else ret None
       else ret None
     else ret None) ;;
  match found with
  | Some newRowIndex => ret (Some (newRowIndex, true))
  | None =>
      addButton <- gets (fun st => hasAddButton host (page st)) ;;
      if negb addButton then ret None
      else
        dom AClickAdd ;;;
        let expectedRowIndex := (initialRowIndex + 1)%Z in
        isRowShown <- waitForRowToBeShown expectedRowIndex (rowTimeout cfg) ;;
        if isRowShown then ret (Some (expectedRowIndex, false)) else ret None
  end.

Definition addOneRowAndFill (payload : Row) (transactionType : string) : M (option Z) :=
  created <- createRow payload ;;
  match created with
  | None => ret None
  | Some (newRowIndex, isStockItem) =>
      waitForDomStable (domStablePre cfg) (stableMsPre cfg) ;;;
      fillRow newRowIndex payload transactionType isStockItem ;;;
      waitForDomStable (domStablePost cfg) (stableMsPost cfg) ;;;
      ret (Some newRowIndex)
  end.

(** The loop of [$addRows], from record [i] on. *)
Fixpoint rowsLoop (transactionType : string) (onProgress : bool) (totalRows : Z)
  (rows : list Row) (i : Z) (newRowIds : list (option Z)) : M (list (option Z)) :=
  match rows with
  | [] => ret newRowIds
  | payload :: rest =>
      a <- isAborted ;;
      if a then ret newRowIds
      else
        newRowId <- addOneRowAndFill payload transactionType ;;
        let newRowIds := newRowIds ++ [newRowId] in
        a' <- isAborted ;;
        if a' then ret newRowIds
        else
          (if onProgress then call (AProgress (i + 1) totalRows) else ret tt) ;;;
          rowsLoop transactionType onProgress totalRows rest (i + 1)%Z newRowIds
  end.

Definition abortError (msg : jstr) : Exn :=
  {| message := js "Aborted by alert: " ++ msg; code := Some (js "TNO_ALERT_ABORT") |}.

Definition start (h : H) : St := {| page := h; aborted := false; lastMsg := []; log := [] |}.

Definition withAlertTrap {A} (executor : M A) (h : H) : Outcome A * St :=
  match executor (start h) with
  | (inr result, st) =>
      if aborted st then (Rejected (abortError (lastMsg st)), st) else (Resolved result, st)
  | (inl e, st) => (Rejected e, st)
  end.

(** [window.$addRows(rows, onProgress, transactionType)]; [onProgress] tells
    whether a callback was passed. *)
Definition addRows (rows : list Row) (onProgress : bool) (transactionType : string) (h : H)
  : Outcome (list (option Z)) * St :=
  match rows with
  | [] => (Resolved [], start h)
  | _ =>
      withAlertTrap
        (rowsLoop transactionType onProgress (Z.of_nat (length rows)) rows 0 []) h
  end.

End Engine.

End AddRows.

(** ** Stand-ins for the platform and for a host page, used by the examples *)

Module Demo.
Import Js Schema AddRows.

(** *** A reader for a fragment of JSON

    Arrays, objects, strings without escapes, decimal numbers without
    exponent, [true], [false] and [null]. *)

Definition key_of (s : jstr) : string := string_of_list_ascii (map ascii_of_N s).

Definition json_ws (c : N) : bool := existsb (N.eqb c) [9; 10; 13; 32]%N.

Definition read_digits (s : jstr) : jstr * jstr :=
  let ds := takeWhile is_digit s in (ds, skipn (length ds) s).

(** An optional sign, digits, and an optional fraction. *)
Definition read_number (s : jstr) : option (float * jstr) :=
  let '(neg, u) := match s with
                   | 45%N :: r => (true, r)
                   | _ => (false, s)
                   end in
  match read_digits u with
  | ([], _) => None
  | (ip, rest) =>
      let '(fp, rest') :=
        match rest with
        | 46%N :: r => read_digits r
        | _ => ([], rest)
        end in
      let rest'' := match fp with [] => rest | _ => rest' end in
      let num := digits_value 0 (ip ++ fp) in
      let x := Num.of_ratio (if neg then - num else num)%Z (10 ^ Z.of_nat (length fp)) in
      Some (x, rest'')
  end.

Fixpoint read_value (fuel : nat) (s : jstr) : option (JsValue * jstr) :=
  match fuel with
  | O => None
  | S f =>
      let s := dropWhile json_ws s in
      if starts_with (js "null") s then Some (VNull, skipn 4 s)
      else if starts_with (js "true") s then Some (VBool true, skipn 4 s)
      else if starts_with (js "false") s then Some (VBool false, skipn 5 s)
      else
        match s with
        | [] => None
        | c :: r =>
            if (c =? 34)%N then
              let body := takeWhile (fun x => negb (x =? 34)%N) r in
              match skipn (length body) r with
              | _ :: r' => Some (VStr body, r')
              | [] => None
              end
            else if (c =? 91)%N then
              match dropWhile json_ws r with
              | 93%N :: r' => Some (VArr [], r')
              | _ => read_elems f r []
              end
            else if (c =? 123)%N then
              match dropWhile json_ws r with
              | 125%N :: r' => Some (VObj [], r')
              | _ => read_members f r []
              end
            else
              match read_number s with
              | Some (x, r') => Some (VNum x, r')
              | None => None
              end
        end
  end
with read_elems (fuel : nat) (s : jstr) (acc : list JsValue) : option (JsValue * jstr) :=
  match fuel with
  | O => None
  | S f =>
      match read_value f s with
      | Some (v, r) =>
          match dropWhile json_ws r with
          | 44%N :: r' => read_elems f r' (acc ++ [v])
          | 93%N :: r' => Some (VArr (acc ++ [v]), r')
          | _ => None
          end
      | None => None
      end
  end
with read_members (fuel : nat) (s : jstr) (acc : list (string * JsValue))
  : option (JsValue * jstr) :=
  match fuel with
  | O => None
  | S f =>
      match read_value f s with
      | Some (VStr k, r) =>
          match dropWhile json_ws r with
          | 58%N :: r1 =>
              match read_value f r1 with
              | Some (v, r2) =>
                  match dropWhile json_ws r2 with
                  | 44%N :: r' => read_members f r' (obj_set (key_of k) v acc)
                  | 125%N :: r' => Some (VObj (obj_set (key_of k) v acc), r')
                  | _ => None
                  end
              | None => None
              end
          | _ => None
          end
      | _ => None
      end
  end.

Definition read_json (s : jstr) : option JsValue :=
  match read_value (S (length s)) s with
  | Some (v, r) => match dropWhile json_ws r with [] => Some v | _ => None end
  | None => None
  end.

(** [parseFloat] on the same number syntax. *)
Definition read_float (s : jstr) : float :=
  match read_number (trimStart s) with
  | Some (x, _) => x
  | None => nan
  end.

(** [Number(s)] on the same number syntax. *)
Definition to_number (s : jstr) : float :=
  match trim s with
  | [] => 0%float
  | t => match read_number t with
         | Some (x, []) => x
         | _ => nan
         end
  end.

(** [String(x)] for numbers with at most three decimals. *)
Definition show_number (x : float) : jstr :=
  match Num.scaled_round 3 x with
  | None => js "NaN"
  | Some n =>
      let a := Z.abs n in
      let ip := Z_to_jstr (a / 1000) in
      let fp := rev (dropWhile (N.eqb 48) (rev (padStart0 3 (Z_to_jstr (a mod 1000))))) in
      (if (n <? 0)%Z then [45%N] else [])
        ++ ip ++ match fp with [] => [] | _ => 46%N :: fp end
  end.

Definition platform : Platform :=
  {| JSON_parse := read_json; parseFloat := read_float;
     numToString := show_number; strToNumber := to_number |}.

(** *** A host page

    The page keeps the row counter in its hidden element, has the add
    button, a visible text input under every field name and no auxiliary
    list.  A click on the button adds a row, except the click numbered
    [failAt]; a change event on the element named [alertOn] makes the page
    call [alert]. *)

Record Page : Type := { maxRow : Z; clicks : nat }.

Definition textInput (n value : jstr) : Element :=
  {| e_id := n; e_type := js "text"; e_value := value; e_checked := false;
     e_readOnly := false; e_attrs := []; e_visible := true |}.

Definition is_list_name (n : jstr) : bool := Compress.ends_with (js "_list") n.

Definition page_host (failAt : option nat) (alertOn : option jstr) : Host Page :=
  {| getElementByName := fun p n =>
       if jstr_eqb n (js "HddenMaxRowAdded")
       then Some {| e_id := n; e_type := js "hidden"; e_value := Z_to_jstr (maxRow p);
                    e_checked := false; e_readOnly := false; e_attrs := [];
                    e_visible := false |}
       else if is_list_name n then None
       else Some (textInput n []);
     getElementById := fun p n => None;
     rowElements := fun p => [];
     hasAddButton := fun p => true;
     hasFunction := fun p f => false;
     react := fun a p =>
       match a with
       | AClickAdd =>
           {| r_host :=
                {| maxRow := if match failAt with
                                | Some k => Nat.eqb k (clicks p)
                                | None => false
                                end
                             then maxRow p else (maxRow p + 1)%Z;
                   clicks := S (clicks p) |};
              r_alerts := []; r_threw := None |}
       | AEvent n ev =>
           {| r_host := p;
              r_alerts :=
                if String.eqb ev "change"
                   && match alertOn with
                      | Some m => jstr_eqb n m
                      | None => false
                      end
                then [VStr (js "Quantity exceeds stock")] else [];
              r_threw := None |}
       | _ => {| r_host := p; r_alerts := []; r_threw := None |}
       end;
     tick := fun ms p => {| t_host := p; t_alerts := []; t_mutated := false |};
     search := fun k i p => {| s_host := p; s_alerts := []; s_resolved := false |} |}.

Definition page0 : Page := {| maxRow := 0; clicks := 0 |}.

(** A registry whose canonical order is C, A, B. *)
Definition abcSchema : Schema :=
  {| fields := Some
       [ ("A", field "string" "A" "{i}" None None);
         ("B", field "string" "B" "{i}" None None);
         ("C", field "string" "C" "{i}" None None) ]%string;
     transactions := Some [ ("default", ["A"; "B"; "C"]) ]%string;
     fillOrder := Some ["C"; "A"; "B"]%string |}.

(** A model endpoint that answers from a script, whatever is asked. *)
Definition scripted (n : list Extract.Response) (i : nat)
  : list Extract.Response * Extract.Response :=
  match n with
  | [] => ([], Extract.NetworkError)
  | r :: rest => (rest, r)
  end.

(** A text in which every apostrophe stands for a double quote. *)
Definition jq (s : string) : jstr := map (fun c => if (c =? 39)%N then 34%N else c) (js s).

(** The body of a successful answer whose only part is the given text. *)
Definition answer (text : jstr) : JsValue :=
  let part := VObj [("text"%string, VStr text)] in
  let content := VObj [("parts"%string, VArr [part])] in
  VObj [("candidates"%string, VArr [VObj [("content"%string, content)]])].

Definition item (code : string) (qty : float) : Row :=
  [ ("description", VStr (js code)); ("qnty_total", VNum qty) ]%string.

End Demo.

(** ** ocr.js: the API key and the list of uploaded files *)

Module Upload.
Import Js Num Compress.

Definition placeholder : jstr := js "YOUR_GEMINI_API_KEY".

(** [window.gemini_api_key], a string when it is set, and the entry
    [gemini_api_key] of [sessionStorage]; [None] when there is none. *)
Record KeyStore : Type := { globalKey : option jstr; sessionKey : option jstr }.

Inductive KeyEvent : Type :=
| KPrompt      (* [prompt('Please enter your Gemini API key:')] *)
| KAlert.      (* [alert('A valid Gemini API key is required to proceed.')] *)

(** [key && key !== 'YOUR_GEMINI_API_KEY'] *)
Definition usable (key : option jstr) : bool :=
  match key with
  | Some (c :: r) => negb (jstr_eqb (c :: r) placeholder)
  | _ => false
  end.

(** [answer] is what the prompt returns, [None] when it is dismissed; it is
    read only when the prompt is shown.  The result is the key returned,
    the stores afterwards and the dialogs shown. *)
Definition resolveGeminiApiKey (answer : option jstr) (ks : KeyStore)
  : option jstr * KeyStore * list KeyEvent :=
  if usable (globalKey ks) then (globalKey ks, ks, [])
  else if usable (sessionKey ks) then (sessionKey ks, ks, [])
  else
    match answer with
    | Some (c :: r) =>
        match trim (c :: r) with
        | [] => (None, ks, [KPrompt; KAlert])
        | _ => (Some (c :: r),
                {| globalKey := globalKey ks; sessionKey := Some (c :: r) |},
                [KPrompt])
        end
    | _ => (None, ks, [KPrompt; KAlert])
    end.

(** A [File] object and the property [__tnoId] it may have been given. *)
Record UFile : Type := { file : File; tnoId : option Z }.

(** The state of [init]: the files to submit, the counter of ids, the meta
    element of each preview (its [data-base-name] and its text), the
    preview cards in the container by the id they carry, and the messages
    passed to [alert]. *)
Record Uploads : Type := {
  uploadedFiles : list UFile;
  TNO_FILE_UID : Z;
  previewMetaById : list (Z * (jstr * jstr));
  cards : list Z;
  alerts : list jstr
}.

Definition noUploads : Uploads :=
  {| uploadedFiles := []; TNO_FILE_UID := 1; previewMetaById := []; cards := [];
     alerts := [] |}.

Fixpoint map_set {V} (k : Z) (v : V) (m : list (Z * V)) : list (Z * V) :=
  match m with
  | [] => [(k, v)]
  | (k', v') :: r => if (k =? k')%Z then (k, v) :: r else (k', v') :: map_set k v r
  end.

Definition map_delete {V} (k : Z) (m : list (Z * V)) : list (Z * V) :=
  filter (fun kv => negb (k =? fst kv)%Z) m.

(** [(file.name || 'image').slice(0, 16)] *)
Definition displayName (f : File) : jstr :=
  firstn 16 (match name f with [] => js "image" | n => n end).

(** [Math.round((file.size || 0) / 1024)], the size of a file being a
    natural number. *)
Definition sizeKb (f : File) : Z := ((size f + 512) / 1024)%Z.

Definition metaText (base : jstr) (kb : Z) : jstr := base ++ [10%N] ++ Z_to_jstr kb ++ js " KB".

(** [createPreviewCard(file)], for a file that has its id. *)
Definition createPreviewCard (id : Z) (f : File) (u : Uploads) : Uploads :=
  {| uploadedFiles := uploadedFiles u;
     TNO_FILE_UID := TNO_FILE_UID u;
     previewMetaById :=
       map_set id (displayName f, metaText (displayName f) (sizeKb f)) (previewMetaById u);
     cards := cards u ++ [id];
     alerts := alerts u |}.

Section Limits.
(** [Number(window.TNO_MAX_IMAGES || 50)] and
    [Number(window.TNO_PDF_MAX_PAGES || 88)], configured with integers. *)
Variable MAX_IMAGES : Z.
Variable maxPages : Z.

Definition limitMessage : jstr :=
  js "Maximum " ++ Z_to_jstr MAX_IMAGES ++ js " images per upload reached. Extra files are ignored.".

Definition addImageFile (f : UFile) (u : Uploads) : Uploads :=
  if (MAX_IMAGES <=? Z.of_nat (length (uploadedFiles u)))%Z
  then {| uploadedFiles := uploadedFiles u; TNO_FILE_UID := TNO_FILE_UID u;
          previewMetaById := previewMetaById u; cards := cards u;
          alerts := alerts u ++ [limitMessage] |}
  else
    let '(id, next) :=
      match tnoId f with
      | Some id => (id, TNO_FILE_UID u)
      | None => (TNO_FILE_UID u, (TNO_FILE_UID u + 1)%Z)
      end in
    createPreviewCard id (file f)
      {| uploadedFiles := uploadedFiles u ++ [{| file := file f; tnoId := Some id |}];
         TNO_FILE_UID := next;
         previewMetaById := previewMetaById u; cards := cards u; alerts := alerts u |}.

(** [uploadedFiles.splice(idx, 1)] for the first file with that id. *)
Fixpoint spliceById (id : Z) (l : list UFile) : list UFile :=
  match l with
  | [] => []
  | f :: r =>
      match tnoId f with
      | Some i => if (i =? id)%Z then r else f :: spliceById id r
      | None => f :: spliceById id r
      end
  end.

Fixpoint removeAt {A} (pos : nat) (l : list A) : list A :=
  match pos, l with
  | _, [] => []
  | O, _ :: r => r
  | S p, x :: r => x :: removeAt p r
  end.

(** The click handler of the remove button of the card at position [pos]
    of the preview container. *)
Definition removeCard (pos : nat) (u : Uploads) : Uploads :=
  match nth_error (cards u) pos with
  | None => u
  | Some id =>
      {| uploadedFiles := spliceById id (uploadedFiles u);
         TNO_FILE_UID := TNO_FILE_UID u;
         previewMetaById := map_delete id (previewMetaById u);
         cards := removeAt pos (cards u);
         alerts := alerts u |}
  end.

(** What pdf.js makes of a file: [None] when the library or the document
    cannot be loaded; otherwise [numPages] and, for each page number, the
    byte size of the JPEG made of the page, [None] when rendering it fails. *)
Variable openPdf : File -> option (Z * (Z -> option Z)).

(** [name.replace(/\.pdf$/i, '')] *)
Definition strip_pdf_ext (n : jstr) : jstr :=
  if ends_with (js ".pdf") (toLowerCase n) then firstn (length n - 4) n else n.

Definition pageName (f : File) (i : Z) : jstr :=
  strip_pdf_ext (match name f with [] => js "document" | n => n end)
    ++ js "_page" ++ Z_to_jstr i ++ js ".jpg".

(** The loop [for (let i = 1; i <= pageCount; i++)] from page [i] on, with
    the files made and the page numbers reported to [onProgress]. *)
Fixpoint pagesLoop (f : File) (render : Z -> option Z) (fuel : nat) (i pageCount : Z)
  : list File * list Z :=
  match fuel with
  | O => ([], [])
  | S k =>
      if (i <=? pageCount)%Z then
        let '(out, reported) := pagesLoop f render k (i + 1)%Z pageCount in
        match render i with
        | Some sz =>
            ({| name := pageName f i; mime := js "image/jpeg"; size := sz |} :: out,
             i :: reported)
        | None => (out, reported)
        end
      else ([], [])
  end.

(** [processPdf(file, options)]: [None] when the promise rejects; else the
    files, the pages reported and [pageCount]. *)
Definition processPdf (f : File) : option (list File * list Z * Z) :=
  match openPdf f with
  | None => None
  | Some (numPages, render) =>
      let pageCount := Z.min numPages maxPages in
      let '(out, reported) := pagesLoop f render (Z.to_nat pageCount) 1 pageCount in
      Some (out, reported, pageCount)
  end.

(** The calls [handleFiles] makes to the loader overlay. *)
Inductive LoaderCall : Type :=
| LOpen (text : jstr) (percent : Z)
| LUpdate (text : jstr) (percent : option Z)
| LState (state : string)
| LCloseAfter (ms : Z).

Definition isImage (f : File) : bool :=
  match mime f with [] => false | t => starts_with (js "image/") t end.

Definition isPdf (f : File) : bool :=
  jstr_eqb (mime f) (js "application/pdf") || ends_with (js ".pdf") (toLowerCase (name f)).

(** [Math.min(25, Math.floor((i / Math.max(1, total)) * 25))] *)
Definition pdfPercent (i total : Z) : option Z :=
  match floor (of_Z i / fmax 1 (of_Z total) * 25)%float with
  | Some n => Some (Z.min 25 n)
  | None => None
  end.

Definition renderingText (f : File) (i total : Z) : jstr :=
  js "Rendering " ++ name f ++ js ": page " ++ Z_to_jstr i ++ js " of " ++ Z_to_jstr total
    ++ js "...".

Definition addAll (fs : list UFile) (u : Uploads) : Uploads :=
  fold_left (fun u f => addImageFile f u) fs u.

Definition fresh (f : File) : UFile := {| file := f; tnoId := None |}.

(** The loop over the PDF files of [handleFiles]. *)
Fixpoint pdfLoop (pdfs : list UFile) (u : Uploads) : Uploads * list LoaderCall :=
  match pdfs with
  | [] => (u, [])
  | pdf :: rest =>
      match processPdf (file pdf) with
      | Some (pages, reported, pageCount) =>
          let calls := map (fun i => LUpdate (renderingText (file pdf) i pageCount)
                                       (pdfPercent i pageCount)) reported in
          let '(u', more) := pdfLoop rest (addAll (map fresh pages) u) in
          (u', calls ++ more)
      | None => pdfLoop rest u
      end
  end.

Definition handleFiles (files : list UFile) (u : Uploads) : Uploads * list LoaderCall :=
  let images := filter (fun f => isImage (file f)) files in
  let pdfs := filter (fun f => isPdf (file f)) files in
  let u := addAll images u in
  match pdfs with
  | [] => (u, [])
  | _ =>
      let '(u', calls) := pdfLoop pdfs u in
      (u', [LOpen (js "Rendering PDF pages...") 5] ++ calls
             ++ [LState "complete"; LCloseAfter 300])
  end.

End Limits.

End Upload.

(** ** loader.js: the single-entry loader *)

Module Loader.
Import Js.

(** [n < 10 ? '0' + n : '' + n] *)
Definition pad2 (n : Z) : jstr := if (n <? 10)%Z then 48%N :: Z_to_jstr n else Z_to_jstr n.

(** What [new Date()] gives: [getFullYear()], [getMonth()], [getDate()]. *)
Record Date : Type := { fullYear : Z; month : Z; date : Z }.

Definition todayKey (d : Date) : jstr :=
  Z_to_jstr (fullYear d) ++ pad2 (month d + 1) ++ pad2 (date d).

(** [now] is [Date.now()] and [today] is [new Date()] at the call. *)
Record Clock : Type := { now : Z; today : Date }.

(** [fixedVersions] maps names to version strings; it is read by its own
    entries. *)
Definition computeVersion (c : Clock) (name : jstr) (policy : jstr)
  (fixedVersions : option (list (jstr * jstr))) : jstr :=
  if jstr_eqb policy (js "realtime") then Z_to_jstr (now c)
  else if jstr_eqb policy (js "daily") then todayKey (today c)
  else
    let map := match fixedVersions with Some m => m | None => [] end in
    match find (fun kv => jstr_eqb (fst kv) name) map with
    | Some (_, c0 :: v) => c0 :: v
    | _ => js "1"
    end.

Definition joinPath (base file : jstr) : jstr :=
  match base with
  | [] => file
  | _ => if Compress.ends_with (js "/") base then base ++ file else base ++ js "/" ++ file
  end.

(** [s.includes(p)] *)
Fixpoint includes (p s : jstr) : bool :=
  starts_with p s
  || match s with
     | [] => false
     | _ :: r => includes p r
     end.

(** [name.replace(/\.js$/, '')] *)
Definition strip_js_ext (n : jstr) : jstr :=
  if Compress.ends_with (js ".js") n then firstn (length n - 3) n else n.

Record Options : Type := {
  versionPolicy : option jstr;
  versions : option (list (jstr * jstr));
  basePath : option jstr;
  apiKey : option jstr;
  transactionType : option jstr;
  files : option (list jstr)
}.

Definition noOptions : Options :=
  {| versionPolicy := None; versions := None; basePath := None; apiKey := None;
     transactionType := None; files := None |}.

Definition loaderFile : jstr := js "tno_ai_ocr_add_rows_loader.js".
Definition pdfJs : jstr := js "https://unpkg.com/pdfjs-dist@3.11.174/build/pdf.min.js".
Definition pdfWorker : jstr := js "https://unpkg.com/pdfjs-dist@3.11.174/build/pdf.worker.min.js".
Definition schemaFile : jstr := js "tno_ai_ocr_add_rows_schema.js".
Definition addRowsFile : jstr := js "tno_ai_ocr_add_rows_add_rows.js".
Definition ocrFile : jstr := js "tno_ai_ocr_add_rows_ocr.js".

Definition defaultFiles : list jstr := [pdfJs; pdfWorker; schemaFile; addRowsFile; ocrFile].

Definition nameByFile : list (jstr * jstr) :=
  [ (schemaFile, js "schema"); (addRowsFile, js "add_rows"); (ocrFile, js "ocr") ].

(** The part of the window the loader reads and writes. *)
Record Window : Type := {
  gemini_api_key : option jstr;
  TNO_TXN_TYPE : option jstr;
  pdfjsLib : bool;                   (* [typeof window.pdfjsLib !== 'undefined'] *)
  workerSrc : option jstr;           (* [pdfjsLib.GlobalWorkerOptions.workerSrc] *)
  requested : list jstr              (* the scripts appended to the head, by [src] *)
}.

Section Page.
(** The [src] of the scripts of the document. *)
Variable scripts : list jstr.
(** The clock at the time the [i]-th file is handled. *)
Variable clock : nat -> Clock.
Variable encodeURIComponent : jstr -> jstr.
(** Whether the script of that address loads, and whether it defines
    [window.pdfjsLib] when it does. *)
Variable loads : jstr -> bool.
Variable definesPdfJs : jstr -> bool.

(** The base path when the options give none. *)
Definition ownBasePath : jstr :=
  match find (fun s => match s with [] => false | _ => includes loaderFile s end) scripts with
  | Some src =>
      let cleanSrc := takeWhile (fun c => negb (c =? 63)%N) src in
      match lastIndexOf 47%N cleanSrc with
      | Some dirIndex => firstn (dirIndex + 1) cleanSrc
      | None => js "./"
      end
  | None => js "./"
  end.

Definition isExternal (f : jstr) : bool := starts_with (js "http") f.

Definition logicalName (f : jstr) : jstr :=
  match find (fun kv => jstr_eqb (fst kv) f) nameByFile with
  | Some (_, n) => n
  | None => strip_js_ext f
  end.

Definition urlOf (opts : Options) (base : jstr) (i : nat) (f : jstr) : jstr :=
  if isExternal f then f
  else
    let policy := match versionPolicy opts with
                  | Some (c :: p) => c :: p
                  | _ => js "daily"
                  end in
    joinPath base f ++ js "?v="
      ++ encodeURIComponent (computeVersion (clock i) (logicalName f) policy (versions opts)).

(** The loop [for (var i = 0; i < files.length; i++)], from file [i] on. *)
Fixpoint loadLoop (opts : Options) (base : jstr) (fs : list jstr) (i : nat) (w : Window)
  : AddRows.Outcome unit * Window :=
  match fs with
  | [] => (AddRows.Resolved tt, w)
  | f :: rest =>
      let url := urlOf opts base i f in
      let w1 := {| gemini_api_key := gemini_api_key w; TNO_TXN_TYPE := TNO_TXN_TYPE w;
                   pdfjsLib := pdfjsLib w; workerSrc := workerSrc w;
                   requested := requested w ++ [url] |} in
      if loads url then
        let defined := pdfjsLib w1 || definesPdfJs url in
        let w2 := {| gemini_api_key := gemini_api_key w1; TNO_TXN_TYPE := TNO_TXN_TYPE w1;
                     pdfjsLib := defined;
                     workerSrc := if includes (js "pdf.min.js") f && defined
                                  then Some pdfWorker else workerSrc w1;
                     requested := requested w1 |} in
        loadLoop opts base rest (S i) w2
      else
        (AddRows.Rejected {| AddRows.message := js "Failed to load " ++ url;
                             AddRows.code := None |}, w1)
  end.

(** [window.TNO.load(options)] *)
Definition load (opts : Options) (w : Window) : AddRows.Outcome unit * Window :=
  let base := match basePath opts with
              | Some b => b
              | None => ownBasePath
              end in
  let fs := match files opts with
            | Some l => l
            | None => defaultFiles
            end in
  let key := match apiKey opts with
             | Some k => match gemini_api_key w with
                         | Some (_ :: _) => gemini_api_key w
                         | _ => Some k
                         end
             | None => gemini_api_key w
             end in
  let txn := match transactionType opts with
             | Some t => Some t
             | None => TNO_TXN_TYPE w
             end in
  loadLoop opts base fs 0
    {| gemini_api_key := key; TNO_TXN_TYPE := txn; pdfjsLib := pdfjsLib w;
       workerSrc := workerSrc w; requested := requested w |}.

End Page.

End Loader.

(** ** ocr.js: the loader overlay *)

Module Overlay.
Import Js.

(** Which of the elements the functions look up are in the document. *)
Record Dom : Type := {
  overlay : bool;        (* #ai-ocr-loading-overlay *)
  container : bool;      (* .ai-ocr-loader-container, inside the overlay *)
  doneBtn : bool;        (* #ai-ocr-done-btn *)
  statusText : bool;     (* #ai-ocr-status-text *)
  progressFill : bool;   (* #ai-ocr-progress-fill *)
  progress : bool        (* #ai-ocr-progress *)
}.

(** The document after [injectAiOcrUi]. *)
Definition injected : Dom :=
  {| overlay := true; container := true; doneBtn := true; statusText := true;
     progressFill := true; progress := true |}.

(** The [onclick] of the done button: none, [() => closeLoader()], or the
    handler of the submit flow, which also hides the modal. *)
Inductive DoneHandler : Type :=
| NoHandler
| CloseOnly
| CloseAndHideModal.

(** A call of [focus()]: on the container at the next animation frame, or
    on the element that had the focus when the overlay opened. *)
Inductive Focus : Type :=
| FocusContainer
| FocusElement (e : jstr).

Record State : Type := {
  display : jstr;                          (* overlay.style.display *)
  ariaHidden : jstr;                       (* aria-hidden of the overlay *)
  ariaBusy : option jstr;                  (* aria-busy of the body *)
  dataState : jstr;                        (* container.dataset.state *)
  loaderClosable : bool;
  listening : bool;          (* handleOverlayKeydown is a keydown listener *)
  previousActiveElement : option jstr;
  onclick : DoneHandler;                   (* doneBtn.onclick *)
  text : jstr;                             (* statusText.textContent *)
  valueNow : jstr;                         (* aria-valuenow of the progress bar *)
  width : jstr;                            (* progressFill.style.width *)
  errorClass : bool;                       (* the class [error] of the fill *)
  modalDisplay : jstr;                     (* aiOcrModal.style.display *)
  focused : list Focus                     (* the calls of [focus()], oldest first *)
}.

(** The overlay as [injectAiOcrUi] makes it, under an open modal. *)
Definition initial : State :=
  {| display := js "none"; ariaHidden := js "true"; ariaBusy := None;
     dataState := js "idle"; loaderClosable := false; listening := false;
     previousActiveElement := None; onclick := NoHandler; text := js "Processing...";
     valueNow := js "0"; width := []; errorClass := false; modalDisplay := js "block";
     focused := [] |}.

(** [['complete', 'empty', 'error'].includes(state)] *)
Definition closable (state : jstr) : bool :=
  existsb (jstr_eqb state) (map js ["complete"; "empty"; "error"]%string).

Section Document.
Variable dom : Dom.

(** [updateOcrLoader(text, percent, isError)]; the percent is a number at
    every call, an integer or, for [None], NaN. *)
Definition updateOcrLoader (t : jstr) (percent : option Z) (isError : bool) (s : State)
  : State :=
  {| display := display s; ariaHidden := ariaHidden s; ariaBusy := ariaBusy s;
     dataState := dataState s; loaderClosable := loaderClosable s;
     listening := listening s; previousActiveElement := previousActiveElement s;
     onclick := onclick s;
     text := if statusText dom then t else text s;
     valueNow := if progress dom
                 then match percent with
                      | Some p => Z_to_jstr (Z.max 0 (Z.min 100 p))
                      | None => js "NaN"
                      end
                 else valueNow s;
     width := if progressFill dom
              then match percent with
                   | Some p => Z_to_jstr p
                   | None => js "NaN"
                   end ++ js "%"
              else width s;
     errorClass := if progressFill dom then isError else errorClass s;
     modalDisplay := modalDisplay s; focused := focused s |}.

Definition setLoaderState (state : jstr) (s : State) : State :=
  if negb (overlay dom && container dom) then s
  else
    {| display := display s; ariaHidden := ariaHidden s; ariaBusy := ariaBusy s;
       dataState := state; loaderClosable := closable state;
       listening := listening s; previousActiveElement := previousActiveElement s;
       onclick := onclick s; text := text s; valueNow := valueNow s; width := width s;
       errorClass := errorClass s; modalDisplay := modalDisplay s; focused := focused s |}.

Definition setDone (h : DoneHandler) (s : State) : State :=
  if doneBtn dom then
    {| display := display s; ariaHidden := ariaHidden s; ariaBusy := ariaBusy s;
       dataState := dataState s; loaderClosable := loaderClosable s;
       listening := listening s; previousActiveElement := previousActiveElement s;
       onclick := h; text := text s; valueNow := valueNow s; width := width s;
       errorClass := errorClass s; modalDisplay := modalDisplay s; focused := focused s |}
  else s.

(** [openLoader(text, percent)]; [active] is [document.activeElement]. *)
Definition openLoader (t : jstr) (percent : Z) (active : option jstr) (s : State) : State :=
  let s := setDone CloseOnly s in
  let s :=
    if overlay dom && container dom then
      setLoaderState (js "progress")
        {| display := js "flex"; ariaHidden := js "false"; ariaBusy := Some (js "true");
           dataState := dataState s; loaderClosable := loaderClosable s;
           listening := listening s; previousActiveElement := active;
           onclick := onclick s; text := text s; valueNow := valueNow s; width := width s;
           errorClass := errorClass s; modalDisplay := modalDisplay s;
           focused := focused s ++ [FocusContainer] |}
    else s in
  let s := updateOcrLoader t (Some percent) false s in
  {| display := display s; ariaHidden := ariaHidden s; ariaBusy := ariaBusy s;
     dataState := dataState s; loaderClosable := loaderClosable s;
     listening := true; previousActiveElement := previousActiveElement s;
     onclick := onclick s; text := text s; valueNow := valueNow s; width := width s;
     errorClass := errorClass s; modalDisplay := modalDisplay s; focused := focused s |}.

Definition closeLoader (s : State) : State :=
  setLoaderState (js "idle")
    {| display := if overlay dom then js "none" else display s;
       ariaHidden := if overlay dom then js "true" else ariaHidden s;
       ariaBusy := if overlay dom then None else ariaBusy s;
       dataState := dataState s; loaderClosable := loaderClosable s;
       listening := false; previousActiveElement := None;
       onclick := onclick s; text := text s; valueNow := valueNow s; width := width s;
       errorClass := errorClass s; modalDisplay := modalDisplay s;
       focused := focused s ++ match previousActiveElement s with
                               | Some e => [FocusElement e]
                               | None => []
                               end |}.

Definition handleOverlayKeydown (key : jstr) (s : State) : State :=
  if jstr_eqb key (js "Escape") && loaderClosable s then closeLoader s else s.

(** A click on the done button. *)
Definition clickDone (s : State) : State :=
  if doneBtn dom then
    match onclick s with
    | NoHandler => s
    | CloseOnly => closeLoader s
    | CloseAndHideModal =>
        let s := closeLoader s in
        {| display := display s; ariaHidden := ariaHidden s; ariaBusy := ariaBusy s;
           dataState := dataState s; loaderClosable := loaderClosable s;
           listening := listening s; previousActiveElement := previousActiveElement s;
           onclick := onclick s; text := text s; valueNow := valueNow s; width := width s;
           errorClass := errorClass s; modalDisplay := js "none"; focused := focused s |}
    end
  else s.

(** What happens to the overlay: the calls the library makes, the keys
    the user presses and the clicks on the done button. *)
Inductive Event : Type :=
| EOpen (t : jstr) (percent : Z) (active : option jstr)
| EUpdate (t : jstr) (percent : option Z) (isError : bool)
| EState (state : jstr)
| ESetDone (h : DoneHandler)
| EClose
| EKey (key : jstr)
| EClickDone.

Definition step (s : State) (e : Event) : State :=
  match e with
  | EOpen t percent active => openLoader t percent active s
  | EUpdate t percent isError => updateOcrLoader t percent isError s
  | EState state => setLoaderState state s
  | ESetDone h => setDone h s
  | EClose => closeLoader s
  | EKey key => if listening s then handleOverlayKeydown key s else s
  | EClickDone => clickDone s
  end.

Definition run (es : list Event) (s : State) : State := fold_left step es s.

End Document.

End Overlay.

(** ** ocr.js: the submit handler *)

Module Submit.
Import Js Num Schema Ocr Compress Upload Overlay.

(** The variables of [init] and the elements the handler reads and
    writes, with the dialogs shown and the calls made to the overlay. *)
Record Ui : Type := {
  uploads : Uploads;
  keys : KeyStore;
  geminiApiKey : option jstr;
  processing : option jstr;      (* aiOcrSubmitBtn.dataset.processing *)
  disabled : bool;               (* aiOcrSubmitBtn.disabled *)
  inputValue : jstr;             (* aiOcrFileInput.value *)
  dialogs : list KeyEvent;
  events : list Event
}.

(** [Math.floor(((i + 1) / Math.max(1, uploadedFiles.length)) * 30)] *)
Definition compressPercent (i total : Z) : option Z :=
  floor (of_Z (i + 1) / fmax 1 (of_Z total) * 30)%float.

(** [basePct + Math.floor(((i) / Math.max(1, total)) * spanPct)] *)
Definition sendingPercent (i total : Z) : option Z :=
  option_map (Z.add 30) (floor (of_Z i / fmax 1 (of_Z total) * 40)%float).

(** [70 + Math.floor((current / (total || 1)) * 30)] *)
Definition rowPercent (current total : Z) : option Z :=
  option_map (Z.add 70)
    (floor (of_Z current / (if (total =? 0)%Z then 1 else of_Z total) * 30)%float).

Definition compressingText (i total : Z) : jstr :=
  js "Compressing image " ++ Z_to_jstr (i + 1) ++ js " of " ++ Z_to_jstr total ++ js "...".

Definition sendingText (i total : nat) : jstr :=
  js "Sending image " ++ Z_to_jstr (Z.of_nat i + 1) ++ js " of " ++ Z_to_jstr (Z.of_nat total)
    ++ js " to AI...".

Definition addingText (current total : Z) : jstr :=
  js "Adding row " ++ Z_to_jstr current ++ js " of " ++ Z_to_jstr total ++ js "...".

(** The calls of [updateOcrLoader] that [getOcrResults] made. *)
Definition sendingEvents (tr : list Extract.Event) : list Event :=
  flat_map (fun e => match e with
                     | Extract.EvSending i total =>
                         [EUpdate (sendingText i total)
                            (sendingPercent (Z.of_nat i) (Z.of_nat total)) false]
                     | _ => []
                     end) tr.

(** The calls of [updateOcrLoader] that [onRowProgress] made. *)
Definition progressEvents (acts : list AddRows.Act) : list Event :=
  flat_map (fun a => match a with
                     | AddRows.AProgress current total =>
                         [EUpdate (addingText current total) (rowPercent current total) false]
                     | _ => []
                     end) acts.

Section Pipeline.
Variable P : Platform.
Variable cfg : AddRows.WaitConfig.
Context {H : Type}.
Variable host : AddRows.Host H.
Variable sc : option Schema.
Context {Net : Type}.
Variable fetch : Net -> nat -> Net * Extract.Response.
Variable decode : File -> option (Z * Z).
Variable encode : File -> Z -> Z -> float -> option Z.
(** [Number(window.TNO_IMAGE_TARGET_KB || 100)] and
    [window.TNO_TXN_TYPE || window.tnoTxnType || 'default'] *)
Variable targetKB : float.
Variable transactionType : string.
(** What the prompt for the key returns when it is shown, and the element
    that has the focus when the button is clicked. *)
Variable answer : option jstr.
Variable active : option jstr.

(** The page with [onRowProgress] as the progress callback: the callback
    updates the overlay and nothing of the page. *)
Definition withRowProgress : AddRows.Host H :=
  {| AddRows.getElementByName := AddRows.getElementByName host;
     AddRows.getElementById := AddRows.getElementById host;
     AddRows.rowElements := AddRows.rowElements host;
     AddRows.hasAddButton := AddRows.hasAddButton host;
     AddRows.hasFunction := AddRows.hasFunction host;
     AddRows.react := fun a h =>
       match a with
       | AddRows.AProgress _ _ =>
           {| AddRows.r_host := h; AddRows.r_alerts := []; AddRows.r_threw := None |}
       | _ => AddRows.react host a h
       end;
     AddRows.tick := AddRows.tick host;
     AddRows.search := AddRows.search host |}.

(** [waitForDomStableLocal(rowsContainer, 5000, 200)]: every 50 ms until no
    mutation was seen for 200 ms, for 5 s at most.  The result is the page
    afterwards; what the page alerts meanwhile is its own affair. *)
Fixpoint stableLocalLoop (fuel : nat) (quiet : Z) (h : H) : H :=
  match fuel with
  | O => h
  | S f =>
      let t := AddRows.tick host 50 h in
      let quiet := if AddRows.t_mutated t then 0%Z else (quiet + 50)%Z in
      if (200 <=? quiet)%Z then AddRows.t_host t
      else stableLocalLoop f quiet (AddRows.t_host t)
  end.

Definition waitForDomStableLocal (h : H) : H := stableLocalLoop 100 0 h.

(** The loop that compresses the files, from file [i] on: the compressed
    files, the previews and the calls to the overlay. *)
Fixpoint compressFiles (total : Z) (fs : list UFile) (i : Z) (metas : list (Z * (jstr * jstr)))
  : list File * list (Z * (jstr * jstr)) * list Event :=
  match fs with
  | [] => ([], metas, [])
  | orig :: rest =>
      let cf := fst (compressImage decode encode (file orig) targetKB) in
      let metas :=
        match tnoId orig with
        | Some id =>
            if (id =? 0)%Z then metas
            else match find (fun kv => (fst kv =? id)%Z) metas with
                 | Some (_, (baseName, _)) =>
                     let baseName := match baseName with
                                     | [] => displayName cf
                                     | b => b
                                     end in
                     map_set id (baseName, metaText baseName (sizeKb cf)) metas
                 | None => metas
                 end
        | None => metas
        end in
      let '(cfs, metas', evs) := compressFiles total rest (i + 1)%Z metas in
      (cf :: cfs, metas',
       EUpdate (compressingText i total) (compressPercent i total) false :: evs)
  end.

(** The result of a click on the submit button. *)
Record Result : Type := {
  ui : Ui;
  network : Net;
  requests : list Extract.Event;     (* what [getOcrResults] did *)
  page : H;
  actions : list AddRows.Act         (* what [$addRows] did to the page *)
}.

Definition released (u : Ui) (metas : list (Z * (jstr * jstr))) (key : option jstr)
  (ks : KeyStore) (ds : list KeyEvent) (evs : list Event) : Ui :=
  {| uploads := {| uploadedFiles := []; TNO_FILE_UID := TNO_FILE_UID (uploads u);
                   previewMetaById := metas; cards := [];
                   alerts := alerts (uploads u) |};
     keys := ks; geminiApiKey := key;
     processing := Some (js "0"); disabled := false; inputValue := [];
     dialogs := dialogs u ++ ds; events := events u ++ evs |}.

(** The click handler of [#ai-ocr-submit], run to its end with no other
    handler of the page in between. *)
Definition submit (u : Ui) (n : Net) (h : H) : Result :=
  match uploadedFiles (uploads u) with
  | [] =>
      {| ui := {| uploads := {| uploadedFiles := uploadedFiles (uploads u);
                                TNO_FILE_UID := TNO_FILE_UID (uploads u);
                                previewMetaById := previewMetaById (uploads u);
                                cards := cards (uploads u);
                                alerts := alerts (uploads u)
                                            ++ [js "Please upload at least one image."] |};
                  keys := keys u; geminiApiKey := geminiApiKey u;
                  processing := processing u; disabled := disabled u;
                  inputValue := inputValue u; dialogs := dialogs u; events := events u |};
         network := n; requests := []; page := h; actions := [] |}
  | _ =>
      let '(key, ks, ds) := resolveGeminiApiKey answer (keys u) in
      let stopped :=
        {| ui := {| uploads := uploads u; keys := ks; geminiApiKey := key;
                    processing := processing u; disabled := disabled u;
                    inputValue := inputValue u; dialogs := dialogs u ++ ds;
                    events := events u |};
           network := n; requests := []; page := h; actions := [] |} in
      match key with
      | None | Some [] => stopped
      | Some (_ :: _) =>
          if match processing u with
             | Some p => jstr_eqb p (js "1")
             | None => false
             end
          then stopped
          else
            let total := Z.of_nat (length (uploadedFiles (uploads u))) in
            let '(compressedFiles, metas, compressing) :=
              compressFiles total (uploadedFiles (uploads u)) 0
                (previewMetaById (uploads u)) in
            let '(ocrResults, st) :=
              Extract.getOcrResults P fetch sc compressedFiles transactionType
                {| Extract.net := n; Extract.trace := [] |} in
            let before :=
              [EOpen (js "Preparing images...") 0 active] ++ compressing
                ++ [EUpdate (js "Sending to AI for processing...") (Some 30%Z) false]
                ++ sendingEvents (Extract.trace st) in
            match ocrResults with
            | [] =>
                {| ui := released u metas key ks ds
                           (before
                              ++ [EUpdate (js "No data extracted from images.") (Some 100%Z)
                                    false;
                                  EState (js "empty"); ESetDone CloseAndHideModal]);
                   network := Extract.net st; requests := Extract.trace st;
                   page := h; actions := [] |}
            | _ =>
                let '(outcome, st') :=
                  AddRows.addRows P cfg withRowProgress sc ocrResults true transactionType h in
                let adding :=
                  before ++ [EUpdate (js "Adding rows...") (Some 70%Z) false]
                    ++ progressEvents (AddRows.log st') in
                match outcome with
                | AddRows.Resolved _ =>
                    {| ui := released u metas key ks ds
                               (adding
                                  ++ [EUpdate (js "Completed") (Some 100%Z) false;
                                      EState (js "complete"); ESetDone CloseAndHideModal]);
                       network := Extract.net st; requests := Extract.trace st;
                       page := waitForDomStableLocal (AddRows.page st');
                       actions := AddRows.log st' |}
                | AddRows.Rejected error =>
                    {| ui := released u metas key ks ds
                               (adding
                                  ++ [EUpdate (js "Error: " ++ AddRows.message error)
                                        (Some 100%Z) true;
                                      EState (js "error")]);
                       network := Extract.net st; requests := Extract.trace st;
                       page := AddRows.page st'; actions := AddRows.log st' |}
                end
            end
      end
  end.

End Pipeline.

End Submit.

(* ====================================================================== *)
(** * Part II. Properties                                                   *)
(* ====================================================================== *)

(** ** Objects as association lists *)

Module ObjFacts.
Import Js Schema.

Lemma eqb_neq_false (a b : string) : a <> b -> String.eqb a b = false.
Proof. intro Hn; destruct (String.eqb_spec a b); congruence. Qed.

Lemma lookup_obj_set_eq {V} (k : string) (v : V) (o : list (string * V)) :
  lookup k (obj_set k v o) = Some v.
Proof.
  induction o as [|[k' v'] o IH]; simpl.
  - now rewrite String.eqb_refl.
  - destruct (String.eqb k k') eqn:E; simpl.
    + now rewrite String.eqb_refl.
    + now rewrite E.
Qed.

Lemma lookup_obj_set_ne {V} (k k' : string) (v : V) (o : list (string * V)) :
  k <> k' -> lookup k (obj_set k' v o) = lookup k o.
Proof.
  intro Hn; induction o as [|[k0 v0] o IH]; simpl.
  - now rewrite eqb_neq_false.
  - destruct (String.eqb k' k0) eqn:E; simpl.
    + apply String.eqb_eq in E; subst k0. now rewrite eqb_neq_false.
    + destruct (String.eqb k k0); auto.
Qed.

Lemma mem_In (k : string) (l : list string) : mem k l = true <-> In k l.
Proof.
  unfold mem; rewrite existsb_exists; split.
  - intros [x [Hx E]]; apply String.eqb_eq in E; now subst.
  - intro Hx; exists k; split; auto; apply String.eqb_refl.
Qed.

Lemma mem_not_In (k : string) (l : list string) : mem k l = false <-> ~ In k l.
Proof.
  rewrite <- mem_In; destruct (mem k l); split; congruence.
Qed.

(** A loop that assigns [f k] to every key [k] of a list. *)
Lemma lookup_fold_set {V} (f : string -> V) (l : list string) :
  forall (o : list (string * V)) (k : string),
    lookup k (fold_left (fun o k => obj_set k (f k) o) l o)
    = if mem k l then Some (f k) else lookup k o.
Proof.
  induction l as [|a l IH]; intros o k; simpl; auto.
  rewrite IH. destruct (String.eqb_spec k a) as [->|Hn]; simpl.
  - destruct (mem a l); auto using lookup_obj_set_eq.
  - destruct (mem k l); auto using lookup_obj_set_ne.
Qed.

Lemma in_keys_filter {V} (p : string * V -> bool) (l : list (string * V)) (k : string) :
  In k (keys (filter p l)) -> exists d, In (k, d) l /\ p (k, d) = true.
Proof.
  unfold keys; rewrite in_map_iff; intros [[k' d] [E Hin]]; simpl in E; subst k'.
  apply filter_In in Hin; eauto.
Qed.

Lemma nodup_keys_functional {V} {l : list (string * V)} {k : string} {d d' : V} :
  NoDup (keys l) -> In (k, d) l -> In (k, d') l -> d = d'.
Proof.
  unfold keys; induction l as [|[k0 d0] l IH]; simpl; intros Hnd H1 H2; [tauto|].
  inversion Hnd as [|? ? Hnotin Hnd']; subst.
  destruct H1 as [E1|H1], H2 as [E2|H2].
  - congruence.
  - inversion E1; subst. exfalso; apply Hnotin.
    change k with (fst (k, d')); now apply in_map.
  - inversion E2; subst. exfalso; apply Hnotin.
    change k with (fst (k, d)); now apply in_map.
  - auto.
Qed.

End ObjFacts.

(** ** Normalisation is total over the active fields *)

Module NormalizeFacts.
Import Js Schema Ocr ObjFacts.

(** The registry has one definition per field id, as every object has. *)
Definition schema_wf (sc : option Schema) : Prop :=
  match sc with
  | Some s => match fields s with
              | Some fs => NoDup (keys fs)
              | None => True
              end
  | None => True
  end.

Definition date_parts : list string := ["rqt_day"; "rqt_mth"; "rqt_yr"]%string.

(** The three date parts, where they are fields at all, are string fields. *)
Definition dates_are_strings (spec : FieldSpec) : Prop :=
  forall k, In k date_parts -> ~ In k (fs_number spec) /\ ~ In k (fs_boolean spec).

(** No field id is listed under two types. *)
Definition spec_disjoint (spec : FieldSpec) : Prop :=
  forall k,
    (In k (fs_string spec) -> ~ In k (fs_number spec) /\ ~ In k (fs_boolean spec))
    /\ (In k (fs_number spec) -> ~ In k (fs_boolean spec)).

(** The array [normalizeAndValidate] maps over. *)
Definition items_array (items : JsValue) : list JsValue :=
  match items with
  | VArr l => l
  | _ => if truthy items then [items] else []
  end.

(** What a normalised record owes to the raw item it was made from. *)
Definition total_over (P : Platform) (spec : FieldSpec) (raw : JsValue) (out : Item) : Prop :=
  (forall k, In k (fs_string spec) ->
     exists s, lookup k out = Some (VStr s)
               /\ (nullish (js_get raw k) = true -> s = []))
  /\ (forall k, In k (fs_number spec) ->
        exists v, lookup k out = Some v
                  /\ v = normalizeNumber P (js_get raw k)
                  /\ (nullish (js_get raw k) = true -> v = VNull))
  /\ (forall k, In k (fs_boolean spec) ->
        exists b, lookup k out = Some (VBool b)
                  /\ (nullish (js_get raw k) = true -> b = false)).

Lemma nodup_keys_filter {V} (p : string * V -> bool) (l : list (string * V)) :
  NoDup (keys l) -> NoDup (keys (filter p l)).
Proof.
  unfold keys. induction l as [|[k0 d0] l IH]; simpl; intro Hnd; [constructor|].
  inversion Hnd as [|? ? Hn Hnd']; subst.
  destruct (p (k0, d0)); simpl; auto.
  constructor; auto. intro Hin; apply Hn.
  apply in_map_iff in Hin as [x [E Hx]]. apply filter_In in Hx as [Hx _].
  rewrite <- E. now apply in_map.
Qed.

Lemma disjoint_by_mem (l1 l2 : list string) (k : string) :
  forallb (fun x => negb (mem x l2)) l1 = true -> In k l1 -> ~ In k l2.
Proof.
  rewrite forallb_forall. intros Hall Hin Hin2. specialize (Hall k Hin).
  apply mem_In in Hin2. rewrite Hin2 in Hall. discriminate.
Qed.

Lemma legacySpec_disjoint : spec_disjoint legacySpec.
Proof.
  intro k; split; [intro Hin; split | intro Hin];
    (eapply disjoint_by_mem; [|exact Hin]); reflexivity.
Qed.

Lemma getFieldSpec_disjoint (sc : option Schema) (txn : string) :
  schema_wf sc -> spec_disjoint (getFieldSpec sc txn).
Proof.
  intros Hwf. unfold getFieldSpec.
  destruct sc as [s|]; [|apply legacySpec_disjoint].
  simpl in Hwf. destruct (fields s) as [fs|]; [|apply legacySpec_disjoint].
  intro k.
  set (act := filter _ fs).
  assert (Hact : NoDup (keys act)).
  { unfold act. now apply nodup_keys_filter. }
  simpl. split.
  - intro Hs. apply in_keys_filter in Hs as [d [Hd Hp]].
    split; intro Hq; apply in_keys_filter in Hq as [d' [Hd' Hp']];
      rewrite (nodup_keys_functional Hact Hd Hd') in Hp; simpl in *;
      destruct (type_is "number" d'), (type_is "boolean" d'); discriminate.
  - intro Hs. apply in_keys_filter in Hs as [d [Hd Hp]].
    intro Hq; apply in_keys_filter in Hq as [d' [Hd' Hp']];
      rewrite (nodup_keys_functional Hact Hd Hd') in Hp; simpl in *;
      destruct (type_is "number" d'), (type_is "boolean" d'); discriminate.
Qed.

Lemma lookup_padDatePart_other (P : Platform) (k k' : string) (n : nat) (out : Item) :
  k <> k' -> lookup k (padDatePart P k' n out) = lookup k out.
Proof.
  intro Hn. unfold padDatePart. destruct (lookup k' out); auto using lookup_obj_set_ne.
Qed.

Lemma lookup_padDatePart_str (P : Platform) {k : string} (k' : string) (n : nat)
  {out : Item} {s : jstr} :
  lookup k out = Some (VStr s) ->
  exists s', lookup k (padDatePart P k' n out) = Some (VStr s') /\ (s = [] -> s' = []).
Proof.
  intro Hk. destruct (string_dec k k') as [<-|Hn].
  - unfold padDatePart. rewrite Hk, lookup_obj_set_eq. eexists; split; eauto.
    intros ->; reflexivity.
  - rewrite lookup_padDatePart_other by assumption. eauto.
Qed.

Lemma normString_nullish (P : Platform) (raw : JsValue) (k : string) :
  nullish (js_get raw k) = true -> normString P raw k = VStr [].
Proof.
  unfold normString, opt_get. intros ->. reflexivity.
Qed.

Lemma normString_is_string (P : Platform) (raw : JsValue) (k : string) :
  exists s, normString P raw k = VStr s.
Proof. unfold normString; eauto. Qed.

Lemma coerceBoolean_nullish (P : Platform) (v : JsValue) :
  nullish v = true -> coerceBoolean P v = false.
Proof. destruct v; simpl; congruence. Qed.

Lemma normalizeNumber_nullish (P : Platform) (v : JsValue) :
  nullish v = true -> normalizeNumber P v = VNull.
Proof. unfold normalizeNumber; intros ->; reflexivity. Qed.

Lemma not_date_part (k : string) : ~ In k date_parts ->
  k <> "rqt_day"%string /\ k <> "rqt_mth"%string /\ k <> "rqt_yr"%string.
Proof. unfold date_parts; simpl; intuition. Qed.

(** One record: every active field is there, with the default of its type
    where the raw item has nothing. *)
Lemma normalizeItem_total (P : Platform) (spec : FieldSpec) (raw : JsValue) :
  spec_disjoint spec -> dates_are_strings spec ->
  total_over P spec raw (normalizeItem P spec raw).
Proof.
  intros Hdis Hdates. unfold total_over, normalizeItem.
  set (o1 := fold_left _ (fs_string spec) []).
  set (o2 := fold_left _ (fs_number spec) o1).
  set (o3 := fold_left _ (fs_boolean spec) o2).
  assert (L3 : forall k, lookup k o3
                 = if mem k (fs_boolean spec) then Some (VBool (coerceBoolean P (opt_get raw k)))
                   else if mem k (fs_number spec) then Some (normalizeNumber P (opt_get raw k))
                   else if mem k (fs_string spec) then Some (normString P raw k)
                   else None).
  { intro k. unfold o3, o2, o1.
    rewrite (lookup_fold_set (fun k => VBool (coerceBoolean P (opt_get raw k)))).
    rewrite (lookup_fold_set (fun k => normalizeNumber P (opt_get raw k))).
    rewrite (lookup_fold_set (fun k => normString P raw k)). reflexivity. }
  repeat split.
  - intros k Hs. destruct (Hdis k) as [Hd _]. destruct (Hd Hs) as [Hn Hb].
    apply mem_not_In in Hn, Hb. apply mem_In in Hs.
    assert (E : lookup k o3 = Some (normString P raw k)) by (now rewrite L3, Hb, Hn, Hs).
    destruct (normString_is_string P raw k) as [s Es]. rewrite Es in E.
    destruct (lookup_padDatePart_str P "rqt_day" 2 E) as [s1 [E1 N1]].
    destruct (lookup_padDatePart_str P "rqt_mth" 2 E1) as [s2 [E2 N2]].
    destruct (lookup_padDatePart_str P "rqt_yr" 4 E2) as [s3 [E3 N3]].
    exists s3; split; auto. intro Hnull. rewrite normString_nullish in Es by assumption.
    inversion Es; auto.
  - intros k Hn. destruct (Hdis k) as [_ Hd]. pose proof (Hd Hn) as Hb.
    assert (Hnd : ~ In k date_parts) by (intro Hk; destruct (Hdates k Hk); tauto).
    apply not_date_part in Hnd as [D1 [D2 D3]].
    apply mem_not_In in Hb. apply mem_In in Hn.
    rewrite !lookup_padDatePart_other by assumption. rewrite L3, Hb, Hn.
    eexists; repeat split; eauto. apply normalizeNumber_nullish.
  - intros k Hb.
    assert (Hnd : ~ In k date_parts) by (intro Hk; destruct (Hdates k Hk); tauto).
    apply not_date_part in Hnd as [D1 [D2 D3]].
    apply mem_In in Hb.
    rewrite !lookup_padDatePart_other by assumption. rewrite L3, Hb.
    eexists; repeat split; eauto. apply coerceBoolean_nullish.
Qed.


(** The shipped registry and the legacy list both meet the side conditions. *)
Lemma shipped_schema_wf : schema_wf (Some TNO_SCHEMA) /\ schema_wf None.
Proof.
  split; simpl; auto.
  repeat (constructor; [ simpl; intuition discriminate |]). constructor.
Qed.

Lemma shipped_dates_are_strings (transactionType : string) :
  dates_are_strings (getFieldSpec (Some TNO_SCHEMA) transactionType)
  /\ dates_are_strings (getFieldSpec None transactionType).
Proof.
  assert (E : getFieldSpec (Some TNO_SCHEMA) transactionType
              = getFieldSpec (Some TNO_SCHEMA) "default").
  { unfold getFieldSpec, getAllowedKeysFromSchema; simpl.
    destruct (String.eqb transactionType "default"); reflexivity. }
  rewrite E. split; intros k Hk; simpl in Hk;
    repeat (destruct Hk as [<-|Hk]; [ vm_compute; intuition discriminate |]); tauto.
Qed.

(** The same on the shipped registry, for any transaction type and any input. *)
Corollary normalizeAndValidate_total_shipped (P : Platform) (transactionType : string)
  (items : JsValue) :
  Forall2 (total_over P (getFieldSpec (Some TNO_SCHEMA) transactionType))
    (items_array items) (normalizeAndValidate P (Some TNO_SCHEMA) items transactionType).
Proof.
  unfold normalizeAndValidate. fold (items_array items).
  induction (items_array items) as [|raw arr IH]; cbn [map]; constructor; auto.
  apply normalizeItem_total.
  - apply getFieldSpec_disjoint. apply shipped_schema_wf.
  - apply shipped_dates_are_strings.
Qed.


End NormalizeFacts.

(** ** Sanitisation: runs of one character *)

Module SanitizeFacts.
Import Js Schema Ocr.

(** Number of copies of [c] at the head of [l]. *)
Definition lead (c : N) (l : jstr) : nat := length (takeWhile (N.eqb c) l).

Lemma head_run_cons (c : N) (r : jstr) : head_run (c :: r) = S (lead c r).
Proof. unfold head_run, lead; simpl. now rewrite N.eqb_refl. Qed.

Lemma lead_cons (c x : N) (r : jstr) :
  lead c (x :: r) = if N.eqb c x then S (lead c r) else 0%nat.
Proof. unfold lead; simpl. now destruct (N.eqb c x). Qed.

(** One step of the scan for [/(.)\1{4,}/g]. *)
Lemma gsub_repeat_cons (c : N) (r : jstr) :
  gsub m_repeat_run 0 (c :: r)
  = if negb (is_line_terminator c) && (5 <=? S (lead c r))%nat
    then [c; c; c] ++ gsub m_repeat_run (lead c r) r
    else c :: gsub m_repeat_run 0 r.
Proof.
  cbn [gsub m_repeat_run]. rewrite head_run_cons.
  now destruct (negb (is_line_terminator c) && (5 <=? S (lead c r))%nat).
Qed.

Lemma gsub_skip (m : jstr -> option (nat * jstr)) (s : jstr) :
  forall k, gsub m k s = gsub m 0 (skipn k s).
Proof.
  induction s as [|x s IH]; intros [|k]; simpl; auto.
Qed.

Lemma skipn_lead (c : N) (r : jstr) : skipn (lead c r) r = dropWhile (N.eqb c) r.
Proof.
  unfold lead; induction r as [|x r IH]; simpl; auto.
  destruct (N.eqb c x); simpl; auto.
Qed.

Lemma length_dropWhile {A} (p : A -> bool) (l : list A) :
  (length (dropWhile p l) <= length l)%nat.
Proof. induction l as [|x l IH]; simpl; auto. destruct (p x); simpl; lia. Qed.

Lemma lead_dropWhile (c : N) (r : jstr) : lead c (dropWhile (N.eqb c) r) = 0%nat.
Proof.
  unfold lead; induction r as [|x r IH]; simpl; auto.
  destruct (N.eqb c x) eqn:E; simpl; auto. now rewrite E.
Qed.

(** The scan keeps the first character of its input. *)
Lemma lead_gsub_zero (c : N) (s : jstr) :
  lead c s = 0%nat -> lead c (replaceAll m_repeat_run s) = 0%nat.
Proof.
  unfold replaceAll. destruct s as [|x r]; [reflexivity|].
  rewrite lead_cons, gsub_repeat_cons. destruct (N.eqb c x) eqn:E; [discriminate|].
  intros _.
  destruct (negb (is_line_terminator x) && (5 <=? S (lead x r))%nat);
    cbn [app]; now rewrite lead_cons, E.
Qed.

(** A short run at the head goes through the scan unchanged. *)
Lemma lead_gsub_short (c : N) (s : jstr) :
  (lead c s < 4)%nat -> lead c (replaceAll m_repeat_run s) = lead c s.
Proof.
  unfold replaceAll. induction s as [|x r IH]; [reflexivity|].
  rewrite lead_cons, gsub_repeat_cons. destruct (N.eqb c x) eqn:E.
  - apply N.eqb_eq in E; subst x. intro Hlt.
    replace (5 <=? S (lead c r))%nat with false by (symmetry; apply Nat.leb_gt; lia).
    rewrite andb_false_r, lead_cons, N.eqb_refl, IH by lia. reflexivity.
  - intros _.
    destruct (negb (is_line_terminator x) && (5 <=? S (lead x r))%nat);
      cbn [app]; now rewrite lead_cons, E.
Qed.

Lemma has_run_cons (n : nat) (c : N) (r : jstr) :
  has_run n (c :: r)
  = (negb (is_line_terminator c) && (n <=? S (lead c r))%nat) || has_run n r.
Proof. cbn [has_run]. now rewrite head_run_cons. Qed.

(** After the replacement of [/(.)\1{4,}/g] no character other than a line
    terminator is left repeated five times in a row. *)
Lemma collapse_bounds_runs (bound : nat) :
  forall s, (length s <= bound)%nat -> has_run 5 (replaceAll m_repeat_run s) = false.
Proof.
  unfold replaceAll.
  induction bound as [|bound IH]; intros s Hlen.
  - destruct s; [reflexivity | simpl in Hlen; lia].
  - destruct s as [|c r]; [reflexivity|]. simpl in Hlen.
    rewrite gsub_repeat_cons.
    destruct (negb (is_line_terminator c) && (5 <=? S (lead c r))%nat) eqn:E.
    + (* the run is replaced by three copies *)
      rewrite gsub_skip, skipn_lead.
      assert (Hrest : has_run 5 (gsub m_repeat_run 0 (dropWhile (N.eqb c) r)) = false).
      { apply IH. pose proof (length_dropWhile (N.eqb c) r). lia. }
      assert (Hz : lead c (gsub m_repeat_run 0 (dropWhile (N.eqb c) r)) = 0%nat).
      { apply lead_gsub_zero, lead_dropWhile. }
      cbn [app]. rewrite !has_run_cons, !lead_cons, !N.eqb_refl, Hz, Hrest.
      cbn. now rewrite !andb_false_r.
    + rewrite has_run_cons. rewrite (IH r) by lia. rewrite orb_false_r.
      destruct (is_line_terminator c); [reflexivity|]. cbn [negb andb] in *.
      apply Nat.leb_gt in E.
      fold (replaceAll m_repeat_run r). rewrite lead_gsub_short by lia.
      apply Nat.leb_gt. lia.
Qed.

Lemma has_run_mono (n m : nat) (s : jstr) :
  (n <= m)%nat -> has_run n s = false -> has_run m s = false.
Proof.
  intro Hle. induction s as [|c r IH]; auto.
  rewrite !has_run_cons. intro Hn. apply orb_false_elim in Hn as [H1 H2].
  rewrite (IH H2), orb_false_r.
  destruct (is_line_terminator c); simpl in *; auto.
  apply Nat.leb_gt in H1. apply Nat.leb_gt. lia.
Qed.

(** The first test of [isNoiseString], ten or more identical characters in
    a row, cannot succeed on the string [cleanAndClampString] hands it. *)
Lemma run_test_after_collapse (s : jstr) :
  has_run 10 (replaceAll m_repeat_run s) = false.
Proof.
  apply (@has_run_mono 5); [lia|]. now apply (@collapse_bounds_runs (length s)).
Qed.

(** A character that the first steps of [cleanAndClampString] leave alone. *)
Definition ordinary (c : N) : bool :=
  negb (is_ws c) && negb (is_zero_width c) && negb (is_line_terminator c).

Lemma filter_repeat_all {A} (p : A -> bool) (c : A) (n : nat) :
  p c = true -> filter p (repeat c n) = repeat c n.
Proof. intro Hp; induction n; simpl; auto. now rewrite Hp, IHn. Qed.

Lemma collapse_ws_no_ws (s : jstr) :
  forallb (fun c => negb (is_ws c)) s = true -> collapse_ws s = s.
Proof.
  unfold collapse_ws, replaceAll. induction s as [|c r IH]; [reflexivity|].
  cbn [forallb]. intro Hall. apply andb_prop in Hall as [Hc Hr].
  apply negb_true_iff in Hc.
  assert (E : m_ws_run (c :: r) = None) by (unfold m_ws_run; cbn; now rewrite Hc).
  cbn [gsub]. rewrite E. now rewrite IH.
Qed.

Lemma dropWhile_head_false {A} (p : A -> bool) (c : A) (r : list A) :
  p c = false -> dropWhile p (c :: r) = c :: r.
Proof. intro Hp; simpl; now rewrite Hp. Qed.

Lemma trim_repeat (c : N) (n : nat) : is_ws c = false -> trim (repeat c n) = repeat c n.
Proof.
  intro Hc. unfold trim, trimEnd, trimStart.
  assert (E : dropWhile is_ws (repeat c n) = repeat c n)
    by (destruct n; cbn; [reflexivity | now rewrite Hc]).
  now rewrite E, rev_repeat, E, rev_repeat.
Qed.

Lemma lead_repeat (c : N) (n : nat) : lead c (repeat c n) = n.
Proof. unfold lead; induction n; simpl; auto. now rewrite N.eqb_refl; simpl; rewrite IHn. Qed.

Lemma collapse_repeat (c : N) (n : nat) :
  is_line_terminator c = false -> (5 <= n)%nat ->
  replaceAll m_repeat_run (repeat c n) = [c; c; c].
Proof.
  intros Hc Hn. destruct n as [|n]; [lia|].
  unfold replaceAll. cbn [repeat]. rewrite gsub_repeat_cons, lead_repeat, Hc.
  replace (5 <=? S n)%nat with true by (symmetry; apply Nat.leb_le; lia). cbn [negb andb].
  rewrite gsub_skip. rewrite <- (repeat_length c n) at 1. now rewrite skipn_all.
Qed.

(** C4 (what the code does).  A value made of five or more copies of one
    ordinary character, so in particular of ten or twelve, is sanitised to
    three copies of that character and not to the empty string. *)
Theorem cleanAndClampString_repeated_char (P : Platform) (c : N) (n : nat) :
  ordinary c = true -> (5 <= n)%nat ->
  cleanAndClampString P (VStr (repeat c n)) None = [c; c; c].
Proof.
  unfold ordinary. intros Hc Hn.
  apply andb_prop in Hc as [Hc Hlt]. apply andb_prop in Hc as [Hws Hzw].
  apply negb_true_iff in Hws, Hlt.
  unfold cleanAndClampString. simpl toStr.
  rewrite filter_repeat_all by assumption.
  rewrite collapse_ws_no_ws.
  2:{ clear -Hws. induction n; simpl; auto. now rewrite Hws. }
  rewrite trim_repeat by assumption.
  rewrite collapse_repeat by assumption.
  unfold isNoiseString. simpl. reflexivity.
Qed.

(** The two inputs the specification names. *)
Lemma cleanAndClampString_twelve_z (P : Platform) :
  cleanAndClampString P (VStr (js "zzzzzzzzzzzz")) None = js "zzz"
  /\ cleanAndClampString P (VStr (js "aaaaaaaaaaaaaaaaabcd")) None = js "aaabcd".
Proof. split; vm_compute; reflexivity. Qed.

Lemma cleanAndClampString_repeated_char_witness :
  ordinary 122 = true /\ (5 <= 12)%nat
  /\ cleanAndClampString Demo.platform (VStr (repeat 122%N 12)) None = js "zzz".
Proof.
  split; [reflexivity|]. split; [lia|].
  apply (@cleanAndClampString_repeated_char Demo.platform 122%N 12%nat); [reflexivity | lia].
Defined.

(** The second test still applies: a long string that stays long after the
    runs are cut and in which one character makes up four fifths. *)
Example cleanAndClampString_mostly_one_char (P : Platform) :
  cleanAndClampString P (VStr (js "aaaabaaaabaaaabaaaab")) None = [].
Proof. vm_compute; reflexivity. Qed.

Example cleanAndClampString_varied (P : Platform) :
  cleanAndClampString P (VStr (js "  Hex bolt  M8x40  ")) None = js "Hex bolt M8x40".
Proof. vm_compute; reflexivity. Qed.

End SanitizeFacts.

(** ** Compression: the settings tried and the file returned *)

Module CompressFacts.
Import Js Num Compress.

(** The (scale, quality) pairs of successive iterations that all miss the
    target. *)
Fixpoint schedule (iters : nat) (scale quality : float) : list (float * float) :=
  match iters with
  | O => []
  | S n =>
      (scale, quality)
        :: match adjust scale quality with
           | Some (scale', quality') => schedule n scale' quality'
           | None => []
           end
  end.

Definition settings (b : Blob) : Z * Z * float := (b_width b, b_height b, b_quality b).

Definition drawn (w h : Z) (sq : float * float) : Z * Z * float :=
  (canvas_dim w (fst sq), canvas_dim h (fst sq), snd sq).

(** Fifteen iterations are allowed, fourteen happen: quality goes from 0.9
    to 0.25 in eight steps, then the scale is multiplied by 0.85 six times
    and ends at 0.377. *)
Lemma schedule_from_start :
  schedule 15 1.0 0.9
  = [ (1.0, 0.9); (1.0, 0.8); (1.0, 0.7); (1.0, 0.6); (1.0, 0.5); (1.0, 0.4); (1.0, 0.3);
      (1.0, 0.25); (0.85, 0.25); (0.722, 0.25); (0.614, 0.25); (0.522, 0.25);
      (0.444, 0.25); (0.377, 0.25) ]%float.
Proof. vm_compute. reflexivity. Qed.

Section Canvas.
Variable decode : File -> option (Z * Z).
Variable encode : File -> Z -> Z -> float -> option Z.

(** The encoder always answers and never meets the target. *)
Definition never_fits (file : File) (target : float) : Prop :=
  forall cw ch q, exists sz,
    encode file cw ch q = Some sz /\ PrimFloat.leb (of_Z sz) target = false.

Lemma compressLoop_settings (file : File) (target : float) (w h : Z) :
  never_fits file target ->
  forall iters scale quality best,
    map settings (snd (compressLoop encode file target w h iters scale quality best))
    = map (drawn w h) (schedule iters scale quality).
Proof.
  intros Hnf. induction iters as [|n IH]; intros scale quality best; [reflexivity|].
  cbn [compressLoop schedule].
  destruct (Hnf (canvas_dim w scale) (canvas_dim h scale) quality) as [sz [Henc Hfit]].
  rewrite Henc, Hfit.
  destruct (adjust scale quality) as [[s' q']|].
  - specialize (IH s' q'
      (match best with
       | Some b => if (sz <? b_size b)%Z
                   then Some {| b_size := sz; b_width := canvas_dim w scale;
                                b_height := canvas_dim h scale; b_quality := quality |}
                   else Some b
       | None => Some {| b_size := sz; b_width := canvas_dim w scale;
                         b_height := canvas_dim h scale; b_quality := quality |}
       end)).
    destruct (compressLoop encode file target w h n s' q' _) as [r tr].
    cbn [snd map] in *. now rewrite IH.
  - reflexivity.
Qed.

(** When no iteration meets the target, the blob kept is one of those
    encoded and no encoded blob is smaller. *)
Lemma compressLoop_keeps_smallest (file : File) (target : float) (w h : Z) :
  forall iters scale quality best r tr,
    compressLoop encode file target w h iters scale quality best = (Some r, tr) ->
    (forall b, In b tr -> PrimFloat.leb (of_Z (b_size b)) target = false) ->
    match r with
    | Some rb =>
        (In rb tr \/ best = Some rb)
        /\ (forall b, In b tr -> (b_size rb <= b_size b)%Z)
        /\ (forall b0, best = Some b0 -> (b_size rb <= b_size b0)%Z)
    | None => best = None /\ tr = []
    end.
Proof.
  induction iters as [|n IH]; intros scale quality best r tr Hrun Hmiss.
  - cbn in Hrun. injection Hrun as <- <-. destruct best as [b|]; auto.
    repeat split; auto; [intros ? [] | intros b0 E; inversion E; lia].
  - cbn [compressLoop] in Hrun.
    destruct (encode file (canvas_dim w scale) (canvas_dim h scale) quality) as [sz|];
      [|discriminate].
    set (blob := {| b_size := sz; b_width := canvas_dim w scale;
                    b_height := canvas_dim h scale; b_quality := quality |}) in *.
    set (best' := match best with
                  | Some b => if (sz <? b_size b)%Z then Some blob else Some b
                  | None => Some blob
                  end) in *.
    destruct (PrimFloat.leb (of_Z sz) target) eqn:Hfit.
    { injection Hrun as <- <-. pose proof (Hmiss blob (or_introl eq_refl)) as Hm.
      cbn in Hm. congruence. }
    assert (Hbest' : exists b', best' = Some b' /\ (b_size b' <= sz)%Z
                                /\ (forall b0, best = Some b0 -> (b_size b' <= b_size b0)%Z)
                                /\ (b' = blob \/ best = Some b')).
    { unfold best'. destruct best as [b|].
      - destruct (Z.ltb_spec sz (b_size b)).
        + exists blob; repeat split; auto; try (cbn; lia).
          intros b0 E; inversion E; subst; cbn; lia.
        + exists b; repeat split; auto. intros b0 E; inversion E; subst; lia.
      - exists blob; repeat split; auto; try (cbn; lia). intros b0 E; discriminate. }
    destruct Hbest' as [b' [Eb' [Hsz [Hold Hwho]]]].
    destruct (adjust scale quality) as [[s' q']|].
    + destruct (compressLoop encode file target w h n s' q' best') as [r' tr'] eqn:Hrec.
      inversion Hrun; subst r' tr.
      specialize (IH s' q' best' r tr' Hrec
                    (fun b Hb => Hmiss b (or_intror Hb))).
      destruct r as [rb|]; [|destruct IH as [E _]; congruence].
      destruct IH as [Hin [Hmin Hle]]. specialize (Hle b' Eb').
      repeat split.
      * destruct Hin as [Hin|E]; [left; now right|].
        rewrite Eb' in E; inversion E; subst rb.
        destruct Hwho as [->|Hb]; [left; now left | now right].
      * intros b [<-|Hb]; [cbn; lia | auto].
      * intros b0 E0. specialize (Hold b0 E0). lia.
    + inversion Hrun; subst r tr. rewrite Eb'.
      repeat split.
      * destruct Hwho as [->|Hb]; [left; now left | now right].
      * intros b [<-|[]]. cbn; lia.
      * auto.
Qed.

(** C3 (what the code does).  For a picture that the encoder never brings
    under the target, [compressImage] encodes it fourteen times, with the
    settings of [schedule_from_start]; the last canvases are drawn at 0.444
    and 0.377 times the original size, the latter below the floor of 0.4. *)
Theorem compressImage_scale_below_floor (file : File) (targetKB : float) (w h : Z) :
  starts_with (js "image/") (mime file) = true ->
  decode file = Some (w, h) ->
  never_fits file (targetBytes targetKB) ->
  map settings (snd (compressImage decode encode file targetKB))
  = map (drawn w h) (schedule 15 1.0 0.9)
  /\ last (map settings (snd (compressImage decode encode file targetKB)))
          (0%Z, 0%Z, 0%float)
     = (canvas_dim w 0.377, canvas_dim h 0.377, 0.25%float).
Proof.
  intros Hmime Hdec Hnf.
  assert (E : map settings (snd (compressImage decode encode file targetKB))
              = map (drawn w h) (schedule 15 1.0 0.9)).
  { unfold compressImage. rewrite Hmime, Hdec. cbn [negb].
    rewrite <- (@compressLoop_settings file (targetBytes targetKB) w h Hnf 15 1.0 0.9 None).
    destruct (compressLoop encode file (targetBytes targetKB) w h 15 1 0.9 None)
      as [[[b|]|] tr]; reflexivity. }
  split; [exact E|]. rewrite E, schedule_from_start. reflexivity.
Qed.

(** With such an encoder no iteration fails and none meets the target. *)
Lemma compressLoop_never_fits (file : File) (target : float) (w h : Z) :
  never_fits file target ->
  forall iters scale quality best,
    (exists r, fst (compressLoop encode file target w h iters scale quality best) = Some r)
    /\ (forall b, In b (snd (compressLoop encode file target w h iters scale quality best)) ->
                  PrimFloat.leb (of_Z (b_size b)) target = false).
Proof.
  intro Hnf. induction iters as [|n IH]; intros scale quality best.
  - cbn. split; [eauto | intros ? []].
  - cbn [compressLoop].
    destruct (Hnf (canvas_dim w scale) (canvas_dim h scale) quality) as [sz [Henc Hfit]].
    rewrite Henc, Hfit.
    destruct (adjust scale quality) as [[s' q']|].
    + match goal with |- context [compressLoop encode file target w h n s' q' ?b'] =>
        destruct (IH s' q' b') as [[r Hr] Hm];
        destruct (compressLoop encode file target w h n s' q' b') as [r' tr'] end.
      cbn [fst snd] in *. split; [eauto|]. intros b [<-|Hb]; auto.
    + cbn [fst snd]. split; [eauto|]. intros b [<-|[]]; auto.
Qed.

(** The file returned when the target is never met has the smallest size
    that was encoded. *)
Lemma compressImage_smallest (file : File) (targetKB : float) (w h : Z) :
  starts_with (js "image/") (mime file) = true ->
  decode file = Some (w, h) ->
  never_fits file (targetBytes targetKB) ->
  forall b, In b (snd (compressImage decode encode file targetKB)) ->
            (size (fst (compressImage decode encode file targetKB)) <= b_size b)%Z.
Proof.
  intros Hmime Hdec Hnf b. unfold compressImage. rewrite Hmime, Hdec. cbn [negb].
  destruct (@compressLoop_never_fits file (targetBytes targetKB) w h Hnf 15 1.0 0.9 None)
    as [[r Hr] Hmiss].
  destruct (compressLoop encode file (targetBytes targetKB) w h 15 1 0.9 None)
    as [res tr] eqn:Hrun.
  cbn [fst snd] in Hr, Hmiss. subst res.
  pose proof (@compressLoop_keeps_smallest file (targetBytes targetKB) w h
                15 1.0 0.9 None r tr Hrun Hmiss) as Hk.
  destruct r as [rb|]; cbn [fst snd size].
  - destruct Hk as [_ [Hmin _]]. auto.
  - destruct Hk as [_ ->]. intros [].
Qed.

(** A picture that cannot be decoded, a file that is no picture, or an
    encoder failure at any iteration: the original file comes back. *)
Lemma compressImage_returns_original (file : File) (targetKB : float) :
  starts_with (js "image/") (mime file) = false
  \/ decode file = None
  \/ (exists w h, decode file = Some (w, h)
                  /\ fst (compressLoop encode file (targetBytes targetKB) w h 15 1.0 0.9 None)
                     = None) ->
  fst (compressImage decode encode file targetKB) = file.
Proof.
  unfold compressImage. intros [Hm|[Hd|[w [h [Hd Hl]]]]].
  - now rewrite Hm.
  - destruct (negb _); auto. now rewrite Hd.
  - destruct (negb _); auto. rewrite Hd.
    destruct (compressLoop _ _ _ _ _ _ _ _ _) as [[r|] tr]; [discriminate | reflexivity].
Qed.

End Canvas.

(** A picture of 1000 by 800 pixels whose encodings all weigh one byte per
    pixel, hence more than 100 KB even at the smallest size tried: the last
    canvas is 377 by 301, where 0.4 times the original is 400 by 320. *)
Definition bigPicture : File := {| name := js "scan.PNG"; mime := js "image/png"; size := 2400000 |}.

Example compressImage_big_picture :
  map settings
    (snd (compressImage (fun _ => Some (1000, 800)%Z) (fun _ cw ch _ => Some (cw * ch)%Z)
            bigPicture 100))
  = [ (1000%Z, 800%Z, 0.9%float);
      (1000%Z, 800%Z, 0.8%float);
      (1000%Z, 800%Z, 0.7%float);
      (1000%Z, 800%Z, 0.6%float);
      (1000%Z, 800%Z, 0.5%float);
      (1000%Z, 800%Z, 0.4%float);
      (1000%Z, 800%Z, 0.3%float);
      (1000%Z, 800%Z, 0.25%float);
      (850%Z, 680%Z, 0.25%float);
      (722%Z, 577%Z, 0.25%float);
      (614%Z, 491%Z, 0.25%float);
      (522%Z, 417%Z, 0.25%float);
      (444%Z, 355%Z, 0.25%float);
      (377%Z, 301%Z, 0.25%float) ]
  /\ fst (compressImage (fun _ => Some (1000, 800)%Z) (fun _ cw ch _ => Some (cw * ch)%Z)
            bigPicture 100)
     = {| name := js "scan.jpg"; mime := js "image/jpeg"; size := 377 * 301 |}.
Proof. split; vm_compute; reflexivity. Qed.

Lemma compressImage_scale_below_floor_witness :
  starts_with (js "image/") (mime bigPicture) = true
  /\ last (map settings
             (snd (compressImage (fun _ => Some (1000, 800)%Z)
                     (fun _ _ _ _ => Some 2400000%Z) bigPicture 100)))
          (0%Z, 0%Z, 0%float)
     = (377%Z, 301%Z, 0.25%float).
Proof.
  split; [reflexivity|].
  refine (eq_trans
            (proj2 (@compressImage_scale_below_floor
                      (fun _ => Some (1000, 800)%Z) (fun _ _ _ _ => Some 2400000%Z)
                      bigPicture 100 1000 800 eq_refl eq_refl _)) _).
  - intros cw ch q. exists 2400000%Z. split; reflexivity.
  - vm_compute. reflexivity.
Defined.

End CompressFacts.

(** ** Extraction: the retry policy *)

Module ExtractFacts.
Import Js Schema Ocr Extract.

(** The events of one image's attempt that received the responses [rs]: a
    request for each, and a pause of two seconds between two requests. *)
Fixpoint attemptEvents (i total : nat) (rs : list Response) : list Event :=
  match rs with
  | [] => []
  | r :: rest =>
      EvSending i total :: EvFetch i r
        :: match rest with
           | [] => []
           | _ => EvSleep 2000 :: attemptEvents i total rest
           end
  end.

(** The events of a batch, image after image. *)
Fixpoint batchEvents (total i : nat) (groups : list (list Response)) : list Event :=
  match groups with
  | [] => []
  | rs :: rest => attemptEvents i total rs ++ batchEvents total (S i) rest
  end.

(** The responses of one attempt: at most [retries] of them, each but the
    last an overload, and the last one no overload unless the retries are
    used up. *)
Definition valid_attempt (retries : nat) (rs : list Response) : Prop :=
  (1 <= length rs <= retries)%nat
  /\ Forall (fun r => overloaded r = true) (removelast rs)
  /\ ((length rs < retries)%nat -> overloaded (last rs NetworkError) = false).

Section Network.
Variable P : Platform.
Context {Net : Type}.
Variable fetch : Net -> nat -> Net * Response.

(** What the attempt contributes: the items of its last response when that
    one is a success, nothing otherwise. *)
Definition contribution (sc : option Schema) (transactionType : string)
  (rs : list Response) : list Item :=
  match itemsOfResponse P sc transactionType (last rs NetworkError) with
  | Some items => items
  | None => []
  end.

Lemma overloaded_no_items (sc : option Schema) (transactionType : string) (r : Response) :
  overloaded r = true -> itemsOfResponse P sc transactionType r = None.
Proof.
  destruct r as [|status body]; cbn; [discriminate|].
  intro E. apply Z.eqb_eq in E; subst status. reflexivity.
Qed.

Lemma requestLoop_spec (sc : option Schema) (transactionType : string) (i total : nat) :
  forall retries st, (1 <= retries)%nat ->
    exists rs n',
      valid_attempt retries rs
      /\ requestLoop P fetch sc transactionType i total retries st
         = (contribution sc transactionType rs,
            {| net := n'; trace := trace st ++ attemptEvents i total rs |}).
Proof.
  induction retries as [|remaining IH]; intros st Hpos; [lia|].
  cbn [requestLoop]. unfold emit; cbn [net trace].
  destruct (fetch (net st) i) as [n1 r] eqn:Hf. cbn [net trace].
  destruct (overloaded r) eqn:Hov.
  - destruct remaining as [|remaining].
    + exists [r], n1. split.
      * repeat split; cbn; auto; lia.
      * unfold contribution; cbn [last]. rewrite overloaded_no_items by assumption.
        cbn [attemptEvents]. now rewrite <- app_assoc.
    + destruct (IH {| net := n1;
                      trace := ((trace st ++ [EvSending i total]) ++ [EvFetch i r])
                                 ++ [EvSleep 2000] |}) as [rs [n' [[Hlen [Hall Hlast]] Hrun]]];
        [lia|].
      destruct rs as [|r0 rs]; [cbn in Hlen; lia|].
      exists (r :: r0 :: rs), n'. split.
      * repeat split.
        -- cbn [length] in *; lia.
        -- cbn [length] in *; lia.
        -- change (removelast (r :: r0 :: rs)) with (r :: removelast (r0 :: rs)).
           constructor; auto.
        -- intro Hlt. change (last (r :: r0 :: rs) NetworkError)
                        with (last (r0 :: rs) NetworkError).
           apply Hlast. cbn [length] in *; lia.
      * unfold emit in Hrun. cbn [net trace] in Hrun. rewrite Hrun.
        unfold contribution.
        change (last (r :: r0 :: rs) NetworkError) with (last (r0 :: rs) NetworkError).
        f_equal. f_equal. cbn [attemptEvents]. rewrite <- !app_assoc. reflexivity.
  - exists [r], n1. split.
    + repeat split; cbn; auto; lia.
    + unfold contribution; cbn [last attemptEvents]. rewrite <- app_assoc. cbn [app].
      destruct (itemsOfResponse P sc transactionType r); reflexivity.
Qed.

Lemma imagesLoop_spec (sc : option Schema) (transactionType : string) (total : nat) :
  forall files i allItems st,
    exists groups n',
      length groups = length files
      /\ Forall (valid_attempt 3) groups
      /\ imagesLoop P fetch sc transactionType total files i allItems st
         = (allItems ++ concat (map (contribution sc transactionType) groups),
            {| net := n'; trace := trace st ++ batchEvents total i groups |}).
Proof.
  induction files as [|f files IH]; intros i allItems st.
  - exists [], (net st). cbn. rewrite !app_nil_r. repeat split; auto. now destruct st.
  - cbn [imagesLoop].
    destruct (@requestLoop_spec sc transactionType i total 3 st) as [rs [n1 [Hv Hrun]]];
      [lia|].
    rewrite Hrun.
    destruct (IH (S i) (allItems ++ contribution sc transactionType rs)
                {| net := n1; trace := trace st ++ attemptEvents i total rs |})
      as [groups [n' [Hlen [Hall Hloop]]]].
    exists (rs :: groups), n'. repeat split.
    + cbn; lia.
    + constructor; auto.
    + rewrite Hloop. cbn [trace map concat batchEvents]. now rewrite <- !app_assoc.
Qed.


(** An overload is never followed by more than two further requests, and a
    response that is no overload by none. *)
Corollary attempt_shapes (rs : list Response) :
  valid_attempt 3 rs ->
  (exists r, overloaded r = false
             /\ (rs = [r]
                 \/ exists a, overloaded a = true
                              /\ (rs = [a; r]
                                  \/ exists b, overloaded b = true /\ rs = [a; b; r])))
  \/ (exists a b c, rs = [a; b; c] /\ overloaded a = true /\ overloaded b = true
                    /\ overloaded c = true).
Proof.
  intros [[Hlo Hhi] [Hall Hlast]].
  destruct rs as [|a [|b [|c [|d rs]]]]; cbn [length] in *; try lia.
  - left. exists a. split; [apply Hlast; lia | auto].
  - left. exists b. inversion Hall; subst. split; [apply Hlast; lia|].
    right. exists a. split; auto.
  - cbn [removelast] in Hall. inversion Hall as [|? ? Ha Hall']; subst.
    inversion Hall' as [|? ? Hb _]; subst.
    destruct (overloaded c) eqn:Hc.
    + right. exists a, b, c. auto.
    + left. exists c. split; auto. right. exists a. split; auto.
      right. exists b. auto.
Qed.

End Network.

(** Three images: the endpoint is overloaded three times for the first,
    answers 500 for the second, and is overloaded once and then answers for
    the third. *)
Example getOcrResults_three_images :
  let f := {| Compress.name := js "p.jpg"; Compress.mime := js "image/jpeg";
              Compress.size := 1000 |} in
  let script :=
    [ HttpResponse 503 None; HttpResponse 503 None; HttpResponse 503 None;
      HttpResponse 500 None;
      HttpResponse 503 None;
      HttpResponse 200 (Some (Demo.answer (Demo.jq "[{'description': 'Bolt M8', 'qnty_total': 4}]"))) ] in
  let run := getOcrResults Demo.platform Demo.scripted (Some TNO_SCHEMA) [f; f; f] "default"
               {| net := script; trace := [] |} in
  map (fun it => lookup "description" it) (fst run) = [Some (VStr (js "Bolt M8"))]
  /\ trace (snd run)
     = [ EvSending 0 3; EvFetch 0 (HttpResponse 503 None); EvSleep 2000;
         EvSending 0 3; EvFetch 0 (HttpResponse 503 None); EvSleep 2000;
         EvSending 0 3; EvFetch 0 (HttpResponse 503 None);
         EvSending 1 3; EvFetch 1 (HttpResponse 500 None);
         EvSending 2 3; EvFetch 2 (HttpResponse 503 None); EvSleep 2000;
         EvSending 2 3;
         EvFetch 2 (HttpResponse 200
                      (Some (Demo.answer (Demo.jq "[{'description': 'Bolt M8', 'qnty_total': 4}]")))) ].
Proof. split; vm_compute; reflexivity. Qed.

End ExtractFacts.

(** ** Parsing: a fenced answer is read like the bare one *)

Module ParseFacts.
Import Js Schema Ocr.

(** A match that starts in [u] also ends in [u], and the text after [u] has
    no say in it: the condition under which a scan of [u ++ z] is the scan
    of [u] followed by the scan of [z]. *)
Definition local_in (m : jstr -> option (nat * jstr)) (u z : jstr) : Prop :=
  forall u1 u2, u = u1 ++ u2 -> u2 <> [] ->
    m (u2 ++ z) = m u2
    /\ (forall n rep, m u2 = Some (n, rep) -> (n <= length u2)%nat).

Lemma local_in_tail (m : jstr -> option (nat * jstr)) (c : N) (u z : jstr) :
  local_in m (c :: u) z -> local_in m u z.
Proof.
  intros H u1 u2 E Hne. apply (H (c :: u1) u2); auto. now rewrite E.
Qed.

Lemma gsub_app (m : jstr -> option (nat * jstr)) (z : jstr) :
  forall u k, local_in m u z -> (k <= length u)%nat ->
    gsub m k (u ++ z) = gsub m k u ++ gsub m 0 z.
Proof.
  induction u as [|c u IH]; intros k Hloc Hk.
  - cbn in Hk. replace k with 0%nat by lia. reflexivity.
  - cbn [app gsub]. destruct k as [|k].
    + destruct (Hloc [] (c :: u) eq_refl) as [Hm Hlen]; [discriminate|].
      cbn [app] in Hm. rewrite Hm.
      destruct (m (c :: u)) as [[[|n] rep]|] eqn:E.
      * cbn [app]. f_equal. apply IH; [eapply local_in_tail; eauto | lia].
      * specialize (Hlen _ _ eq_refl). cbn [length] in Hlen.
        rewrite <- app_assoc. f_equal. apply IH; [eapply local_in_tail; eauto | lia].
      * cbn [app]. f_equal. apply IH; [eapply local_in_tail; eauto | lia].
    + cbn [length] in Hk. apply IH; [eapply local_in_tail; eauto | lia].
Qed.

(** The characters of a fence marker. *)
Definition fence_char (c : N) : bool := existsb (N.eqb c) [96; 106; 115; 111; 110]%N.

(** A pattern made of fence characters cannot run over a character that is
    none. *)
Lemma starts_with_stops (p : jstr) :
  forallb fence_char p = true ->
  forall u c z, fence_char c = false ->
    starts_with p ((u ++ [c]) ++ z) = starts_with p (u ++ [c])
    /\ (starts_with p (u ++ [c]) = true -> (length p <= length u)%nat).
Proof.
  induction p as [|a p IH]; intros Hp u c z Hc.
  - cbn. split; auto. intros _. lia.
  - cbn [forallb] in Hp. apply andb_prop in Hp as [Ha Hp].
    destruct u as [|b u]; cbn [app starts_with].
    + assert (E : (a =? c)%N = false).
      { destruct (N.eqb_spec a c); auto. subst. congruence. }
      rewrite E. cbn. split; auto. discriminate.
    + destruct (IH Hp u c z Hc) as [E1 E2]. rewrite E1. split; auto.
      intro Hs. apply andb_prop in Hs as [_ Hs]. specialize (E2 Hs). cbn; lia.
Qed.

Lemma fence_matchers_local (u z : jstr) (c : N) :
  fence_char c = false ->
  local_in m_fence_json (u ++ [c]) z /\ local_in m_fence (u ++ [c]) z.
Proof.
  intro Hc.
  assert (Hsuf : forall u1 u2, u ++ [c] = u1 ++ u2 -> u2 <> [] ->
                               exists u', u2 = u' ++ [c]).
  { intros u1 u2 E Hne. destruct (exists_last Hne) as [u' [x Ex]]. subst u2.
    rewrite app_assoc in E. apply app_inj_tail in E as [_ <-]. eauto. }
  split; intros u1 u2 E Hne; destruct (Hsuf u1 u2 E Hne) as [u' ->].
  - unfold m_fence_json.
    destruct (@starts_with_stops fence_json eq_refl u' c z Hc) as [E1 L1].
    destruct (@starts_with_stops fence eq_refl u' c z Hc) as [E2 L2].
    rewrite E1, E2. split; auto. intros n rep.
    destruct (starts_with fence_json (u' ++ [c])) eqn:S1.
    + intro Hm; inversion Hm; subst. specialize (L1 eq_refl).
      rewrite length_app. cbn in *. lia.
    + destruct (starts_with fence (u' ++ [c])) eqn:S2; [|discriminate].
      intro Hm; inversion Hm; subst. specialize (L2 eq_refl).
      rewrite length_app. cbn in *. lia.
  - unfold m_fence.
    destruct (@starts_with_stops fence eq_refl u' c z Hc) as [E2 L2].
    rewrite E2. split; auto. intros n rep.
    destruct (starts_with fence (u' ++ [c])) eqn:S2; [|discriminate].
    intro Hm; inversion Hm; subst. specialize (L2 eq_refl).
    rewrite length_app. cbn in *. lia.
Qed.

(** White space is emitted as it is by both scans. *)
Lemma gsub_fence_ws (m : jstr -> option (nat * jstr)) (ws z : jstr) :
  (forall c r, is_ws c = true -> m (c :: r) = None) ->
  forallb is_ws ws = true ->
  gsub m 0 (ws ++ z) = ws ++ gsub m 0 z.
Proof.
  intros Hm. induction ws as [|c ws IH]; intro Hws; [reflexivity|].
  cbn [forallb] in Hws. apply andb_prop in Hws as [Hc Hws].
  cbn [app gsub]. rewrite Hm by assumption. now rewrite IH.
Qed.

Lemma no_backquote_no_fence (c : N) (r : jstr) :
  (96 =? c)%N = false -> m_fence_json (c :: r) = None /\ m_fence (c :: r) = None.
Proof.
  intro E. unfold m_fence_json, m_fence.
  change fence_json with (96%N :: js "``json"). change fence with (96%N :: js "``").
  cbn [starts_with]. rewrite E. auto.
Qed.

Lemma ws_is_no_fence (c : N) (r : jstr) :
  is_ws c = true -> m_fence_json (c :: r) = None /\ m_fence (c :: r) = None.
Proof.
  intro Hc. apply no_backquote_no_fence.
  destruct (N.eqb_spec 96 c); auto. subst. discriminate.
Qed.

(** A character that is no fence character passes both scans. *)
Lemma gsub_fence_last (u : jstr) (c : N) :
  fence_char c = false ->
  replaceAll m_fence_json (u ++ [c]) = replaceAll m_fence_json u ++ [c]
  /\ replaceAll m_fence (u ++ [c]) = replaceAll m_fence u ++ [c].
Proof.
  intro Hc. unfold replaceAll.
  assert (Hne : (96 =? c)%N = false).
  { destruct (N.eqb_spec 96 c); auto. subst. discriminate. }
  assert (Hloc : forall m, (forall p, m p = m_fence_json p) \/ (forall p, m p = m_fence p) ->
                           local_in m u [c]).
  { intros m Hm u1 u2 E Hn.
    assert (Hgen : forall (p : jstr), forallb fence_char p = true ->
               forall v, starts_with p (v ++ [c]) = starts_with p v).
    { induction p as [|a p IHp]; intros Hp v; [reflexivity|].
      cbn [forallb] in Hp. apply andb_prop in Hp as [Ha Hp].
      destruct v as [|b v]; cbn [app starts_with].
      - destruct (N.eqb_spec a c); [subst; congruence | reflexivity].
      - now rewrite IHp. }
    assert (Hlen : forall (p v : jstr), starts_with p v = true -> (length p <= length v)%nat).
    { induction p as [|a p IHp]; intros v Hs; [cbn; lia|].
      destruct v as [|b v]; [discriminate|]. cbn in Hs.
      apply andb_prop in Hs as [_ Hs]. specialize (IHp v Hs). cbn; lia. }
    destruct Hm as [Hm|Hm]; rewrite !Hm.
    - unfold m_fence_json. rewrite (Hgen fence_json eq_refl), (Hgen fence eq_refl).
      split; auto. intros n rep.
      destruct (starts_with fence_json u2) eqn:S1.
      + intro Hx; inversion Hx; subst. apply (Hlen _ _ S1).
      + destruct (starts_with fence u2) eqn:S2; [|discriminate].
        intro Hx; inversion Hx; subst. apply (Hlen _ _ S2).
    - unfold m_fence. rewrite (Hgen fence eq_refl). split; auto. intros n rep.
      destruct (starts_with fence u2) eqn:S2; [|discriminate].
      intro Hx; inversion Hx; subst. apply (Hlen _ _ S2). }
  destruct (@no_backquote_no_fence c [] Hne) as [N1 N2].
  split.
  - rewrite gsub_app; [|apply Hloc; auto | lia]. cbn [gsub]. now rewrite N1.
  - rewrite gsub_app; [|apply Hloc; auto | lia]. cbn [gsub]. now rewrite N2.
Qed.

Lemma ws_not_nul {ws : jstr} :
  forallb is_ws ws = true -> filter (fun c => negb (c =? 0)%N) ws = ws.
Proof.
  induction ws as [|c ws IH]; [reflexivity|]. cbn [forallb filter].
  intro H. apply andb_prop in H as [Hc Hws].
  destruct (N.eqb_spec c 0); [subst; discriminate|]. cbn. now rewrite IH.
Qed.

Lemma dropWhile_ws_app (ws z : jstr) :
  forallb is_ws ws = true -> dropWhile is_ws (ws ++ z) = dropWhile is_ws z.
Proof.
  induction ws as [|c ws IH]; [reflexivity|]. cbn [forallb app dropWhile].
  intro H. apply andb_prop in H as [Hc Hws]. rewrite Hc. auto.
Qed.

Lemma dropWhile_stops_at (u z : jstr) (c : N) :
  is_ws c = false -> dropWhile is_ws (u ++ c :: z) = dropWhile is_ws (u ++ [c]) ++ z.
Proof.
  intro Hc. induction u as [|b u IH]; cbn [app dropWhile].
  - now rewrite Hc.
  - destruct (is_ws b); [auto | cbn [app]; now rewrite <- app_assoc].
Qed.

Lemma forallb_rev {A} (p : A -> bool) (l : list A) :
  forallb p (rev l) = forallb p l.
Proof.
  induction l as [|x l IH]; [reflexivity|].
  cbn [rev forallb]. rewrite forallb_app, IH. cbn. rewrite andb_true_r. apply andb_comm.
Qed.

(** White space around a text that ends in a visible character is trimmed
    away. *)
Lemma trim_padded (ws1 ws2 u : jstr) (c : N) :
  forallb is_ws ws1 = true -> forallb is_ws ws2 = true -> is_ws c = false ->
  trim (ws1 ++ (u ++ [c]) ++ ws2) = trim (u ++ [c]).
Proof.
  intros H1 H2 Hc. unfold trim, trimStart, trimEnd.
  rewrite dropWhile_ws_app by assumption.
  rewrite <- app_assoc. cbn [app]. rewrite dropWhile_stops_at by assumption.
  rewrite rev_app_distr, dropWhile_ws_app; [reflexivity|].
  now rewrite forallb_rev.
Qed.

(** The text in its fence: the opening marker, white space, the text,
    white space, the closing marker. *)
Definition fenced (ws1 t ws2 : jstr) : jstr := fence_json ++ ws1 ++ t ++ ws2 ++ fence.

Lemma filter_fenced (ws1 t ws2 : jstr) :
  forallb is_ws ws1 = true -> forallb is_ws ws2 = true ->
  filter (fun c => negb (c =? 0)%N) (fenced ws1 t ws2)
  = fenced ws1 (filter (fun c => negb (c =? 0)%N) t) ws2.
Proof.
  intros H1 H2. unfold fenced. rewrite !filter_app.
  now rewrite (ws_not_nul H1), (ws_not_nul H2).
Qed.

Lemma cleanText_fenced (ws1 ws2 body : jstr) :
  forallb is_ws ws1 = true -> forallb is_ws ws2 = true ->
  cleanText (fenced ws1 (body ++ [93%N]) ws2) = cleanText (body ++ [93%N]).
Proof.
  intros H1 H2. unfold cleanText.
  rewrite filter_fenced by assumption. rewrite filter_app. cbn [filter N.eqb negb].
  set (b := filter _ body).
  assert (Hc : fence_char 93 = false) by reflexivity.
  destruct (@gsub_fence_last b 93%N Hc) as [L1 _].
  (* first replacement *)
  assert (R1 : replaceAll m_fence_json (fenced ws1 (b ++ [93%N]) ws2)
               = ws1 ++ (replaceAll m_fence_json b ++ [93%N]) ++ ws2).
  { unfold fenced, replaceAll.
    change (gsub m_fence_json 0 (fence_json ++ ws1 ++ (b ++ [93%N]) ++ ws2 ++ fence))
      with (gsub m_fence_json 0 (ws1 ++ (b ++ [93%N]) ++ ws2 ++ fence)).
    rewrite gsub_fence_ws;
      [|intros c r Hw; apply (@ws_is_no_fence c r Hw) | assumption].
    f_equal.
    rewrite gsub_app;
      [|apply (@fence_matchers_local b (ws2 ++ fence) 93%N Hc) | lia].
    fold (replaceAll m_fence_json (b ++ [93%N])). rewrite L1.
    f_equal.
    rewrite gsub_fence_ws;
      [|intros c r Hw; apply (@ws_is_no_fence c r Hw) | assumption].
    cbn. now rewrite app_nil_r. }
  rewrite R1.
  set (b1 := replaceAll m_fence_json b).
  destruct (@gsub_fence_last b1 93%N Hc) as [_ L2].
  assert (R2 : replaceAll m_fence (ws1 ++ (b1 ++ [93%N]) ++ ws2)
               = ws1 ++ (replaceAll m_fence b1 ++ [93%N]) ++ ws2).
  { unfold replaceAll.
    rewrite gsub_fence_ws;
      [|intros c r Hw; apply (@ws_is_no_fence c r Hw) | assumption].
    f_equal.
    rewrite gsub_app;
      [|apply (@fence_matchers_local b1 ws2 93%N Hc) | lia].
    fold (replaceAll m_fence (b1 ++ [93%N])). rewrite L2. f_equal.
    rewrite <- (app_nil_r ws2) at 1.
    rewrite gsub_fence_ws;
      [|intros c r Hw; apply (@ws_is_no_fence c r Hw) | assumption].
    cbn. now rewrite app_nil_r. }
  rewrite R2, L1. fold b1. rewrite L2.
  now apply trim_padded.
Qed.

(** A text that reads as a JSON array ends with the closing bracket. *)
Definition ends_with_bracket (t : jstr) : Prop := exists body, t = body ++ [93%N].

(** C8. For every text that ends with the bracket closing an array, every
    transaction type and every schema, the response parser yields the same
    items for the text put between the opening marker with the language tag
    and the closing marker (white space allowed inside the fence) as for the
    text itself, whatever the JSON reader of the platform does. *)
Theorem safeJsonExtract_fenced (P : Platform) (sc : option Schema)
  (transactionType : string) (t ws1 ws2 : jstr) :
  ends_with_bracket t ->
  forallb is_ws ws1 = true -> forallb is_ws ws2 = true ->
  safeJsonExtract P sc (fenced ws1 t ws2) transactionType
  = safeJsonExtract P sc t transactionType.
Proof.
  intros [body ->] H1 H2. unfold safeJsonExtract.
  rewrite cleanText_fenced by assumption.
  destruct (body ++ [93%N]) as [|x r] eqn:E; [destruct body; discriminate|].
  reflexivity.
Qed.

Lemma safeJsonExtract_fenced_witness :
  ends_with_bracket (Demo.jq "[{'description': 'Bolt M8', 'qnty_total': '1,200 pcs'}]")
  /\ safeJsonExtract Demo.platform (Some TNO_SCHEMA)
       (fenced [10%N] (Demo.jq "[{'description': 'Bolt M8', 'qnty_total': '1,200 pcs'}]")
          [10%N]) "default"
     = safeJsonExtract Demo.platform (Some TNO_SCHEMA)
         (Demo.jq "[{'description': 'Bolt M8', 'qnty_total': '1,200 pcs'}]") "default".
Proof.
  assert (Hb : ends_with_bracket
                 (Demo.jq "[{'description': 'Bolt M8', 'qnty_total': '1,200 pcs'}]")).
  { exists (Demo.jq "[{'description': 'Bolt M8', 'qnty_total': '1,200 pcs'}"). reflexivity. }
  split; [exact Hb|].
  apply (@safeJsonExtract_fenced Demo.platform (Some TNO_SCHEMA) "default"
           (Demo.jq "[{'description': 'Bolt M8', 'qnty_total': '1,200 pcs'}]")
           [10%N] [10%N] Hb); reflexivity.
Defined.

(** What both sides of the witness are. *)
Example safeJsonExtract_fenced_value :
  map (fun it => (lookup "description" it, lookup "qnty_total" it))
    (safeJsonExtract Demo.platform (Some TNO_SCHEMA)
       (fenced [10%N] (Demo.jq "[{'description': 'Bolt M8', 'qnty_total': '1,200 pcs'}]")
          [10%N]) "default")
  = [(Some (VStr (js "Bolt M8")), Some (VNum 1200))].
Proof. vm_compute. reflexivity. Qed.

(** Text around the array: the slice from the first [[] to the last []]. *)
Example safeJsonExtract_embedded :
  map (fun it => lookup "description" it)
    (safeJsonExtract Demo.platform (Some TNO_SCHEMA)
       (Demo.jq "noise[{'description':'Nut'}]moretext") "default")
  = [Some (VStr (js "Nut"))]
  /\ safeJsonExtract Demo.platform (Some TNO_SCHEMA) (js "no data on this page") "default"
     = [].
Proof. split; vm_compute; reflexivity. Qed.

End ParseFacts.

(** ** The row-fill engine: what it does to the page *)

Module EngineFacts.
Import Js Schema AddRows ObjFacts.

(** The names on which the focus method was called, in order. *)
Definition focus_seq (l : list Act) : list jstr :=
  flat_map (fun a => match a with
                     | ACall n m => if String.eqb m "focus" then [n] else []
                     | _ => []
                     end) l.

Definition not_focus (a : Act) : Prop := focus_seq [a] = [].

(** [R] holds of every action on the element [n] but, possibly, of the call
    of its focus method. *)
Definition friendly (n : jstr) (R : Act -> Prop) : Prop :=
  forall a, target a = Some n -> not_focus a -> R a.

(** [R] holds of every action that has no target. *)
Definition untargeted (R : Act -> Prop) : Prop := forall a, target a = None -> R a.

Definition flagName (rowIndex : Z) : jstr := js "fmi_unit_price_editable" ++ Z_to_jstr rowIndex.

Inductive Subseq {A : Type} : list A -> list A -> Prop :=
| Subseq_nil : forall l, Subseq [] l
| Subseq_skip : forall x l1 l2, Subseq l1 l2 -> Subseq l1 (x :: l2)
| Subseq_take : forall x l1 l2, Subseq l1 l2 -> Subseq (x :: l1) (x :: l2).

Lemma focus_seq_app (l1 l2 : list Act) : focus_seq (l1 ++ l2) = focus_seq l1 ++ focus_seq l2.
Proof. unfold focus_seq. apply flat_map_app. Qed.

Lemma focus_seq_none {l : list Act} : Forall not_focus l -> focus_seq l = [].
Proof.
  induction 1 as [|a l Ha _ IH]; [reflexivity|].
  change (a :: l) with ([a] ++ l). rewrite focus_seq_app, IH, app_nil_r. exact Ha.
Qed.

Lemma Subseq_app {A : Type} (a a' b b' : list A) :
  Subseq a a' -> Subseq b b' -> Subseq (a ++ b) (a' ++ b').
Proof.
  intros Ha Hb. induction Ha as [l|x l1 l2 _ IH|x l1 l2 _ IH]; cbn [app].
  - induction l as [|y l IH]; [exact Hb | now apply Subseq_skip].
  - now apply Subseq_skip.
  - now apply Subseq_take.
Qed.

Lemma Subseq_one {A : Type} (l : list A) (n : A) : l = [] \/ l = [n] -> Subseq l [n].
Proof. intros [->| ->]; [apply Subseq_nil | apply Subseq_take, Subseq_nil]. Qed.

(** The object without the property [key]. *)
Definition remove_key (key : string) (data : Row) : Row :=
  filter (fun kv => negb (String.eqb key (fst kv))) data.

Lemma lookup_remove_key (key k : string) (data : Row) :
  lookup k (remove_key key data) = if String.eqb key k then None else lookup k data.
Proof.
  unfold remove_key. induction data as [|[k0 v0] data IH]; cbn [filter lookup fst].
  - now destruct (String.eqb key k).
  - destruct (String.eqb_spec key k0) as [->|Hn]; cbn [negb lookup].
    + rewrite IH. destruct (String.eqb_spec k0 k) as [->|Hk]; [reflexivity|].
      rewrite eqb_neq_false by congruence. reflexivity.
    + rewrite IH. destruct (String.eqb_spec k k0) as [->|Hk]; [|reflexivity].
      rewrite eqb_neq_false by congruence. reflexivity.
Qed.

(** The rows the engine does not write when the stock search made the row. *)
Definition fieldsToSkip (isStockItem : bool) : list string :=
  if isStockItem then ["stkcode_code"; "stkcode_desc"; "desc"]%string else [].

(** The fields of the canonical order that a record gives a value to. *)
Definition fillPlan (skip : list string) (data : Row) (order : list string) : list string :=
  filter (fun k => negb (mem k skip) && has_key k data && negb (isBlank (data_get data k)))
    order.

Section Engine.
Variable P : Platform.
Variable cfg : WaitConfig.
Context {H : Type}.
Variable host : Host H.
Variable sc : option Schema.

(** The actions a computation adds to the log satisfy [Q], whether it
    returns or throws. *)
Definition extends {A} (Q : list Act -> Prop) (c : @M H A) : Prop :=
  forall st, exists l, log (snd (c st)) = log st ++ l /\ Q l.

Definition only {A} (R : Act -> Prop) (c : @M H A) : Prop := extends (Forall R) c.

Lemma trapAlerts_log (msgs : list JsValue) :
  forall st : @St H, log (trapAlerts P msgs st) = log st.
Proof.
  unfold trapAlerts. induction msgs as [|m msgs IH]; intro st; [reflexivity|].
  cbn [fold_left]. now rewrite IH.
Qed.

Lemma extends_weaken {A} (Q Q' : list Act -> Prop) (c : @M H A) :
  (forall l, Q l -> Q' l) -> extends Q c -> extends Q' c.
Proof. intros Hq Hc st. destruct (Hc st) as [l [E Hl]]. eauto. Qed.

Lemma only_weaken {A} (R R' : Act -> Prop) (c : @M H A) :
  (forall a, R a -> R' a) -> only R c -> only R' c.
Proof. intros HR. apply extends_weaken. intros l Hl. eapply Forall_impl; eauto. Qed.

Lemma extends_bind {A B} (Q1 Q2 Q : list Act -> Prop) (c : @M H A) (k : A -> @M H B) :
  extends Q1 c -> (forall a, extends Q2 (k a)) ->
  (forall l1, Q1 l1 -> Q l1) -> (forall l1 l2, Q1 l1 -> Q2 l2 -> Q (l1 ++ l2)) ->
  extends Q (bind c k).
Proof.
  intros Hc Hk Hthrow Hseq st. destruct (Hc st) as [l1 [E1 F1]]. unfold bind.
  destruct (c st) as [[e|a] st1]; cbn [snd] in *.
  - exists l1. auto.
  - destruct (Hk a st1) as [l2 [E2 F2]]. exists (l1 ++ l2).
    rewrite E2, E1, app_assoc. auto.
Qed.

Lemma only_ret {A} (R : Act -> Prop) (a : A) : only R (@ret H A a).
Proof. intro st. exists []. cbn. rewrite app_nil_r. auto. Qed.

Lemma only_throw {A} (R : Act -> Prop) (e : Exn) : only R (@throw H A e).
Proof. intro st. exists []. cbn. rewrite app_nil_r. auto. Qed.

Lemma only_gets {A} (R : Act -> Prop) (f : @St H -> A) : only R (gets f).
Proof. intro st. exists []. cbn. rewrite app_nil_r. auto. Qed.

Lemma only_bind {A B} (R : Act -> Prop) (c : @M H A) (k : A -> @M H B) :
  only R c -> (forall a, only R (k a)) -> only R (bind c k).
Proof.
  intros Hc Hk. eapply extends_bind; eauto. intros l1 l2 H1 H2. apply Forall_app; auto.
Qed.

Lemma only_perform (R : Act -> Prop) (a : Act) : R a -> only R (perform P host a).
Proof.
  intros Ha st. exists [a]. unfold perform. cbn [snd]. rewrite trapAlerts_log. auto.
Qed.

Lemma only_elapse (R : Act -> Prop) (ms : Z) : only R (elapse P host ms).
Proof.
  intro st. exists []. unfold elapse. cbn [snd]. rewrite trapAlerts_log, app_nil_r. auto.
Qed.

Lemma only_try_finally {A} (R : Act -> Prop) (c : @M H A) (f : @M H unit) :
  only R c -> only R f -> only R (try_finally c f).
Proof.
  intros Hc Hf st. destruct (Hc st) as [l1 [E1 F1]]. unfold try_finally.
  destruct (c st) as [r st1]. cbn [snd] in *.
  destruct (Hf st1) as [l2 [E2 F2]]. exists (l1 ++ l2).
  destruct (f st1) as [[e|u] st2]; cbn [snd] in *;
    rewrite E2, E1, app_assoc; split; auto; apply Forall_app; auto.
Qed.

(** Steps through a computation built from the operations above; what is
    left are the conditions on single actions. *)
Ltac only_step :=
  match goal with
  | |- only _ (bind _ _) => apply only_bind; [|intros]
  | |- only _ (ret _) => apply only_ret
  | |- only _ (throw _) => apply only_throw
  | |- only _ (gets _) => apply only_gets
  | |- only _ isAborted => apply only_gets
  | |- only _ (find_by_name _ _) => apply only_gets
  | |- only _ (live _ _ _) => apply only_gets
  | |- only _ (elapse _ _ _) => apply only_elapse
  | |- only _ (perform _ _ _) => apply only_perform
  | |- only _ (dom _ _ _) => unfold dom
  | |- only _ (call _ _ _) => unfold call
  | |- only _ (try_finally _ _) => apply only_try_finally
  | |- only _ (if ?b then _ else _) => destruct b
  | |- only _ (match ?x with _ => _ end) => destruct x
  end.

Ltac on_element HR := apply HR; [reflexivity | reflexivity].

Lemma only_sleepLoop (R : Act -> Prop) (fuel : nat) :
  forall milliseconds waited, only R (sleepLoop P host fuel milliseconds waited).
Proof.
  induction fuel as [|fuel IH]; intros ms waited; cbn [sleepLoop]; repeat only_step; auto.
Qed.

Lemma only_sleepAbortable (R : Act -> Prop) (ms : Z) : only R (sleepAbortable P host ms).
Proof. unfold sleepAbortable. repeat only_step. apply only_sleepLoop. Qed.

Lemma only_fireBlurEvent (R : Act -> Prop) (n : jstr) :
  friendly n R -> only R (fireBlurEvent P host n).
Proof. intro HR. unfold fireBlurEvent. repeat only_step; on_element HR. Qed.

Lemma only_fireFocusEvent (R : Act -> Prop) (n : jstr) :
  friendly n R -> R (ACall n "focus") -> only R (fireFocusEvent P host n).
Proof. intros HR Hf. unfold fireFocusEvent. repeat only_step; auto; on_element HR. Qed.

Lemma only_setValueDirectly (R : Act -> Prop) (n : jstr) (el : Element) (v : JsValue) :
  friendly n R -> only R (setValueDirectly P host n el v).
Proof. intro HR. unfold setValueDirectly. repeat only_step; on_element HR. Qed.

Lemma only_clickCheckboxLikeHuman (R : Act -> Prop) (n : jstr) (el : Element) (b : bool) :
  friendly n R -> only R (clickCheckboxLikeHuman P host n el b).
Proof. intro HR. unfold clickCheckboxLikeHuman. repeat only_step; on_element HR. Qed.

Lemma only_ensureListExists (R : Act -> Prop) (n : jstr) :
  untargeted R -> only R (ensureListExists P host n).
Proof. intro HR. unfold ensureListExists. repeat only_step. now apply HR. Qed.

Lemma only_suppressHandlers (R : Act -> Prop) (n : jstr) (el : Element) :
  friendly n R -> forall attrs, only R (suppressHandlers P host n el attrs).
Proof.
  intro HR. induction attrs as [|a attrs IH]; cbn [suppressHandlers];
    repeat only_step; auto; on_element HR.
Qed.

Lemma only_restoreHandlers (R : Act -> Prop) (n : jstr) :
  friendly n R -> forall orig, only R (restoreHandlers P host n orig).
Proof.
  intro HR. induction orig as [|[a v] orig IH]; cbn [restoreHandlers];
    repeat only_step; auto; on_element HR.
Qed.

Lemma only_withSuppressed (R : Act -> Prop) (n : jstr) (el : Element) (c : @M H unit) :
  friendly n R -> only R c -> only R (withSuppressedInlineHandlers P host n el c).
Proof.
  intros HR Hc. unfold withSuppressedInlineHandlers.
  apply only_bind; [now apply only_suppressHandlers|]. intro orig.
  apply only_try_finally; auto. now apply only_restoreHandlers.
Qed.

Ltac only_fn HR :=
  match goal with
  | |- only _ (fireFocusEvent _ _ _) => apply only_fireFocusEvent
  | |- only _ (fireBlurEvent _ _ _) => apply only_fireBlurEvent
  | |- only _ (setValueDirectly _ _ _ _ _) => apply only_setValueDirectly
  | |- only _ (clickCheckboxLikeHuman _ _ _ _ _) => apply only_clickCheckboxLikeHuman
  | |- only _ (ensurePriceListExists _ _ _) => apply only_ensureListExists
  | |- only _ (ensureUomListExists _ _ _) => apply only_ensureListExists
  | |- only _ (sleepAbortable _ _ _) => apply only_sleepAbortable
  | |- only _ (withSuppressedInlineHandlers _ _ _ _ _) => apply only_withSuppressed
  | |- only _ (typeFocusBlur _ _ _ _ _) => unfold typeFocusBlur
  | |- friendly _ _ => exact HR
  end.

(** Every action of [fillOneField] is on the element of the field, on the
    flag that makes the unit price editable, or on no element at all. *)
Lemma only_fillOneField (R : Act -> Prop) (rowIndex : Z) (key : string) (value : JsValue)
  (transactionType : string) :
  (forall n, getColumnName sc rowIndex key transactionType = inr (Some n) ->
             friendly n R /\ R (ACall n "focus")) ->
  friendly (flagName rowIndex) R -> untargeted R ->
  only R (fillOneField P host sc rowIndex key value transactionType).
Proof.
  intros Hn Hflag Hun. unfold fillOneField.
  destruct (getColumnName sc rowIndex key transactionType) as [e|[n|]];
    [apply only_throw | | apply only_ret].
  destruct (Hn n eq_refl) as [HR Hfocus].
  repeat first [only_step | only_fn HR]; auto;
    first [ on_element HR | apply Hflag; reflexivity | apply Hun; reflexivity ].
Qed.

Definition no_focus {A} (c : @M H A) : Prop := only not_focus c.

Definition exactly_one {A} (n : jstr) (c : @M H A) : Prop :=
  extends (fun l => focus_seq l = [n]) c.

Definition at_most_one {A} (n : jstr) (c : @M H A) : Prop :=
  extends (fun l => focus_seq l = [] \/ focus_seq l = [n]) c.

Lemma friendly_not_focus (n : jstr) : friendly n not_focus.
Proof. intros a _ Ha. exact Ha. Qed.

Lemma untargeted_not_focus : untargeted not_focus.
Proof. intros [] Ha; try reflexivity; discriminate. Qed.

Lemma at_most_of_none {A} (n : jstr) (c : @M H A) : no_focus c -> at_most_one n c.
Proof. apply extends_weaken. intros l Hl. left. now apply focus_seq_none. Qed.

Lemma at_most_of_exactly {A} (n : jstr) (c : @M H A) : exactly_one n c -> at_most_one n c.
Proof. apply extends_weaken. auto. Qed.

Lemma none_then_at_most {A B} (n : jstr) (c : @M H A) (k : A -> @M H B) :
  no_focus c -> (forall a, at_most_one n (k a)) -> at_most_one n (bind c k).
Proof.
  intros Hc Hk. eapply extends_bind; eauto.
  - intros l1 H1. left. now apply focus_seq_none.
  - intros l1 l2 H1 H2. cbn beta in *. rewrite focus_seq_app, (focus_seq_none H1). exact H2.
Qed.

Lemma exactly_then_none {A B} (n : jstr) (c : @M H A) (k : A -> @M H B) :
  exactly_one n c -> (forall a, no_focus (k a)) -> exactly_one n (bind c k).
Proof.
  intros Hc Hk. eapply extends_bind; eauto.
  intros l1 l2 H1 H2. cbn beta in *.
  now rewrite focus_seq_app, H1, (focus_seq_none H2), app_nil_r.
Qed.

Lemma exactly_fireFocusEvent (n : jstr) : exactly_one n (fireFocusEvent P host n).
Proof.
  unfold fireFocusEvent.
  apply exactly_then_none.
  - intro st. exists [ACall n "focus"]. unfold dom, bind, perform, ret. cbn [snd].
    rewrite trapAlerts_log. auto.
  - intros _. unfold no_focus. repeat only_step; reflexivity.
Qed.

Ltac no_focus_tac :=
  unfold no_focus;
  repeat first [only_step | only_fn friendly_not_focus];
  first [ reflexivity | apply friendly_not_focus | apply untargeted_not_focus
        | on_element friendly_not_focus ].

(** [fillOneField] calls the focus method at most once, and on the element
    of its field. *)
Lemma fillOneField_focus (rowIndex : Z) (key : string) (value : JsValue)
  (transactionType : string) (n : jstr) :
  getColumnName sc rowIndex key transactionType = inr (Some n) ->
  at_most_one n (fillOneField P host sc rowIndex key value transactionType).
Proof.
  intro Hn. unfold fillOneField. rewrite Hn.
  apply none_then_at_most; [no_focus_tac|]. intros [|]; [apply at_most_of_none; no_focus_tac|].
  destruct (String.eqb key "gst").
  - apply none_then_at_most; [no_focus_tac|]. intros [el|]; [|apply at_most_of_none; no_focus_tac].
    apply at_most_of_exactly, exactly_then_none; [apply exactly_fireFocusEvent|].
    intros _. no_focus_tac.
  - apply none_then_at_most.
    { destruct (key_in key _); no_focus_tac. }
    intros _. apply none_then_at_most.
    { destruct (key_in key _); no_focus_tac. }
    intros _. apply none_then_at_most; [no_focus_tac|].
    intros [el|]; [|apply at_most_of_none; no_focus_tac].
    destruct (key_in key _ && _).
    { apply at_most_of_exactly, exactly_then_none; [apply exactly_fireFocusEvent|].
      intros _. no_focus_tac. }
    destruct (negb (e_visible el) || _).
    { apply at_most_of_exactly, exactly_then_none; [apply exactly_fireFocusEvent|].
      intros _. no_focus_tac. }
    destruct (key_in key _).
    { apply none_then_at_most; [no_focus_tac|]. intros _.
      apply at_most_of_exactly, exactly_then_none; [apply exactly_fireFocusEvent|].
      intros _. no_focus_tac. }
    unfold typeFocusBlur.
    apply none_then_at_most; [no_focus_tac|]. intros _.
    apply none_then_at_most; [no_focus_tac|]. intros _.
    apply none_then_at_most; [no_focus_tac|]. intros [|]; [apply at_most_of_none; no_focus_tac|].
    apply at_most_of_exactly, exactly_then_none; [apply exactly_fireFocusEvent|].
    intros _. no_focus_tac.
Qed.

(** The element names of a list of fields, in the order of the list. *)
Definition dom_names (rowIndex : Z) (transactionType : string) (ks : list string)
  : list jstr :=
  flat_map (fun k => match getColumnName sc rowIndex k transactionType with
                     | inr (Some n) => [n]
                     | _ => []
                     end) ks.

Lemma fillOneField_focus_names (rowIndex : Z) (key : string) (value : JsValue)
  (transactionType : string) :
  extends (fun l => Subseq (focus_seq l) (dom_names rowIndex transactionType [key]))
    (fillOneField P host sc rowIndex key value transactionType).
Proof.
  unfold dom_names. cbn [flat_map]. rewrite app_nil_r.
  destruct (getColumnName sc rowIndex key transactionType) as [e|[n|]] eqn:Hn.
  - unfold fillOneField. rewrite Hn. intro st. exists []. cbn. rewrite app_nil_r.
    split; [reflexivity | apply Subseq_nil].
  - eapply extends_weaken; [|apply (fillOneField_focus rowIndex key value transactionType n Hn)].
    intros l Hl. now apply Subseq_one.
  - unfold fillOneField. rewrite Hn. intro st. exists []. cbn. rewrite app_nil_r.
    split; [reflexivity | apply Subseq_nil].
Qed.

Lemma dom_names_cons (rowIndex : Z) (transactionType : string) (k : string)
  (ks : list string) :
  dom_names rowIndex transactionType (k :: ks)
  = dom_names rowIndex transactionType [k] ++ dom_names rowIndex transactionType ks.
Proof. unfold dom_names. cbn [flat_map]. now rewrite app_nil_r. Qed.

(** The loop over the canonical order focuses elements in that order, and
    only those of fields the record gives a value to. *)
Lemma fillLoop_focus (rowIndex : Z) (data : Row) (transactionType : string)
  (skip : list string) :
  forall order,
    extends (fun l => Subseq (focus_seq l)
                        (dom_names rowIndex transactionType (fillPlan skip data order)))
      (fillLoop P host sc rowIndex data transactionType skip order).
Proof.
  induction order as [|key rest IH]; cbn [fillLoop].
  - intro st. exists []. cbn. rewrite app_nil_r. split; [reflexivity | apply Subseq_nil].
  - intro st. unfold bind at 1. unfold isAborted, gets. cbn [fst snd].
    destruct (aborted st).
    { exists []. cbn. rewrite app_nil_r. split; [reflexivity | apply Subseq_nil]. }
    unfold fillPlan. cbn [filter]. fold (fillPlan skip data rest).
    destruct (mem key skip); cbn [negb andb]; [apply IH|].
    destruct (has_key key data); cbn [negb andb]; [|apply IH].
    destruct (isBlank (data_get data key)); cbn [negb]; [apply IH|].
    rewrite dom_names_cons.
    refine (@extends_bind _ _ _ _ _ _ _ (fillOneField_focus_names _ _ _ _)
              (fun _ => IH) _ _ st).
    + intros l1 H1. rewrite <- (app_nil_r (focus_seq l1)).
      apply Subseq_app; [exact H1 | apply Subseq_nil].
    + intros l1 l2 H1 H2. rewrite focus_seq_app. now apply Subseq_app.
Qed.

(** The loop reads the record through its properties only. *)
Lemma fillLoop_same_properties (rowIndex : Z) (data data' : Row) (transactionType : string)
  (skip : list string) :
  (forall k, lookup k data' = lookup k data) ->
  forall order st,
    fillLoop P host sc rowIndex data' transactionType skip order st
    = fillLoop P host sc rowIndex data transactionType skip order st.
Proof.
  intro Hsame. induction order as [|key rest IH]; intro st; [reflexivity|].
  cbn [fillLoop]. unfold bind at 1 3. unfold isAborted, gets.
  destruct (aborted st); [reflexivity|].
  unfold has_key, data_get. rewrite (Hsame key).
  destruct (mem key skip); [apply IH|].
  destruct (lookup key data) as [v|]; cbn [negb]; [|apply IH].
  destruct (isBlank v); [apply IH|].
  unfold bind. destruct (fillOneField P host sc rowIndex key v transactionType st)
    as [[e|u] st1]; [reflexivity | apply IH].
Qed.

Lemma fillLoop_aborted (rowIndex : Z) (data : Row) (transactionType : string)
  (skip order : list string) (st : @St H) :
  aborted st = true ->
  fillLoop P host sc rowIndex data transactionType skip order st = (inr tt, st).
Proof.
  intro Ha. destruct order as [|key rest]; [reflexivity|].
  cbn [fillLoop]. unfold bind, isAborted, gets. now rewrite Ha.
Qed.

(** A blank value is as good as none. *)
Lemma fillLoop_blank_absent (rowIndex : Z) (data : Row) (transactionType : string)
  (skip : list string) (key : string) :
  isBlank (data_get data key) = true ->
  forall order st,
    fillLoop P host sc rowIndex data transactionType skip order st
    = fillLoop P host sc rowIndex (remove_key key data) transactionType skip order st.
Proof.
  intro Hblank. induction order as [|k rest IH]; intro st; [reflexivity|].
  cbn [fillLoop]. unfold bind at 1 3. unfold isAborted, gets.
  destruct (aborted st); [reflexivity|].
  destruct (mem k skip); [apply IH|].
  unfold has_key, data_get in *. rewrite lookup_remove_key.
  destruct (String.eqb_spec key k) as [->|Hn].
  - destruct (lookup k data) as [v|]; cbn [negb]; [|apply IH].
    rewrite Hblank. apply IH.
  - destruct (lookup k data) as [v|]; cbn [negb]; [|apply IH].
    destruct (isBlank v); [apply IH|].
    unfold bind. destruct (fillOneField P host sc rowIndex k v transactionType st)
      as [[e|u] st1]; [reflexivity | apply IH].
Qed.

(** With a blank value under [key], no action of the loop is on the element
    of that field, provided no other field and no flag shares the element. *)
Lemma fillLoop_blank_untouched (rowIndex : Z) (data : Row) (transactionType : string)
  (skip : list string) (key : string) (n : jstr) :
  isBlank (data_get data key) = true ->
  n <> flagName rowIndex ->
  (forall k' n', k' <> key ->
     getColumnName sc rowIndex k' transactionType = inr (Some n') -> n' <> n) ->
  forall order,
    only (fun a => target a <> Some n)
      (fillLoop P host sc rowIndex data transactionType skip order).
Proof.
  intros Hblank Hflag Hother. induction order as [|k rest IH]; cbn [fillLoop].
  - apply only_ret.
  - apply only_bind; [apply only_gets|]. intros [|]; [apply only_ret|].
    destruct (mem k skip); [apply IH|].
    destruct (has_key k data); cbn [negb]; [|apply IH].
    destruct (isBlank (data_get data k)) eqn:Hb; [apply IH|].
    assert (Hk : k <> key) by (intros ->; congruence).
    apply only_bind; [|intros _; apply IH].
    apply only_fillOneField.
    + intros n' Hn'. pose proof (Hother k n' Hk Hn') as Hne.
      split; [intros a Ha _; rewrite Ha | cbn]; congruence.
    + intros a Ha _. rewrite Ha. congruence.
    + intros a Ha. rewrite Ha. discriminate.
Qed.

(** The end of [fillRow]: the page's own number formatting, if it has one. *)
Definition fixDecimals : @M H unit :=
  bind (gets (fun st => hasFunction host (page st) "fixNumberDecimal"))
    (fun hasFn =>
       if hasFn then
         bind (perform P host
                 (AHostFn "fixNumberDecimal" [VStr (js "number"); VStr (js "all")]))
           (fun t =>
              match t with
              | Some _ => ret tt
              | None =>
                  bind (perform P host
                          (AHostFn "fixNumberDecimal" [VStr (js "text"); VStr (js "all")]))
                    (fun _ => ret tt)
              end)
       else ret tt).

Lemma fillRow_unfold (rowIndex : Z) (data : Row) (transactionType : string)
  (isStockItem : bool) (order : list string) :
  getFieldFillOrder sc transactionType = inr order ->
  fillRow P host sc rowIndex data transactionType isStockItem
  = bind (fillLoop P host sc rowIndex data transactionType (fieldsToSkip isStockItem) order)
      (fun _ => fixDecimals).
Proof. intro Ho. unfold fillRow. rewrite Ho. reflexivity. Qed.

Lemma only_fixDecimals (R : Act -> Prop) : untargeted R -> only R fixDecimals.
Proof. intro HR. unfold fixDecimals. repeat only_step; now apply HR. Qed.

(** C9. A field whose value in the record is null, undefined or a string of
    white space is skipped: the row is filled exactly as if the record did
    not have the field, and no action at all (no write, no focus, no event)
    is on the element of that field, as long as no other field and no flag
    of the row has the same element. *)
Theorem fillRow_skips_blank (rowIndex : Z) (data : Row) (transactionType : string)
  (isStockItem : bool) (key : string) (st : @St H) :
  isBlank (data_get data key) = true ->
  fillRow P host sc rowIndex data transactionType isStockItem st
  = fillRow P host sc rowIndex (remove_key key data) transactionType isStockItem st
  /\ (forall n,
        getColumnName sc rowIndex key transactionType = inr (Some n) ->
        n <> flagName rowIndex ->
        (forall k' n', k' <> key ->
           getColumnName sc rowIndex k' transactionType = inr (Some n') -> n' <> n) ->
        exists l,
          log (snd (fillRow P host sc rowIndex data transactionType isStockItem st))
          = log st ++ l
          /\ Forall (fun a => target a <> Some n) l).
Proof.
  intro Hblank. split.
  - destruct (getFieldFillOrder sc transactionType) as [e|order] eqn:Ho.
    + unfold fillRow. now rewrite Ho.
    + rewrite (fillRow_unfold rowIndex data transactionType isStockItem order Ho).
      rewrite (fillRow_unfold rowIndex (remove_key key data) transactionType isStockItem
                 order Ho).
      unfold bind at 1 2.
      now rewrite (fillLoop_blank_absent rowIndex data transactionType _ key Hblank).
  - intros n Hn Hflag Hother.
    assert (Honly : only (fun a => target a <> Some n)
                      (fillRow P host sc rowIndex data transactionType isStockItem)).
    { unfold fillRow. destruct (getFieldFillOrder sc transactionType) as [e|order];
        [apply only_throw|].
      apply only_bind;
        [exact (fillLoop_blank_untouched rowIndex data transactionType _ key n
                  Hblank Hflag Hother order)|].
      intros _.
      apply only_fixDecimals. intros a Ha. rewrite Ha. discriminate. }
    apply Honly.
Qed.

(** One turn of the loop of [$addRows]. *)
Lemma rowsLoop_cons (transactionType : string) (onProgress : bool) (totalRows : Z)
  (payload : Row) (rest : list Row) (i : Z) (acc : list (option Z)) (st : @St H) :
  rowsLoop P cfg host sc transactionType onProgress totalRows (payload :: rest) i acc st
  = if aborted st then (inr acc, st)
    else
      match addOneRowAndFill P cfg host sc payload transactionType st with
      | (inl e, st1) => (inl e, st1)
      | (inr id, st1) =>
          if aborted st1 then (inr (acc ++ [id]), st1)
          else
            match (if onProgress then call P host (AProgress (i + 1) totalRows)
                   else ret tt) st1 with
            | (inl e, st2) => (inl e, st2)
            | (inr _, st2) =>
                rowsLoop P cfg host sc transactionType onProgress totalRows rest (i + 1)
                  (acc ++ [id]) st2
            end
      end.
Proof.
  cbn [rowsLoop]. unfold bind, isAborted, gets, ret.
  destruct (aborted st); [reflexivity|].
  destruct (addOneRowAndFill P cfg host sc payload transactionType st) as [[e|id] st1];
    [reflexivity|].
  destruct (aborted st1); reflexivity.
Qed.

(** *** A page that raises no alert and throws nothing *)

Definition quiet : Prop :=
  (forall a h, r_alerts (react host a h) = [] /\ r_threw (react host a h) = None)
  /\ (forall ms h, t_alerts (tick host ms h) = [])
  /\ (forall k i h, s_alerts (search host k i h) = []).

Definition schema_present : Prop :=
  exists s fs tx, sc = Some s /\ fields s = Some fs /\ transactions s = Some tx.

(** From a state that is not aborted the computation returns, in a state
    that is not aborted. *)
Definition safe {A} (c : @M H A) : Prop :=
  forall st, aborted st = false -> exists a st', c st = (inr a, st') /\ aborted st' = false.

Lemma safe_ret {A} (a : A) : safe (@ret H A a).
Proof. intros st Hst. exists a, st. auto. Qed.

Lemma safe_gets {A} (f : @St H -> A) : safe (gets f).
Proof. intros st Hst. exists (f st), st. auto. Qed.

Lemma safe_bind {A B} (c : @M H A) (k : A -> @M H B) :
  safe c -> (forall a, safe (k a)) -> safe (bind c k).
Proof.
  intros Hc Hk st Hst. destruct (Hc st Hst) as [a [st1 [E1 H1]]].
  destruct (Hk a st1 H1) as [b [st2 [E2 H2]]].
  exists b, st2. unfold bind. rewrite E1. auto.
Qed.

Section Quiet.
Hypothesis Hquiet : quiet.
Hypothesis Hschema : schema_present.

Lemma perform_quiet (a : Act) (st : @St H) :
  perform P host a st
  = (inr None, {| page := r_host (react host a (page st)); aborted := aborted st;
                  lastMsg := lastMsg st; log := log st ++ [a] |}).
Proof.
  destruct Hquiet as [Hr _]. destruct (Hr a (page st)) as [Ha Ht].
  unfold perform. now rewrite Ha, Ht.
Qed.

Lemma safe_perform (a : Act) : safe (perform P host a).
Proof.
  intros st Hst. rewrite perform_quiet. eexists _, _. split; [reflexivity | exact Hst].
Qed.

Lemma safe_call (a : Act) : safe (call P host a).
Proof.
  intros st Hst. unfold call, bind. rewrite perform_quiet. unfold ret.
  eexists _, _. split; [reflexivity | exact Hst].
Qed.

Lemma safe_elapse (ms : Z) : safe (elapse P host ms).
Proof.
  destruct Hquiet as [_ [Ht _]]. intros st Hst. unfold elapse. rewrite Ht.
  eexists _, _. split; [reflexivity | exact Hst].
Qed.

Lemma safe_try_finally {A} (c : @M H A) (f : @M H unit) :
  safe c -> safe f -> safe (try_finally c f).
Proof.
  intros Hc Hf st Hst. destruct (Hc st Hst) as [a [st1 [E1 H1]]].
  destruct (Hf st1 H1) as [u [st2 [E2 H2]]].
  exists a, st2. unfold try_finally. rewrite E1, E2. auto.
Qed.

Ltac safe_step :=
  match goal with
  | |- safe (bind _ _) => apply safe_bind; [|intros]
  | |- safe (ret _) => apply safe_ret
  | |- safe (gets _) => apply safe_gets
  | |- safe isAborted => apply safe_gets
  | |- safe (find_by_name _ _) => apply safe_gets
  | |- safe (live _ _ _) => apply safe_gets
  | |- safe (elapse _ _ _) => apply safe_elapse
  | |- safe (perform _ _ _) => apply safe_perform
  | |- safe (call _ _ _) => apply safe_call
  | |- safe (dom _ _ _) => unfold dom
  | |- safe (try_finally _ _) => apply safe_try_finally
  | |- safe (fireFocusEvent _ _ _) => unfold fireFocusEvent
  | |- safe (fireBlurEvent _ _ _) => unfold fireBlurEvent
  | |- safe (setValueDirectly _ _ _ _ _) => unfold setValueDirectly
  | |- safe (clickCheckboxLikeHuman _ _ _ _ _) => unfold clickCheckboxLikeHuman
  | |- safe (typeFocusBlur _ _ _ _ _) => unfold typeFocusBlur
  | |- safe (ensurePriceListExists _ _ _) => unfold ensurePriceListExists, ensureListExists
  | |- safe (ensureUomListExists _ _ _) => unfold ensureUomListExists, ensureListExists
  | |- safe (if ?b then _ else _) => destruct b
  | |- safe (match ?x with _ => _ end) => destruct x
  end.

Lemma safe_sleepLoop (fuel : nat) :
  forall milliseconds waited, safe (sleepLoop P host fuel milliseconds waited).
Proof.
  induction fuel as [|fuel IH]; intros ms waited; cbn [sleepLoop]; repeat safe_step; auto.
Qed.

Lemma safe_sleepAbortable (ms : Z) : safe (sleepAbortable P host ms).
Proof. unfold sleepAbortable. repeat safe_step. apply safe_sleepLoop. Qed.

Lemma safe_suppressHandlers (n : jstr) (el : Element) :
  forall attrs, safe (suppressHandlers P host n el attrs).
Proof.
  induction attrs as [|a attrs IH]; cbn [suppressHandlers]; repeat safe_step; auto.
Qed.

Lemma safe_restoreHandlers (n : jstr) :
  forall orig, safe (restoreHandlers P host n orig).
Proof.
  induction orig as [|[a v] orig IH]; cbn [restoreHandlers]; repeat safe_step; auto.
Qed.

Lemma getColumnName_present (rowIndex : Z) (key : string) (transactionType : string) :
  exists r, getColumnName sc rowIndex key transactionType = inr r.
Proof.
  destruct Hschema as [s [fs [tx [-> [Hf Ht]]]]].
  unfold getColumnName, getAllowedKeys, getColumnConfigs. rewrite Hf, Ht.
  destruct (negb _); eauto. destruct (lookup key _); eauto.
Qed.

Lemma getFieldFillOrder_present (transactionType : string) :
  exists order, getFieldFillOrder sc transactionType = inr order.
Proof.
  destruct Hschema as [s [fs [tx [-> [Hf Ht]]]]].
  unfold getFieldFillOrder, getAllowedKeys. rewrite Hf, Ht. eauto.
Qed.

Lemma safe_fillOneField (rowIndex : Z) (key : string) (value : JsValue)
  (transactionType : string) :
  safe (fillOneField P host sc rowIndex key value transactionType).
Proof.
  unfold fillOneField.
  destruct (getColumnName_present rowIndex key transactionType) as [[n|] ->];
    [|apply safe_ret].
  unfold withSuppressedInlineHandlers.
  repeat first [ safe_step | apply safe_sleepAbortable | apply safe_suppressHandlers
               | apply safe_restoreHandlers ].
Qed.

Lemma safe_fillLoop (rowIndex : Z) (data : Row) (transactionType : string)
  (skip : list string) :
  forall order, safe (fillLoop P host sc rowIndex data transactionType skip order).
Proof.
  induction order as [|key rest IH]; cbn [fillLoop];
    repeat first [ safe_step | apply safe_fillOneField ]; auto.
Qed.

Lemma safe_fillRow (rowIndex : Z) (data : Row) (transactionType : string)
  (isStockItem : bool) :
  safe (fillRow P host sc rowIndex data transactionType isStockItem).
Proof.
  destruct (getFieldFillOrder_present transactionType) as [order Ho].
  rewrite (fillRow_unfold rowIndex data transactionType isStockItem order Ho).
  apply safe_bind; [apply safe_fillLoop|]. intros _. unfold fixDecimals.
  repeat safe_step.
Qed.

Lemma safe_stableLoop (fuel : nat) :
  forall stableMs quiet0, safe (stableLoop P host fuel stableMs quiet0).
Proof.
  induction fuel as [|fuel IH]; intros stableMs quiet0; cbn [stableLoop];
    repeat safe_step; auto.
Qed.

Lemma safe_pollRow (fuel : nat) :
  forall interval rowIndex hasHidden, safe (pollRow P host fuel interval rowIndex hasHidden).
Proof.
  induction fuel as [|fuel IH]; intros interval rowIndex hasHidden; cbn [pollRow];
    repeat safe_step; auto.
Qed.

Lemma safe_pollLatest (fuel : nat) :
  forall attempts initialRowIndex, safe (pollLatest P host fuel attempts initialRowIndex).
Proof.
  induction fuel as [|fuel IH]; intros attempts initialRowIndex; cbn [pollLatest];
    repeat safe_step; auto.
Qed.

Lemma safe_autoSearchStockCode (key : JsValue) (rowIndex : Z) :
  safe (autoSearchStockCode P host key rowIndex).
Proof.
  unfold autoSearchStockCode. destruct key as [| | | |[|c k]| |]; try apply safe_ret.
  apply safe_bind; [apply safe_gets|]. intros [|]; [apply safe_ret|].
  destruct Hquiet as [_ [_ Hs]]. intros st Hst. rewrite Hs.
  eexists _, _. split; [reflexivity | exact Hst].
Qed.

Lemma safe_createRow (payload : Row) : safe (createRow P cfg host payload).
Proof.
  unfold createRow, waitForRowToBeShown.
  repeat first [ safe_step | apply safe_autoSearchStockCode | apply safe_pollLatest
               | apply safe_pollRow ].
Qed.

(** The result of [addOneRowAndFill] is the index [createRow] obtained, and
    null exactly when it obtained none. *)
Lemma addOneRowAndFill_quiet (payload : Row) (transactionType : string) (st : @St H) :
  aborted st = false ->
  exists id st',
    addOneRowAndFill P cfg host sc payload transactionType st = (inr id, st')
    /\ aborted st' = false
    /\ (id = None <-> fst (createRow P cfg host payload st) = inr None).
Proof.
  intro Hst. unfold addOneRowAndFill, bind at 1.
  destruct (safe_createRow payload st Hst) as [created [st1 [E1 H1]]]. rewrite E1.
  destruct created as [[newRowIndex isStockItem]|].
  - assert (Hrest : safe (bind (waitForDomStable P host (domStablePre cfg) (stableMsPre cfg))
                (fun _ => bind (fillRow P host sc newRowIndex payload transactionType
                                  isStockItem)
                   (fun _ => bind (waitForDomStable P host (domStablePost cfg)
                                     (stableMsPost cfg))
                      (fun _ => ret (Some newRowIndex)))))).
    { unfold waitForDomStable.
      repeat first [ safe_step | apply safe_stableLoop | apply safe_fillRow ]. }
    destruct (Hrest st1 H1) as [a [st2 [E2 H2]]].
    assert (Ea : a = Some newRowIndex).
    { clear -E2. unfold bind in E2.
      destruct (waitForDomStable P host (domStablePre cfg) (stableMsPre cfg) st1)
        as [[e|u] s1]; [discriminate|].
      destruct (fillRow P host sc newRowIndex payload transactionType isStockItem s1)
        as [[e|u'] s2]; [discriminate|].
      destruct (waitForDomStable P host (domStablePost cfg) (stableMsPost cfg) s2)
        as [[e|u''] s3]; [discriminate|].
      unfold ret in E2. now inversion E2. }
    subst a. exists (Some newRowIndex), st2. rewrite E2. cbn [fst].
    repeat split; auto; intro E; discriminate.
  - exists None, st1. cbn [fst]. repeat split; auto.
Qed.

(** One record of the batch, on such a page: the loop goes on to the next
    record with the result of this one appended. *)
Lemma rowsLoop_step (transactionType : string) (onProgress : bool) (totalRows : Z)
  (payload : Row) (i : Z) (acc : list (option Z)) (st : @St H) :
  aborted st = false ->
  exists id st',
    aborted st' = false
    /\ (id = None <-> fst (createRow P cfg host payload st) = inr None)
    /\ forall rest,
         rowsLoop P cfg host sc transactionType onProgress totalRows (payload :: rest) i acc st
         = rowsLoop P cfg host sc transactionType onProgress totalRows rest (i + 1)
             (acc ++ [id]) st'.
Proof.
  intro Hst.
  destruct (addOneRowAndFill_quiet payload transactionType st Hst) as [id [st1 [E1 [H1 Hid]]]].
  assert (Hp : safe (if onProgress then call P host (AProgress (i + 1) totalRows)
                     else ret tt))
    by (destruct onProgress; [apply safe_call | apply safe_ret]).
  destruct (Hp st1 H1) as [u [st2 [E2 H2]]].
  exists id, st2. repeat split; try apply Hid; auto.
  intro rest. now rewrite rowsLoop_cons, Hst, E1, H1, E2.
Qed.

(** The batch on such a page: one result per record, null exactly for the
    records whose row could not be created. *)
Lemma rowsLoop_profile (transactionType : string) (onProgress : bool) (totalRows : Z)
  (k : nat) :
  forall rows i acc st off,
    aborted st = false ->
    (forall pre payload post ids st',
        rows = pre ++ payload :: post ->
        rowsLoop P cfg host sc transactionType onProgress totalRows pre i acc st
        = (inr ids, st') ->
        (fst (createRow P cfg host payload st') = inr None <-> (off + length pre)%nat = k)) ->
    exists ids st',
      rowsLoop P cfg host sc transactionType onProgress totalRows rows i acc st
      = (inr (acc ++ ids), st')
      /\ aborted st' = false
      /\ length ids = length rows
      /\ forall j o, nth_error ids j = Some o -> (o = None <-> (off + j)%nat = k).
Proof.
  induction rows as [|payload rest IH]; intros i acc st off Hst Hprof.
  - exists [], st. cbn [rowsLoop length]. unfold ret. rewrite app_nil_r.
    split; [reflexivity|]. split; [exact Hst|]. split; [reflexivity|].
    intros [|j] o Hj; discriminate.
  - destruct (@rowsLoop_step transactionType onProgress totalRows payload i acc st Hst)
      as [id [st1 [H1 [Hid Hstep]]]].
    destruct (IH (i + 1)%Z (acc ++ [id]) st1 (S off) H1) as [ids [st' [E [H' [Hlen Hnth]]]]].
    { intros pre p post ids' st'' Hrows Hrun.
      rewrite <- (Hstep pre) in Hrun.
      rewrite (Hprof (payload :: pre) p post ids' st''); [cbn [length]; lia | | exact Hrun].
      now rewrite Hrows. }
    exists (id :: ids), st'. rewrite Hstep, E, <- app_assoc. cbn [app length].
    split; [reflexivity|]. split; [exact H'|]. split; [now rewrite Hlen|].
    pose proof (Hprof [] payload rest acc st eq_refl eq_refl) as Hhead.
    cbn [length] in Hhead.
    intros [|j] o Hj; cbn [nth_error] in Hj.
    + inversion Hj; subst o. rewrite Hid, Hhead. lia.
    + rewrite (Hnth j o Hj). lia.
Qed.

(** *** What a run on a quiet page writes *)

(** The page shows an element of that name, whatever else happens on it. *)
Definition present (n : jstr) : Prop := forall h, getElementByName host h n <> None.

(** From a state that is not aborted the computation returns a result that
    satisfies [R], in a state that is not aborted, and the elements it
    focused on the way are [ns], in that order. *)
Definition focuses {A} (R : A -> Prop) (ns : list jstr) (c : @M H A) : Prop :=
  forall st, aborted st = false ->
    exists a st' l, c st = (inr a, st') /\ aborted st' = false
                    /\ log st' = log st ++ l /\ R a /\ focus_seq l = ns.

Definition anything {A} (a : A) : Prop := True.

Lemma focuses_of_safe {A} (ns : list jstr) (c : @M H A) :
  safe c -> extends (fun l => focus_seq l = ns) c -> focuses anything ns c.
Proof.
  intros Hs He st Hst. destruct (Hs st Hst) as [a [st' [E Ha]]].
  destruct (He st) as [l [Hl HQ]]. rewrite E in Hl. cbn [snd] in Hl.
  exists a, st', l. unfold anything. auto.
Qed.

Lemma focuses_nothing {A} (c : @M H A) : safe c -> no_focus c -> focuses anything [] c.
Proof.
  intros Hs Hn. apply focuses_of_safe; [exact Hs|].
  eapply extends_weaken; [|exact Hn]. intros l Hl. now apply focus_seq_none.
Qed.

Lemma focuses_bind {A B} (R1 : A -> Prop) (R2 : B -> Prop) (ns1 ns2 : list jstr)
  (c : @M H A) (k : A -> @M H B) :
  focuses R1 ns1 c -> (forall a, R1 a -> focuses R2 ns2 (k a)) ->
  focuses R2 (ns1 ++ ns2) (bind c k).
Proof.
  intros Hc Hk st Hst. destruct (Hc st Hst) as [a [st1 [l1 [E1 [A1 [L1 [HR1 F1]]]]]]].
  destruct (Hk a HR1 st1 A1) as [b [st2 [l2 [E2 [A2 [L2 [HR2 F2]]]]]]].
  exists b, st2, (l1 ++ l2). unfold bind. rewrite E1.
  repeat split; auto.
  - now rewrite L2, L1, app_assoc.
  - now rewrite focus_seq_app, F1, F2.
Qed.

Lemma focuses_then {A B} (R1 : A -> Prop) (R2 : B -> Prop) (ns : list jstr)
  (c : @M H A) (k : A -> @M H B) :
  focuses R1 [] c -> (forall a, R1 a -> focuses R2 ns (k a)) -> focuses R2 ns (bind c k).
Proof. intros Hc Hk. exact (@focuses_bind _ _ R1 R2 [] ns c k Hc Hk). Qed.

Lemma focuses_isAborted : focuses (fun a => a = false) [] (@isAborted H).
Proof.
  intros st Hst. exists false, st, []. unfold isAborted, gets. rewrite Hst, app_nil_r. auto.
Qed.

Lemma focuses_find (n : jstr) :
  present n -> focuses (fun r => r <> None) [] (find_by_name host n).
Proof.
  intros Hp st Hst. exists (getElementByName host (page st) n), st, [].
  unfold find_by_name, gets. rewrite app_nil_r. auto.
Qed.

Ltac safe_tac :=
  unfold withSuppressedInlineHandlers;
  repeat first [ safe_step | apply safe_sleepAbortable | apply safe_suppressHandlers
               | apply safe_restoreHandlers ].

Ltac focus_then_quiet :=
  apply focuses_of_safe;
  [ safe_tac
  | apply exactly_then_none; [apply exactly_fireFocusEvent | intros _; no_focus_tac] ].

(** On a quiet page that has the element, [fillOneField] returns and has
    focused the element of its field exactly once. *)
Lemma fillOneField_writes (rowIndex : Z) (key : string) (value : JsValue)
  (transactionType : string) (n : jstr) :
  getColumnName sc rowIndex key transactionType = inr (Some n) ->
  present n ->
  focuses anything [n] (fillOneField P host sc rowIndex key value transactionType).
Proof.
  intros Hn Hp. unfold fillOneField. rewrite Hn.
  apply (@focuses_then _ _ _ _ _ _ _ focuses_isAborted). intros a ->.
  destruct (String.eqb key "gst").
  - apply (@focuses_then _ _ _ _ _ _ _ (focuses_find n Hp)).
    intros [el|] Hel; [|congruence]. focus_then_quiet.
  - apply (@focuses_then _ _ anything anything).
    { apply focuses_nothing; [safe_tac | destruct (key_in key _); no_focus_tac]. }
    intros _ _. apply (@focuses_then _ _ anything anything).
    { apply focuses_nothing; [safe_tac | destruct (key_in key _); no_focus_tac]. }
    intros _ _. apply (@focuses_then _ _ _ _ _ _ _ (focuses_find n Hp)).
    intros [el|] Hel; [|congruence].
    destruct (key_in key _ && _); [focus_then_quiet|].
    destruct (negb (e_visible el) || _); [focus_then_quiet|].
    destruct (key_in key _).
    { apply (@focuses_then _ _ anything anything).
      - apply focuses_nothing; [safe_tac | no_focus_tac].
      - intros _ _. focus_then_quiet. }
    unfold typeFocusBlur.
    apply (@focuses_then _ _ anything anything).
    { apply focuses_nothing; [safe_tac | no_focus_tac]. }
    intros _ _. apply (@focuses_then _ _ anything anything).
    { apply focuses_nothing; [safe_tac | no_focus_tac]. }
    intros _ _. apply (@focuses_then _ _ _ _ _ _ _ focuses_isAborted). intros a ->.
    focus_then_quiet.
Qed.

(** On a quiet page that has the elements of the plan, the loop focuses
    exactly those, in the canonical order. *)
Lemma fillLoop_writes (rowIndex : Z) (data : Row) (transactionType : string)
  (skip : list string) :
  forall order,
    (forall key n, In key (fillPlan skip data order) ->
       getColumnName sc rowIndex key transactionType = inr (Some n) -> present n) ->
    focuses anything (dom_names rowIndex transactionType (fillPlan skip data order))
      (fillLoop P host sc rowIndex data transactionType skip order).
Proof.
  induction order as [|key rest IH]; intro Hp; cbn [fillLoop].
  - apply focuses_nothing; [apply safe_ret | apply only_ret].
  - apply (@focuses_then _ _ _ _ _ _ _ focuses_isAborted). intros a ->.
    revert Hp. unfold fillPlan. cbn [filter]. fold (fillPlan skip data rest).
    destruct (mem key skip); cbn [negb andb]; [exact IH|].
    destruct (has_key key data); cbn [negb andb]; [|exact IH].
    destruct (isBlank (data_get data key)); cbn [negb]; [exact IH|].
    intro Hp. rewrite dom_names_cons.
    apply (@focuses_bind _ _ anything anything).
    + unfold dom_names. cbn [flat_map]. rewrite app_nil_r.
      destruct (getColumnName sc rowIndex key transactionType) as [e|[n|]] eqn:Hn.
      * destruct (getColumnName_present rowIndex key transactionType) as [r Hr]. congruence.
      * apply (fillOneField_writes _ _ _ _ _ Hn). apply (Hp key n); [now left | exact Hn].
      * unfold fillOneField. rewrite Hn. apply focuses_nothing; [apply safe_ret | apply only_ret].
    + intros _ _. apply IH. intros k n Hk. apply Hp. now right.
Qed.

Lemma fillRow_writes (rowIndex : Z) (data : Row) (transactionType : string)
  (isStockItem : bool) (order : list string) :
  getFieldFillOrder sc transactionType = inr order ->
  (forall key n, In key (fillPlan (fieldsToSkip isStockItem) data order) ->
     getColumnName sc rowIndex key transactionType = inr (Some n) -> present n) ->
  focuses anything
    (dom_names rowIndex transactionType (fillPlan (fieldsToSkip isStockItem) data order))
    (fillRow P host sc rowIndex data transactionType isStockItem).
Proof.
  intros Ho Hp. rewrite (fillRow_unfold rowIndex data transactionType isStockItem order Ho).
  rewrite <- (app_nil_r (dom_names _ _ _)).
  apply (@focuses_bind _ _ anything anything); [now apply fillLoop_writes|].
  intros _ _. apply focuses_nothing.
  - unfold fixDecimals. repeat safe_step.
  - apply only_fixDecimals, untargeted_not_focus.
Qed.

End Quiet.

Lemma fillOrder_schema_present (transactionType : string) (order : list string) :
  getFieldFillOrder sc transactionType = inr order -> schema_present.
Proof.
  unfold getFieldFillOrder, getAllowedKeys, schema_present.
  destruct sc as [s|]; [|discriminate].
  destruct (fields s) as [fs|] eqn:Hf; [|discriminate].
  destruct (transactions s) as [tx|] eqn:Ht; [|discriminate].
  intros _. exists s, fs, tx. auto.
Qed.


Lemma rowsLoop_aborted (transactionType : string) (onProgress : bool) (totalRows : Z)
  (rows : list Row) (i : Z) (acc : list (option Z)) (st : @St H) :
  aborted st = true ->
  rowsLoop P cfg host sc transactionType onProgress totalRows rows i acc st = (inr acc, st).
Proof.
  intro Hst. destruct rows as [|payload rest]; [reflexivity|].
  now rewrite rowsLoop_cons, Hst.
Qed.

(** The loop over a list is the loop over its first part followed by the
    loop over the rest. *)
Lemma rowsLoop_app (transactionType : string) (onProgress : bool) (totalRows : Z)
  (l2 : list Row) :
  forall l1 i acc st,
    rowsLoop P cfg host sc transactionType onProgress totalRows (l1 ++ l2) i acc st
    = match rowsLoop P cfg host sc transactionType onProgress totalRows l1 i acc st with
      | (inr acc', st') =>
          rowsLoop P cfg host sc transactionType onProgress totalRows l2
            (i + Z.of_nat (length l1)) acc' st'
      | (inl e, st') => (inl e, st')
      end.
Proof.
  induction l1 as [|payload l1 IH]; intros i acc st.
  - cbn [app length rowsLoop]. unfold ret. now rewrite Z.add_0_r.
  - cbn [app]. rewrite !rowsLoop_cons.
    destruct (aborted st) eqn:Hst; [now rewrite rowsLoop_aborted|].
    destruct (addOneRowAndFill P cfg host sc payload transactionType st) as [[e|id] st1];
      [reflexivity|].
    destruct (aborted st1) eqn:Hst1; [now rewrite rowsLoop_aborted|].
    destruct ((if onProgress then call P host (AProgress (i + 1) totalRows) else ret tt) st1)
      as [[e|u] st2]; [reflexivity|].
    rewrite IH. replace (i + 1 + Z.of_nat (length l1))%Z
      with (i + Z.of_nat (length (payload :: l1)))%Z by (cbn [length]; lia).
    reflexivity.
Qed.

(** The trap keeps the message of the last alert. *)
Lemma trapAlerts_last (msgs : list JsValue) (m : JsValue) (st : @St H) :
  aborted (trapAlerts P (msgs ++ [m]) st) = true
  /\ lastMsg (trapAlerts P (msgs ++ [m]) st) = toStr P (if nullish m then VStr [] else m).
Proof. unfold trapAlerts. rewrite fold_left_app. cbn. auto. Qed.


(** C2 (as the code has it).  If the abort flag, clear after the records
    before [payload], is set when [addOneRowAndFill] returns for [payload],
    the call rejects with the abort error made of the last alert message;
    its final state is the state in which that record ended, so nothing is
    done for any later record, no row creation in particular; and the
    results gathered so far, [ids ++ [id]], are what the loop returned and
    the trap dropped. *)
Theorem addRows_alert_abort (pre : list Row) (payload : Row) (post : list Row)
  (onProgress : bool) (transactionType : string) (h : H)
  (ids : list (option Z)) (st : @St H) (id : option Z) (st' : @St H) :
  rowsLoop P cfg host sc transactionType onProgress
    (Z.of_nat (length (pre ++ payload :: post))) pre 0 [] (start h) = (inr ids, st) ->
  aborted st = false ->
  addOneRowAndFill P cfg host sc payload transactionType st = (inr id, st') ->
  aborted st' = true ->
  addRows P cfg host sc (pre ++ payload :: post) onProgress transactionType h
  = (Rejected (abortError (lastMsg st')), st')
  /\ rowsLoop P cfg host sc transactionType onProgress
       (Z.of_nat (length (pre ++ payload :: post))) (pre ++ payload :: post) 0 [] (start h)
     = (inr (ids ++ [id]), st').
Proof.
  intros Hpre Hst Hrec Hst'.
  assert (Hrun : rowsLoop P cfg host sc transactionType onProgress
                   (Z.of_nat (length (pre ++ payload :: post))) (pre ++ payload :: post)
                   0 [] (start h) = (inr (ids ++ [id]), st')).
  { now rewrite rowsLoop_app, Hpre, rowsLoop_cons, Hst, Hrec, Hst'. }
  split; [|exact Hrun].
  unfold addRows. destruct (pre ++ payload :: post) as [|r0 rows'] eqn:E.
  - destruct pre; discriminate.
  - unfold withAlertTrap. now rewrite Hrun, Hst'.
Qed.

(** *** What can make the batch fail *)

(** The computation returns, whatever the page does. *)
Definition returns {A} (c : @M H A) : Prop := forall st, exists a st', c st = (inr a, st').

Lemma returns_ret {A} (a : A) : returns (@ret H A a).
Proof. intro st. now exists a, st. Qed.

Lemma returns_gets {A} (f : @St H -> A) : returns (gets f).
Proof. intro st. now exists (f st), st. Qed.

Lemma returns_bind {A B} (c : @M H A) (k : A -> @M H B) :
  returns c -> (forall a, returns (k a)) -> returns (bind c k).
Proof.
  intros Hc Hk st. destruct (Hc st) as [a [st1 E1]]. destruct (Hk a st1) as [b [st2 E2]].
  exists b, st2. unfold bind. now rewrite E1.
Qed.

Lemma returns_perform (a : Act) : returns (perform P host a).
Proof. intro st. unfold perform. eauto. Qed.

Lemma returns_elapse (ms : Z) : returns (elapse P host ms).
Proof. intro st. unfold elapse. eauto. Qed.

Lemma returns_try_finally {A} (c : @M H A) (f : @M H unit) :
  returns c -> returns f -> returns (try_finally c f).
Proof.
  intros Hc Hf st. destruct (Hc st) as [a [st1 E1]]. destruct (Hf st1) as [u [st2 E2]].
  exists a, st2. unfold try_finally. now rewrite E1, E2.
Qed.

Ltac returns_step :=
  match goal with
  | |- returns (bind _ _) => apply returns_bind; [|intros]
  | |- returns (ret _) => apply returns_ret
  | |- returns (gets _) => apply returns_gets
  | |- returns isAborted => apply returns_gets
  | |- returns (find_by_name _ _) => apply returns_gets
  | |- returns (live _ _ _) => apply returns_gets
  | |- returns (elapse _ _ _) => apply returns_elapse
  | |- returns (perform _ _ _) => apply returns_perform
  | |- returns (dom _ _ _) => unfold dom
  | |- returns (try_finally _ _) => apply returns_try_finally
  | |- returns (fireFocusEvent _ _ _) => unfold fireFocusEvent
  | |- returns (fireBlurEvent _ _ _) => unfold fireBlurEvent
  | |- returns (setValueDirectly _ _ _ _ _) => unfold setValueDirectly
  | |- returns (clickCheckboxLikeHuman _ _ _ _ _) => unfold clickCheckboxLikeHuman
  | |- returns (typeFocusBlur _ _ _ _ _) => unfold typeFocusBlur
  | |- returns (ensurePriceListExists _ _ _) => unfold ensurePriceListExists, ensureListExists
  | |- returns (ensureUomListExists _ _ _) => unfold ensureUomListExists, ensureListExists
  | |- returns (withSuppressedInlineHandlers _ _ _ _ _) => unfold withSuppressedInlineHandlers
  | |- returns (if ?b then _ else _) => destruct b
  | |- returns (match ?x with _ => _ end) => destruct x
  end.

Lemma returns_sleepLoop (fuel : nat) :
  forall milliseconds waited, returns (sleepLoop P host fuel milliseconds waited).
Proof.
  induction fuel as [|fuel IH]; intros ms waited; cbn [sleepLoop]; repeat returns_step; auto.
Qed.

Lemma returns_sleepAbortable (ms : Z) : returns (sleepAbortable P host ms).
Proof. unfold sleepAbortable. repeat returns_step. apply returns_sleepLoop. Qed.

Lemma returns_suppressHandlers (n : jstr) (el : Element) :
  forall attrs, returns (suppressHandlers P host n el attrs).
Proof.
  induction attrs as [|a attrs IH]; cbn [suppressHandlers]; repeat returns_step; auto.
Qed.

Lemma returns_restoreHandlers (n : jstr) :
  forall orig, returns (restoreHandlers P host n orig).
Proof.
  induction orig as [|[a v] orig IH]; cbn [restoreHandlers]; repeat returns_step; auto.
Qed.

Lemma returns_stableLoop (fuel : nat) :
  forall stableMs quiet0, returns (stableLoop P host fuel stableMs quiet0).
Proof.
  induction fuel as [|fuel IH]; intros stableMs quiet0; cbn [stableLoop];
    repeat returns_step; auto.
Qed.

Lemma returns_pollRow (fuel : nat) :
  forall interval rowIndex hasHidden,
    returns (pollRow P host fuel interval rowIndex hasHidden).
Proof.
  induction fuel as [|fuel IH]; intros interval rowIndex hasHidden; cbn [pollRow];
    repeat returns_step; auto.
Qed.

Lemma returns_pollLatest (fuel : nat) :
  forall attempts initialRowIndex, returns (pollLatest P host fuel attempts initialRowIndex).
Proof.
  induction fuel as [|fuel IH]; intros attempts initialRowIndex; cbn [pollLatest];
    repeat returns_step; auto.
Qed.

Lemma returns_autoSearchStockCode (key : JsValue) (rowIndex : Z) :
  returns (autoSearchStockCode P host key rowIndex).
Proof.
  unfold autoSearchStockCode. repeat returns_step. intro st. eauto.
Qed.

Lemma returns_createRow (payload : Row) : returns (createRow P cfg host payload).
Proof.
  unfold createRow, waitForRowToBeShown.
  repeat first [ returns_step | apply returns_autoSearchStockCode | apply returns_pollLatest
               | apply returns_pollRow ].
Qed.

Section Installed.
Hypothesis Hschema : schema_present.

Lemma returns_fillOneField (rowIndex : Z) (key : string) (value : JsValue)
  (transactionType : string) :
  returns (fillOneField P host sc rowIndex key value transactionType).
Proof.
  unfold fillOneField.
  destruct (getColumnName_present Hschema rowIndex key transactionType) as [[n|] ->];
    [|apply returns_ret].
  repeat first [ returns_step | apply returns_sleepAbortable | apply returns_suppressHandlers
               | apply returns_restoreHandlers ].
Qed.

Lemma returns_fillLoop (rowIndex : Z) (data : Row) (transactionType : string)
  (skip : list string) :
  forall order, returns (fillLoop P host sc rowIndex data transactionType skip order).
Proof.
  induction order as [|key rest IH]; cbn [fillLoop];
    repeat first [ returns_step | apply returns_fillOneField ]; auto.
Qed.

Lemma returns_fillRow (rowIndex : Z) (data : Row) (transactionType : string)
  (isStockItem : bool) :
  returns (fillRow P host sc rowIndex data transactionType isStockItem).
Proof.
  destruct (getFieldFillOrder_present Hschema transactionType) as [order Ho].
  rewrite (fillRow_unfold rowIndex data transactionType isStockItem order Ho).
  apply returns_bind.
  - apply returns_fillLoop.
  - intros _. unfold fixDecimals. repeat returns_step.
Qed.

(** With the schema installed, nothing the page does makes the work on one
    record throw: exceptions of the page's own functions are caught. *)
Lemma returns_addOneRowAndFill (payload : Row) (transactionType : string) :
  returns (addOneRowAndFill P cfg host sc payload transactionType).
Proof.
  unfold addOneRowAndFill, waitForDomStable.
  repeat first [ returns_step | apply returns_createRow | apply returns_stableLoop
               | apply returns_fillRow ].
Qed.

(** An exception thrown by the progress callback. *)
Definition thrown_by_progress (totalRows : Z) (e : Exn) : Prop :=
  exists i h, r_threw (react host (AProgress i totalRows) h) = Some e.

Lemma rowsLoop_outcome (transactionType : string) (onProgress : bool) (totalRows : Z) :
  forall rows i acc st,
    match rowsLoop P cfg host sc transactionType onProgress totalRows rows i acc st with
    | (inr ids, st') =>
        exists more, ids = acc ++ more
                     /\ (length more = length rows
                         \/ (aborted st' = true /\ (length more <= length rows)%nat))
    | (inl e, st') => onProgress = true /\ thrown_by_progress totalRows e
    end.
Proof.
  induction rows as [|payload rest IH]; intros i acc st.
  - cbn. exists []. rewrite app_nil_r. auto.
  - rewrite rowsLoop_cons. destruct (aborted st) eqn:Hst.
    { exists []. rewrite app_nil_r. split; [reflexivity|]. right. cbn [length]. split; [auto|lia]. }
    destruct (returns_addOneRowAndFill payload transactionType st) as [id [st1 E1]].
    rewrite E1. destruct (aborted st1) eqn:Hst1.
    { exists [id]. split; [reflexivity|]. right. cbn [length]. split; [auto|lia]. }
    assert (Hnext : forall st2,
              match rowsLoop P cfg host sc transactionType onProgress totalRows rest (i + 1)
                      (acc ++ [id]) st2 with
              | (inr ids, st') =>
                  exists more, ids = acc ++ more
                     /\ (length more = length (payload :: rest)
                         \/ (aborted st' = true
                             /\ (length more <= length (payload :: rest))%nat))
              | (inl e, st') => onProgress = true /\ thrown_by_progress totalRows e
              end).
    { intro st2. specialize (IH (i + 1)%Z (acc ++ [id]) st2).
      destruct (rowsLoop P cfg host sc transactionType onProgress totalRows rest (i + 1)
                  (acc ++ [id]) st2) as [[e|ids] st']; [exact IH|].
      destruct IH as [more [-> Hlen]]. exists (id :: more).
      rewrite <- app_assoc. split; [reflexivity|]. cbn [length]. 
      destruct Hlen as [Hlen|[Ha Hlen]]; [left; lia | right; split; [auto|lia]]. }
    destruct onProgress.
    + unfold call, bind, perform, ret.
      destruct (r_threw (react host (AProgress (i + 1) totalRows) (page st1))) as [e|] eqn:Ht.
      * split; [reflexivity|]. exists (i + 1)%Z, (page st1). exact Ht.
      * apply Hnext.
    + unfold ret. apply Hnext.
Qed.


End Installed.

(** *** Rows made by the stock search *)

Definition remove_keys (ks : list string) (data : Row) : Row := fold_right remove_key data ks.

Lemma lookup_remove_keys (ks : list string) (k : string) (data : Row) :
  lookup k (remove_keys ks data) = if mem k ks then None else lookup k data.
Proof.
  induction ks as [|a ks IH]; [reflexivity|].
  cbn [remove_keys fold_right]. fold (remove_keys ks data).
  rewrite lookup_remove_key, IH. unfold mem. cbn [existsb]. fold (mem k ks).
  rewrite (String.eqb_sym k a). now destruct (String.eqb a k).
Qed.

Lemma fillLoop_skip_is_absence (rowIndex : Z) (data : Row) (transactionType : string)
  (skip : list string) :
  forall order st,
    fillLoop P host sc rowIndex data transactionType skip order st
    = fillLoop P host sc rowIndex (remove_keys skip data) transactionType [] order st.
Proof.
  induction order as [|k rest IH]; intro st; [reflexivity|].
  cbn [fillLoop]. unfold bind at 1 3. unfold isAborted, gets.
  destruct (aborted st); [reflexivity|].
  unfold has_key, data_get. rewrite lookup_remove_keys. cbn [mem existsb].
  destruct (mem k skip); [apply IH|].
  destruct (lookup k data) as [v|]; cbn [negb]; [|apply IH].
  destruct (isBlank v); [apply IH|].
  unfold bind. destruct (fillOneField P host sc rowIndex k v transactionType st)
    as [[e|u] st1]; [reflexivity | apply IH].
Qed.

(** X10. For a row that the stock search made, [fillRow] does exactly what
    it does, for a row of the other kind, with the record from which the
    properties [stkcode_code], [stkcode_desc] and [desc] have been taken
    away: these three keys are not written, every other key is written as
    usual. *)
Theorem fillRow_stock_item (rowIndex : Z) (data : Row) (transactionType : string)
  (st : @St H) :
  fillRow P host sc rowIndex data transactionType true st
  = fillRow P host sc rowIndex
      (remove_keys ["stkcode_code"; "stkcode_desc"; "desc"]%string data)
      transactionType false st.
Proof.
  unfold fillRow. destruct (getFieldFillOrder sc transactionType) as [e|order]; [reflexivity|].
  cbv zeta. unfold bind at 1 3.
  now rewrite fillLoop_skip_is_absence.
Qed.

(** *** The elements a record can reach *)

(** The fields [fillRow] writes for a record: none when the schema is not
    installed. *)
Definition planned (transactionType : string) (isStockItem : bool) (data : Row)
  : list string :=
  match getFieldFillOrder sc transactionType with
  | inr order => fillPlan (fieldsToSkip isStockItem) data order
  | inl _ => []
  end.

(** An action on no element, on the flag of the row, or on the element of
    one of the fields [ks] in that row. *)
Definition own_element (rowIndex : Z) (transactionType : string) (ks : list string)
  (a : Act) : Prop :=
  target a = None
  \/ target a = Some (flagName rowIndex)
  \/ exists key n, In key ks
                   /\ getColumnName sc rowIndex key transactionType = inr (Some n)
                   /\ target a = Some n.

Lemma fillLoop_own_elements (rowIndex : Z) (data : Row) (transactionType : string)
  (skip : list string) :
  forall order,
    only (own_element rowIndex transactionType (fillPlan skip data order))
      (fillLoop P host sc rowIndex data transactionType skip order).
Proof.
  induction order as [|k rest IH]; cbn [fillLoop].
  - apply only_ret.
  - apply only_bind; [apply only_gets|]. intros [|]; [apply only_ret|].
    unfold fillPlan. cbn [filter]. fold (fillPlan skip data rest).
    destruct (mem k skip); cbn [negb andb]; [apply IH|].
    destruct (has_key k data); cbn [negb andb]; [|apply IH].
    destruct (isBlank (data_get data k)); cbn [negb]; [apply IH|].
    apply only_bind.
    + apply only_fillOneField.
      * intros n Hn. split.
        -- intros a Ha _. right; right. exists k, n. split; [now left | auto].
        -- right; right. exists k, n. split; [now left | auto].
      * intros a Ha _. right; now left.
      * intros a Ha. now left.
    + intros _. eapply only_weaken; [|apply IH].
      intros a [Ha|[Ha|[key [n [Hin Hn]]]]]; [now left | right; now left |].
      right; right. exists key, n. split; [now right | exact Hn].
Qed.

Lemma fillPlan_In (skip : list string) (data : Row) (order : list string) (key : string) :
  In key (fillPlan skip data order) ->
  In key order /\ has_key key data = true /\ isBlank (data_get data key) = false.
Proof.
  unfold fillPlan. rewrite filter_In. intros [Hin Hp].
  apply andb_prop in Hp as [Hp Hb]. apply andb_prop in Hp as [_ Hk].
  apply negb_true_iff in Hb. auto.
Qed.

Lemma getFieldFillOrder_allowed (transactionType : string) (order : list string)
  (key : string) :
  getFieldFillOrder sc transactionType = inr order -> In key order ->
  exists allowed, getAllowedKeys sc transactionType = inr allowed /\ In key allowed.
Proof.
  unfold getFieldFillOrder. destruct sc as [s|]; [|discriminate].
  destruct (fields s) as [fs|]; [|discriminate].
  destruct (getAllowedKeys (Some s) transactionType) as [e|allowed]; [discriminate|].
  intros E Hin. inversion E; subst. apply filter_In in Hin as [_ Hm].
  exists allowed. split; [reflexivity | now apply mem_In].
Qed.


(** *** A record for which no row could be made *)

Lemma only_pollRow (R : Act -> Prop) (fuel : nat) :
  forall interval rowIndex hasHidden,
    only R (pollRow P host fuel interval rowIndex hasHidden).
Proof.
  induction fuel as [|fuel IH]; intros interval rowIndex hasHidden; cbn [pollRow];
    repeat only_step; auto.
Qed.

Lemma only_pollLatest (R : Act -> Prop) (fuel : nat) :
  forall attempts initialRowIndex,
    only R (pollLatest P host fuel attempts initialRowIndex).
Proof.
  induction fuel as [|fuel IH]; intros attempts initialRowIndex; cbn [pollLatest];
    repeat only_step; auto.
Qed.

Lemma only_createRow (R : Act -> Prop) (payload : Row) :
  untargeted R -> only R (createRow P cfg host payload).
Proof.
  intro HR. unfold createRow, waitForRowToBeShown, autoSearchStockCode.
  repeat first [ only_step | apply only_pollLatest | apply only_pollRow ];
    try (apply HR; reflexivity).
  intro st. eexists [_]. cbn [snd log]. rewrite trapAlerts_log. cbn [log].
  split; [reflexivity|]. constructor; [apply HR; reflexivity | constructor].
Qed.


(** *** Transaction types the schema does not list *)

(** The names every object inherits, which [schema.transactions[type]]
    finds although the schema does not list them. *)
Definition inherited_names : list string :=
  [ "constructor"; "__proto__"; "hasOwnProperty"; "isPrototypeOf"; "propertyIsEnumerable";
    "toLocaleString"; "toString"; "valueOf"; "__defineGetter__"; "__defineSetter__";
    "__lookupGetter__"; "__lookupSetter__" ]%string.

(** A transaction type that [schema.transactions] has no entry for. *)
Definition unlisted (transactionType : string) : Prop :=
  ~ In transactionType inherited_names
  /\ match sc with
     | Some s => match transactions s with
                 | Some tx => lookup transactionType tx = None
                 | None => True
                 end
     | None => True
     end.

Section Unlisted.
Variable transactionType : string.
Hypothesis Hun : unlisted transactionType.

Lemma getAllowedKeys_unlisted :
  getAllowedKeys sc transactionType = getAllowedKeys sc "default".
Proof.
  destruct Hun as [_ Hl]. unfold getAllowedKeys. destruct sc as [s|]; [|reflexivity].
  destruct (transactions s) as [tx|]; [|reflexivity]. rewrite Hl.
  destruct (fields s); [|reflexivity]. now destruct (lookup "default" tx).
Qed.

Lemma getColumnName_unlisted (rowIndex : Z) (key : string) :
  getColumnName sc rowIndex key transactionType = getColumnName sc rowIndex key "default".
Proof. unfold getColumnName. now rewrite getAllowedKeys_unlisted. Qed.

Lemma getFieldFillOrder_unlisted :
  getFieldFillOrder sc transactionType = getFieldFillOrder sc "default".
Proof.
  unfold getFieldFillOrder. destruct sc as [s|] eqn:Es; [|reflexivity].
  rewrite <- Es in *. now rewrite getAllowedKeys_unlisted.
Qed.

Lemma fillLoop_unlisted (rowIndex : Z) (data : Row) (skip : list string) :
  forall order st,
    fillLoop P host sc rowIndex data transactionType skip order st
    = fillLoop P host sc rowIndex data "default" skip order st.
Proof.
  induction order as [|k rest IH]; intro st; [reflexivity|].
  cbn [fillLoop]. unfold bind at 1 3. unfold isAborted, gets.
  destruct (aborted st); [reflexivity|].
  destruct (mem k skip); [apply IH|].
  destruct (negb (has_key k data)); [apply IH|].
  destruct (isBlank (data_get data k)); [apply IH|].
  unfold bind, fillOneField. rewrite getColumnName_unlisted.
  match goal with |- match ?c st with _ => _ end = _ => destruct (c st) as [[e|u] st1] end;
    [reflexivity | apply IH].
Qed.

Lemma fillRow_unlisted (rowIndex : Z) (data : Row) (isStockItem : bool) (st : @St H) :
  fillRow P host sc rowIndex data transactionType isStockItem st
  = fillRow P host sc rowIndex data "default" isStockItem st.
Proof.
  unfold fillRow. rewrite getFieldFillOrder_unlisted.
  destruct (getFieldFillOrder sc "default") as [e|order]; [reflexivity|].
  cbv zeta. unfold bind at 1 3. now rewrite fillLoop_unlisted.
Qed.

Lemma addOneRowAndFill_unlisted (payload : Row) (st : @St H) :
  addOneRowAndFill P cfg host sc payload transactionType st
  = addOneRowAndFill P cfg host sc payload "default" st.
Proof.
  unfold addOneRowAndFill. unfold bind at 1 5.
  destruct (createRow P cfg host payload st) as [[e|[[newRowIndex isStockItem]|]] st1];
    try reflexivity.
  unfold bind at 1 4.
  destruct (waitForDomStable P host (domStablePre cfg) (stableMsPre cfg) st1) as [[e|b] st2];
    [reflexivity|].
  unfold bind at 1 3. now rewrite fillRow_unlisted.
Qed.

Lemma rowsLoop_unlisted (onProgress : bool) (totalRows : Z) :
  forall rows i acc st,
    rowsLoop P cfg host sc transactionType onProgress totalRows rows i acc st
    = rowsLoop P cfg host sc "default" onProgress totalRows rows i acc st.
Proof.
  induction rows as [|payload rest IH]; intros i acc st; [reflexivity|].
  rewrite !rowsLoop_cons, addOneRowAndFill_unlisted.
  destruct (aborted st); [reflexivity|].
  destruct (addOneRowAndFill P cfg host sc payload "default" st) as [[e|id] st1];
    [reflexivity|].
  destruct (aborted st1); [reflexivity|].
  destruct ((if onProgress then call P host (AProgress (i + 1) totalRows) else ret tt) st1)
    as [[e|u] st2]; [reflexivity | apply IH].
Qed.

Lemma getFieldSpec_unlisted :
  Ocr.getFieldSpec sc transactionType = Ocr.getFieldSpec sc "default"
  /\ Ocr.getFieldMaxLens sc transactionType = Ocr.getFieldMaxLens sc "default".
Proof.
  assert (E : Ocr.getAllowedKeysFromSchema sc transactionType
              = Ocr.getAllowedKeysFromSchema sc "default").
  { destruct Hun as [_ Hl]. unfold Ocr.getAllowedKeysFromSchema.
    destruct sc as [s|]; [|reflexivity].
    destruct (transactions s) as [tx|]; [|reflexivity]. rewrite Hl.
    destruct (fields s); [|reflexivity]. now destruct (lookup "default" tx). }
  unfold Ocr.getFieldSpec, Ocr.getFieldMaxLens. destruct sc as [s|] eqn:Es; [|split; reflexivity].
  rewrite <- Es in *. now rewrite E.
Qed.

(** X13. A transaction type for which the schema has no entry is handled
    exactly like the type [default], by both pipelines: the same field
    lists and limits, the same records out of a response text, and the
    same run of [$addRows] on every page. *)
Theorem unlisted_type_is_default :
  getAllowedKeys sc transactionType = getAllowedKeys sc "default"
  /\ Ocr.getFieldSpec sc transactionType = Ocr.getFieldSpec sc "default"
  /\ Ocr.getFieldMaxLens sc transactionType = Ocr.getFieldMaxLens sc "default"
  /\ (forall text,
        Ocr.safeJsonExtract P sc text transactionType
        = Ocr.safeJsonExtract P sc text "default")
  /\ (forall rows onProgress h,
        addRows P cfg host sc rows onProgress transactionType h
        = addRows P cfg host sc rows onProgress "default" h).
Proof.
  destruct getFieldSpec_unlisted as [Es El].
  split; [apply getAllowedKeys_unlisted|]. split; [exact Es|]. split; [exact El|]. split.
  - intro text. unfold Ocr.safeJsonExtract, Ocr.parseItems, Ocr.sanitizeItems,
      Ocr.normalizeAndValidate. now rewrite Es, El.
  - intros rows onProgress h. unfold addRows, withAlertTrap.
    destruct rows as [|r0 rows']; [reflexivity|]. now rewrite rowsLoop_unlisted.
Qed.

End Unlisted.

(** *** The progress callback *)

(** The calls of the progress callback in a log, with their arguments. *)
Definition progress_seq (l : list Act) : list (Z * Z) :=
  flat_map (fun a => match a with AProgress current total => [(current, total)] | _ => [] end) l.

Definition no_progress (a : Act) : Prop :=
  match a with AProgress _ _ => False | _ => True end.

Lemma progress_seq_app (l1 l2 : list Act) :
  progress_seq (l1 ++ l2) = progress_seq l1 ++ progress_seq l2.
Proof. unfold progress_seq. now rewrite flat_map_app. Qed.

Lemma progress_seq_none (l : list Act) : Forall no_progress l -> progress_seq l = [].
Proof.
  induction 1 as [|a l Ha _ IH]; [reflexivity|].
  cbn [progress_seq flat_map]. fold (progress_seq l). rewrite IH.
  destruct a; try reflexivity. destruct Ha.
Qed.

Lemma friendly_no_progress (n : jstr) : friendly n no_progress.
Proof. intros [] Ha _; try exact I. discriminate Ha. Qed.

Ltac np_tac :=
  repeat first
    [ only_step
    | apply only_sleepAbortable
    | apply only_suppressHandlers, friendly_no_progress
    | apply only_restoreHandlers, friendly_no_progress
    | progress unfold fireFocusEvent, fireBlurEvent, setValueDirectly,
        clickCheckboxLikeHuman, typeFocusBlur, ensurePriceListExists, ensureUomListExists,
        ensureListExists, withSuppressedInlineHandlers ];
  try exact I.

Lemma fillLoop_no_progress (rowIndex : Z) (data : Row) (transactionType : string)
  (skip : list string) :
  forall order,
    only no_progress (fillLoop P host sc rowIndex data transactionType skip order).
Proof.
  induction order as [|k rest IH]; cbn [fillLoop]; [apply only_ret|].
  apply only_bind; [apply only_gets|]. intros [|]; [apply only_ret|].
  destruct (mem k skip); [apply IH|].
  destruct (negb (has_key k data)); [apply IH|].
  destruct (isBlank (data_get data k)); [apply IH|].
  apply only_bind; [|intros _; apply IH].
  unfold fillOneField. np_tac.
Qed.

Lemma stableLoop_no_progress (fuel : nat) :
  forall stableMs quiet0, only no_progress (stableLoop P host fuel stableMs quiet0).
Proof.
  induction fuel as [|fuel IH]; intros stableMs quiet0; cbn [stableLoop]; np_tac; auto.
Qed.

Lemma addOneRowAndFill_no_progress (payload : Row) (transactionType : string) :
  only no_progress (addOneRowAndFill P cfg host sc payload transactionType).
Proof.
  unfold addOneRowAndFill, waitForDomStable.
  apply only_bind.
  { unfold createRow, waitForRowToBeShown, autoSearchStockCode.
    repeat first [ only_step | apply only_pollLatest | apply only_pollRow ]; try exact I.
    intro st. eexists [_]. cbn [snd log]. rewrite trapAlerts_log. cbn [log].
    split; [reflexivity|]. repeat constructor. }
  intros [[newRowIndex isStockItem]|]; [|apply only_ret].
  apply only_bind; [apply stableLoop_no_progress|]. intros _.
  apply only_bind.
  { unfold fillRow. destruct (getFieldFillOrder sc transactionType); [apply only_throw|].
    cbv zeta. apply only_bind; [apply fillLoop_no_progress|]. intros _. np_tac. }
  intros _. apply only_bind; [apply stableLoop_no_progress | intros _; apply only_ret].
Qed.

(** The calls [(i + 1, total)], ..., [(i + m, total)]. *)
Definition progress_from (i total : Z) (m : nat) : list (Z * Z) :=
  map (fun j => ((i + Z.of_nat j)%Z, total)) (seq 1 m).

Lemma progress_from_S (i total : Z) (m : nat) :
  progress_from i total (S m) = ((i + 1)%Z, total) :: progress_from (i + 1) total m.
Proof.
  unfold progress_from. cbn [seq map]. f_equal. rewrite <- seq_shift, map_map.
  apply map_ext. intro j. f_equal. lia.
Qed.

Lemma rowsLoop_progress (transactionType : string) (onProgress : bool) (totalRows : Z) :
  forall rows i acc st,
    exists l m,
      log (snd (rowsLoop P cfg host sc transactionType onProgress totalRows rows i acc st))
      = log st ++ l
      /\ progress_seq l = (if onProgress then progress_from i totalRows m else [])
      /\ (m <= length rows)%nat
      /\ (forall ids st',
            rowsLoop P cfg host sc transactionType onProgress totalRows rows i acc st
            = (inr ids, st') ->
            aborted st' = false -> m = length rows).
Proof.
  induction rows as [|payload rest IH]; intros i acc st.
  - exists [], 0%nat. cbn. rewrite app_nil_r. repeat split; auto. now destruct onProgress.
  - rewrite rowsLoop_cons. destruct (aborted st) eqn:Hst.
    { exists [], 0%nat. cbn [snd]. rewrite app_nil_r. repeat split; auto.
      - now destruct onProgress.
      - cbn [length]. lia.
      - intros ids st' E Ha. inversion E; subst. congruence. }
    destruct (addOneRowAndFill_no_progress payload transactionType st) as [l1 [Hl1 Hn1]].
    apply progress_seq_none in Hn1.
    destruct (addOneRowAndFill P cfg host sc payload transactionType st) as [[e|id] st1].
    { exists l1, 0%nat. cbn [snd] in *. repeat split; auto.
      - rewrite Hn1. now destruct onProgress.
      - cbn [length]. lia.
      - intros ids st' E. discriminate. }
    cbn [snd] in Hl1. destruct (aborted st1) eqn:Hst1.
    { exists l1, 0%nat. cbn [snd]. repeat split; auto.
      - rewrite Hn1. now destruct onProgress.
      - cbn [length]. lia.
      - intros ids st' E Ha. inversion E; subst. congruence. }
    destruct onProgress.
    + unfold call, bind, perform, ret.
      set (st2 := trapAlerts P (r_alerts (react host (AProgress (i + 1) totalRows) (page st1)))
                    {| page := r_host (react host (AProgress (i + 1) totalRows) (page st1));
                       aborted := aborted st1; lastMsg := lastMsg st1;
                       log := log st1 ++ [AProgress (i + 1) totalRows] |}).
      assert (Hl2 : log st2 = log st ++ l1 ++ [AProgress (i + 1) totalRows]).
      { unfold st2. rewrite trapAlerts_log. cbn [log]. now rewrite Hl1, app_assoc. }
      destruct (r_threw (react host (AProgress (i + 1) totalRows) (page st1))) as [e|].
      * exists (l1 ++ [AProgress (i + 1) totalRows]), 1%nat. cbn [snd].
        repeat split; auto.
        -- rewrite progress_seq_app, Hn1. cbn. do 2 f_equal.
        -- cbn [length]. lia.
        -- intros ids st' E. discriminate.
      * destruct (IH (i + 1)%Z (acc ++ [id]) st2) as [l3 [m [Hl3 [Hp3 [Hm Hfull]]]]].
        exists (l1 ++ [AProgress (i + 1) totalRows] ++ l3), (S m).
        repeat split.
        -- rewrite Hl3, Hl2. now rewrite <- !app_assoc.
        -- rewrite !progress_seq_app, Hn1, Hp3, progress_from_S. reflexivity.
        -- cbn [length]. lia.
        -- intros ids st' E Ha. cbn [length]. f_equal. eapply Hfull; eauto.
    + unfold ret.
      destruct (IH (i + 1)%Z (acc ++ [id]) st1) as [l3 [m [Hl3 [Hp3 [Hm Hfull]]]]].
      exists (l1 ++ l3), (S m). repeat split.
      * rewrite Hl3, Hl1. now rewrite app_assoc.
      * now rewrite progress_seq_app, Hn1, Hp3.
      * cbn [length]. lia.
      * intros ids st' E Ha. cbn [length]. f_equal. eapply Hfull; eauto.
Qed.


(** *** Every focus is followed by its blur *)

(** The calls of [focus()] and [blur()] among the actions: the element,
    and [true] for a focus. *)
Definition focus_blur_seq (l : list Act) : list (bool * jstr) :=
  flat_map (fun a => match a with
                     | ACall n m =>
                         if String.eqb m "focus" then [(true, n)]
                         else if String.eqb m "blur" then [(false, n)] else []
                     | _ => []
                     end) l.

(** A focus, the blur of the same element, and so on. *)
Fixpoint paired (l : list (bool * jstr)) : Prop :=
  match l with
  | [] => True
  | (true, n) :: (false, n') :: r => n = n' /\ paired r
  | _ => False
  end.

Definition no_focus_blur (a : Act) : Prop := focus_blur_seq [a] = [].

Lemma focus_blur_seq_app (l1 l2 : list Act) :
  focus_blur_seq (l1 ++ l2) = focus_blur_seq l1 ++ focus_blur_seq l2.
Proof. unfold focus_blur_seq. now rewrite flat_map_app. Qed.

Lemma focus_blur_seq_none (l : list Act) : Forall no_focus_blur l -> focus_blur_seq l = [].
Proof.
  induction 1 as [|a l Ha _ IH]; [reflexivity|].
  change (a :: l) with ([a] ++ l). rewrite focus_blur_seq_app, IH, app_nil_r. exact Ha.
Qed.

Lemma paired_app (l1 l2 : list (bool * jstr)) : paired l1 -> paired l2 -> paired (l1 ++ l2).
Proof.
  revert l1. fix IH 1. intros [|[[|] n] [|[[|] n'] r]]; cbn; try tauto.
  intros [E Hr] H2. split; [exact E|]. now apply IH.
Qed.

Lemma friendly_no_focus_blur (n : jstr) :
  forall a, target a = Some n -> not_focus a ->
            focus_blur_seq [a] = [] \/ a = ACall n "blur".
Proof.
  intros a Ht Hf. destruct a; try (left; reflexivity).
  cbn in Ht. injection Ht as ->. unfold not_focus in Hf. cbn in *.
  destruct (String.eqb method "focus"); [discriminate|].
  destruct (String.eqb method "blur") eqn:Eb; [|now left].
  right. apply String.eqb_eq in Eb. now subst.
Qed.

(** The computation leaves the calls of focus and blur paired. *)
Definition balanced {A} (c : @M H A) : Prop :=
  extends (fun l => paired (focus_blur_seq l)) c.

(** The computation returns and calls neither. *)
Definition between {A} (c : @M H A) : Prop :=
  returns c /\ only no_focus_blur c.

(** The computation first blurs the element [n], and is balanced after. *)
Definition closes {A} (n : jstr) (c : @M H A) : Prop :=
  extends (fun l => exists r, focus_blur_seq l = (false, n) :: r /\ paired r) c.

Lemma balanced_of_only {A} (c : @M H A) : only no_focus_blur c -> balanced c.
Proof.
  intros Hc st. destruct (Hc st) as [l [E F]]. exists l. split; [exact E|].
  now rewrite focus_blur_seq_none.
Qed.

Lemma balanced_bind {A B} (c : @M H A) (k : A -> @M H B) :
  balanced c -> (forall a, balanced (k a)) -> balanced (bind c k).
Proof.
  intros Hc Hk. eapply extends_bind; [exact Hc | exact Hk | auto |].
  intros l1 l2 H1 H2. cbv beta. rewrite focus_blur_seq_app. now apply paired_app.
Qed.

Lemma between_bind {A B} (c : @M H A) (k : A -> @M H B) :
  between c -> (forall a, between (k a)) -> between (bind c k).
Proof.
  intros [Rc Oc] Hk. split.
  - apply returns_bind; [exact Rc | intro a; apply Hk].
  - apply only_bind; [exact Oc | intro a; apply Hk].
Qed.

Lemma between_dom (a : Act) : no_focus_blur a -> between (dom P host a).
Proof.
  intro Ha. split; unfold dom.
  - apply returns_bind; [apply returns_perform | intro; apply returns_ret].
  - apply only_bind; [now apply only_perform | intro; apply only_ret].
Qed.

Lemma between_gets {A} (f : @St H -> A) : between (gets f).
Proof. split; [apply returns_gets | apply only_gets]. Qed.

Lemma between_ret {A} (a : A) : between (@ret H A a).
Proof. split; [apply returns_ret | apply only_ret]. Qed.

Lemma between_sleepAbortable (ms : Z) : between (sleepAbortable P host ms).
Proof. split; [apply returns_sleepAbortable | apply only_sleepAbortable]. Qed.

Ltac between_tac :=
  repeat first
    [ apply between_ret
    | apply between_gets
    | apply between_sleepAbortable
    | apply between_dom; reflexivity
    | apply between_bind; [|intros]
    | match goal with
      | |- between (if ?b then _ else _) => destruct b
      | |- between (match ?x with _ => _ end) => destruct x
      end ].

Lemma between_setValueDirectly (n : jstr) (el : Element) (v : JsValue) :
  between (setValueDirectly P host n el v).
Proof. unfold setValueDirectly, live. between_tac. Qed.

Lemma between_clickCheckboxLikeHuman (n : jstr) (el : Element) (b : bool) :
  between (clickCheckboxLikeHuman P host n el b).
Proof. unfold clickCheckboxLikeHuman, live. between_tac. Qed.

Lemma dom_exact (a : Act) (st : @St H) :
  exists st', dom P host a st = (inr tt, st') /\ log st' = log st ++ [a].
Proof.
  unfold dom, bind, perform, ret. eexists. split; [reflexivity|].
  now rewrite trapAlerts_log.
Qed.

Lemma dom3_exact (a b c : Act) (st : @St H) :
  exists st', bind (dom P host a) (fun _ => bind (dom P host b) (fun _ => dom P host c)) st
              = (inr tt, st')
              /\ log st' = log st ++ [a; b; c].
Proof.
  destruct (dom_exact a st) as [s1 [E1 L1]]. destruct (dom_exact b s1) as [s2 [E2 L2]].
  destruct (dom_exact c s2) as [s3 [E3 L3]].
  exists s3. unfold bind at 1. rewrite E1. unfold bind. rewrite E2, E3.
  split; [reflexivity|]. rewrite L3, L2, L1, <- !app_assoc. reflexivity.
Qed.

(** [fireFocusEvent] returns, with one call of focus. *)
Lemma opens_fireFocusEvent (n : jstr) (st : @St H) :
  exists st' l, fireFocusEvent P host n st = (inr tt, st')
                /\ log st' = log st ++ l /\ focus_blur_seq l = [(true, n)].
Proof.
  unfold fireFocusEvent.
  destruct (dom3_exact (ACall n "focus") (AEvent n "focusin") (AEvent n "focus") st)
    as [st' [E L]].
  exists st'. eexists. split; [exact E|]. split; [exact L | reflexivity].
Qed.

Lemma closes_fireBlurEvent (n : jstr) : closes n (fireBlurEvent P host n).
Proof.
  intro st. unfold fireBlurEvent.
  destruct (dom3_exact (ACall n "blur") (AEvent n "focusout") (AEvent n "blur") st)
    as [st' [E L]].
  rewrite E. cbn [snd]. eexists. split; [exact L|]. exists []. split; reflexivity.
Qed.

Lemma closes_then {B} (n : jstr) (k : unit -> @M H B) :
  (forall u, balanced (k u)) -> closes n (bind (fireBlurEvent P host n) k).
Proof.
  intro Hk. eapply extends_bind; [apply closes_fireBlurEvent | exact Hk | auto |].
  intros l1 l2 [r [E Hr]] H2. exists (r ++ focus_blur_seq l2).
  rewrite focus_blur_seq_app, E. split; [reflexivity | now apply paired_app].
Qed.

Lemma closes_after {A B} (n : jstr) (c : @M H A) (k : A -> @M H B) :
  between c -> (forall a, closes n (k a)) -> closes n (bind c k).
Proof.
  intros [Rc Oc] Hk st. destruct (Rc st) as [a [st1 E1]]. destruct (Oc st) as [l1 [L1 F1]].
  destruct (Hk a st1) as [l2 [L2 [r [E2 Hr]]]].
  unfold bind. rewrite E1 in *. cbn [snd] in *. exists (l1 ++ l2).
  rewrite L2, L1, app_assoc. split; [reflexivity|]. exists r.
  rewrite focus_blur_seq_app, (focus_blur_seq_none _ F1). now split.
Qed.

Lemma balanced_opens {B} (n : jstr) (k : unit -> @M H B) :
  (forall u, closes n (k u)) -> balanced (bind (fireFocusEvent P host n) k).
Proof.
  intros Hk st. destruct (opens_fireFocusEvent n st) as [st1 [l1 [E1 [L1 F1]]]].
  destruct (Hk tt st1) as [l2 [L2 [r [E2 Hr]]]].
  unfold bind. rewrite E1. exists (l1 ++ l2). rewrite L2, L1, app_assoc.
  split; [reflexivity|]. rewrite focus_blur_seq_app, F1, E2. cbn. now split.
Qed.

Lemma untargeted_no_focus_blur : untargeted no_focus_blur.
Proof. intros [] Ha; try reflexivity; discriminate. Qed.

Lemma balanced_fillOneField (rowIndex : Z) (key : string) (value : JsValue)
  (transactionType : string) :
  balanced (fillOneField P host sc rowIndex key value transactionType).
Proof.
  unfold fillOneField.
  destruct (getColumnName sc rowIndex key transactionType) as [e|[n|]];
    [apply balanced_of_only, only_throw | | apply balanced_of_only, only_ret].
  apply balanced_bind; [apply balanced_of_only, only_gets|]. intros [|];
    [apply balanced_of_only, only_ret|].
  assert (Hsupp : forall el c, only no_focus_blur c ->
                    only no_focus_blur (withSuppressedInlineHandlers P host n el c)).
  { intros el c Hc. unfold withSuppressedInlineHandlers.
    apply only_bind.
    - generalize inlineHandlers. induction l as [|a attrs IH]; cbn [suppressHandlers];
        repeat only_step; auto; reflexivity.
    - intro orig. apply only_try_finally; [exact Hc|].
      induction orig as [|[a v] orig IH]; cbn [restoreHandlers];
        repeat only_step; auto; reflexivity. }
  destruct (String.eqb key "gst").
  - apply balanced_bind; [apply balanced_of_only, only_gets|]. intros [el|];
      [|apply balanced_of_only, only_ret].
    apply balanced_opens. intros _.
    apply closes_after; [apply between_clickCheckboxLikeHuman|]. intros _.
    apply closes_fireBlurEvent.
  - apply balanced_bind.
    { apply balanced_of_only. unfold ensurePriceListExists, ensureListExists.
      repeat only_step; auto; reflexivity. }
    intros _. apply balanced_bind.
    { apply balanced_of_only. unfold ensureUomListExists, ensureListExists.
      repeat only_step; auto; reflexivity. }
    intros _. apply balanced_bind; [apply balanced_of_only, only_gets|].
    intros [el|]; [|apply balanced_of_only, only_ret].
    destruct (key_in key ["unit_price"; "amount"]%string
              && (e_readOnly el || has_key "readonly" (e_attrs el))).
    { apply balanced_opens. intros _. apply closes_fireBlurEvent. }
    destruct (negb (e_visible el) || jstr_eqb (e_type el) (js "hidden")).
    { apply balanced_opens. intros _.
      apply closes_after; [apply between_setValueDirectly|]. intros _.
      apply closes_fireBlurEvent. }
    destruct (key_in key ["acct_disp"; "dept_disp"; "proj_disp"]%string).
    { apply balanced_bind.
      { apply balanced_of_only, Hsupp, between_setValueDirectly. }
      intros _. apply balanced_opens. intros _.
      apply closes_after; [apply between_sleepAbortable|]. intros _.
      apply closes_then. intros _. apply balanced_of_only, only_sleepAbortable. }
    unfold typeFocusBlur.
    apply balanced_bind; [apply balanced_of_only; unfold dom; repeat only_step; reflexivity|].
    intros _.
    apply balanced_bind; [apply balanced_of_only; unfold dom; repeat only_step; reflexivity|].
    intros _.
    apply balanced_bind; [apply balanced_of_only, only_gets|]. intros [|];
      [apply balanced_of_only, only_ret|].
    apply balanced_opens. intros _.
    apply closes_after; [apply between_setValueDirectly|]. intros _.
    apply closes_fireBlurEvent.
Qed.

Lemma balanced_fillLoop (rowIndex : Z) (data : Row) (transactionType : string)
  (skip : list string) :
  forall order, balanced (fillLoop P host sc rowIndex data transactionType skip order).
Proof.
  induction order as [|key rest IH]; cbn [fillLoop]; [apply balanced_of_only, only_ret|].
  apply balanced_bind; [apply balanced_of_only, only_gets|]. intros [|];
    [apply balanced_of_only, only_ret|].
  destruct (mem key skip); [exact IH|].
  destruct (negb (has_key key data)); [exact IH|].
  destruct (isBlank (data_get data key)); [exact IH|].
  apply balanced_bind; [apply balanced_fillOneField | intros _; exact IH].
Qed.


(** *** Inline handlers are put back *)

(** What is done to an attribute to suppress it, and to put it back. *)
Definition suppression (n : jstr) (o : string * option jstr) : list Act :=
  match snd o with
  | Some _ => [ASetAttr n (fst o) []]
  | None => []
  end.

Definition restoration (n : jstr) (o : string * option jstr) : Act :=
  match snd o with
  | Some x => ASetAttr n (fst o) x
  | None => ARemoveAttr n (fst o)
  end.

Lemma suppressHandlers_spec (n : jstr) (el : Element) :
  forall attrs st,
    exists orig st1,
      suppressHandlers P host n el attrs st = (inr orig, st1)
      /\ map fst orig = attrs
      /\ log st1 = log st ++ flat_map (suppression n) orig.
Proof.
  induction attrs as [|a attrs IH]; intro st.
  - exists [], st. cbn. now rewrite app_nil_r.
  - cbn [suppressHandlers]. unfold bind at 1. unfold live at 1, gets.
    set (v := lookup a (e_attrs match getElementByName host (page st) n with
                                | Some e => e
                                | None => el
                                end)).
    unfold bind at 1.
    assert (Hs : exists s1, (match v with
                             | Some _ => dom P host (ASetAttr n a [])
                             | None => ret tt
                             end) st = (inr tt, s1)
                            /\ log s1 = log st ++ suppression n (a, v)).
    { unfold suppression. cbn [snd fst]. destruct v.
      - apply dom_exact.
      - exists st. split; [reflexivity | now rewrite app_nil_r]. }
    destruct Hs as [s1 [E1 L1]]. rewrite E1.
    destruct (IH s1) as [orig [s2 [E2 [M2 L2]]]].
    unfold bind. rewrite E2. unfold ret.
    exists ((a, v) :: orig), s2. split; [reflexivity|]. split; [cbn; now rewrite M2|].
    cbn [flat_map]. now rewrite L2, L1, <- app_assoc.
Qed.

Lemma restoreHandlers_spec (n : jstr) :
  forall orig st,
    exists st', restoreHandlers P host n orig st = (inr tt, st')
                /\ log st' = log st ++ map (restoration n) orig.
Proof.
  induction orig as [|[a v] orig IH]; intro st.
  - exists st. cbn. now rewrite app_nil_r.
  - cbn [restoreHandlers]. unfold bind.
    assert (Hs : exists s1, (match v with
                             | None => dom P host (ARemoveAttr n a)
                             | Some x => dom P host (ASetAttr n a x)
                             end) st = (inr tt, s1)
                            /\ log s1 = log st ++ [restoration n (a, v)]).
    { unfold restoration. cbn [snd fst]. destruct v; apply dom_exact. }
    destruct Hs as [s1 [E1 L1]]. rewrite E1.
    destruct (IH s1) as [s2 [E2 L2]]. rewrite E2.
    exists s2. split; [reflexivity|]. cbn [map]. now rewrite L2, L1, <- app_assoc.
Qed.


(** *** One row per record *)

(** The clicks on the add button among the actions. *)
Definition clicks (l : list Act) : nat :=
  length (filter (fun a => match a with AClickAdd => true | _ => false end) l).

(** The computation returns and does nothing to the page. *)
Definition silent {A} (c : @M H A) : Prop :=
  forall st, exists a st', c st = (inr a, st') /\ log st' = log st.

Lemma silent_ret {A} (a : A) : silent (@ret H A a).
Proof. intro st. now exists a, st. Qed.

Lemma silent_gets {A} (f : @St H -> A) : silent (gets f).
Proof. intro st. now exists (f st), st. Qed.

Lemma silent_elapse (ms : Z) : silent (elapse P host ms).
Proof.
  intro st. unfold elapse. eexists. eexists. split; [reflexivity|]. now rewrite trapAlerts_log.
Qed.

Lemma silent_bind {A B} (c : @M H A) (k : A -> @M H B) :
  silent c -> (forall a, silent (k a)) -> silent (bind c k).
Proof.
  intros Hc Hk st. destruct (Hc st) as [a [s1 [E1 L1]]]. destruct (Hk a s1) as [b [s2 [E2 L2]]].
  exists b, s2. unfold bind. rewrite E1, E2. split; [reflexivity | congruence].
Qed.

Ltac silent_tac :=
  repeat first
    [ apply silent_ret
    | apply silent_gets
    | apply silent_elapse
    | apply silent_bind; [|intros]
    | match goal with
      | |- silent (if ?b then _ else _) => destruct b
      | |- silent (match ?x with _ => _ end) => destruct x
      end ].

Lemma silent_pollLatest (fuel : nat) :
  forall attempts initialRowIndex, silent (pollLatest P host fuel attempts initialRowIndex).
Proof.
  induction fuel as [|fuel IH]; intros attempts initialRowIndex; cbn [pollLatest];
    silent_tac. apply IH.
Qed.

Lemma silent_pollRow (fuel : nat) :
  forall interval rowIndex hasHidden, silent (pollRow P host fuel interval rowIndex hasHidden).
Proof.
  induction fuel as [|fuel IH]; intros interval rowIndex hasHidden; cbn [pollRow];
    silent_tac. apply IH.
Qed.

Lemma silent_waitForRowToBeShown (rowIndex timeoutMs : Z) :
  silent (waitForRowToBeShown P cfg host rowIndex timeoutMs).
Proof. unfold waitForRowToBeShown, find_by_name. silent_tac. apply silent_pollRow. Qed.

(** The search is driven once at most. *)
Lemma autoSearchStockCode_once (key : JsValue) (rowIndex : Z) (st : @St H) :
  exists b st' l,
    autoSearchStockCode P host key rowIndex st = (inr b, st')
    /\ log st' = log st ++ l
    /\ ((l = [] /\ b = false) \/ exists k, l = [ASearch k rowIndex]).
Proof.
  unfold autoSearchStockCode.
  destruct key as [| | | |[|c k]| |];
    try (exists false, st, []; rewrite app_nil_r; split; [reflexivity|]; split; auto).
  unfold bind, isAborted, gets. destruct (aborted st).
  - exists false, st, []. rewrite app_nil_r. split; [reflexivity|]. split; auto.
  - eexists. eexists. exists [ASearch (c :: k) rowIndex]. split; [reflexivity|].
    rewrite trapAlerts_log. split; [reflexivity|]. right. now exists (c :: k).
Qed.


End Engine.

(** *** The example page *)

Import Demo.

Lemma page_host_quiet (failAt : option nat) : quiet (page_host failAt None).
Proof.
  unfold quiet. split; [|split; reflexivity].
  intros a h. destruct a; split; try reflexivity.
  cbn. now rewrite andb_false_r.
Qed.

Lemma shipped_schema_present : schema_present (Some TNO_SCHEMA) /\ schema_present (Some abcSchema).
Proof. split; eexists _, _, _; repeat split; reflexivity. Qed.

Definition bolt : Row := item "Bolt M8" 1.
Definition nut : Row := item "Nut M8" 2.
Definition washer : Row := item "Washer" 3.


(** What is returned after an abort. *)
Definition returned_ids (o : Outcome (list (option Z))) : option (list (option Z)) :=
  match o with
  | Resolved ids => Some ids
  | Rejected _ => None
  end.

(** C2 as stated does not hold: the page raises an alert when the quantity
    of row 2 changes; rows 1 and 2 have been created and filled, but the
    caller receives the error alone, made of a message and a code. *)
Lemma addRows_abort_drops_results :
  fst (rowsLoop platform defaults (page_host None (Some (js "qnty_total2")))
         (Some TNO_SCHEMA) "default" true 3 [bolt; nut; washer] 0 [] (start page0))
  = inr [Some 1%Z; Some 2%Z]
  /\ fst (addRows platform defaults (page_host None (Some (js "qnty_total2")))
            (Some TNO_SCHEMA) [bolt; nut; washer] true "default" page0)
     = Rejected {| message := js "Aborted by alert: Quantity exceeds stock";
                   code := Some (js "TNO_ALERT_ABORT") |}
  /\ returned_ids
       (fst (addRows platform defaults (page_host None (Some (js "qnty_total2")))
               (Some TNO_SCHEMA) [bolt; nut; washer] true "default" page0))
     = None.
Proof. repeat split; vm_compute; reflexivity. Qed.

Lemma addRows_alert_abort_witness :
  let hostA := page_host None (Some (js "qnty_total2")) in
  let before := rowsLoop platform defaults hostA (Some TNO_SCHEMA) "default" true 3
                  [bolt] 0 [] (start page0) in
  let during := addOneRowAndFill platform defaults hostA (Some TNO_SCHEMA) nut "default"
                  (snd before) in
  aborted (snd before) = false
  /\ aborted (snd during) = true
  /\ lastMsg (snd during) = js "Quantity exceeds stock"
  /\ addRows platform defaults hostA (Some TNO_SCHEMA) [bolt; nut; washer] true "default"
       page0
     = (Rejected (abortError (lastMsg (snd during))), snd during)
  /\ filter (fun a => match a with AClickAdd => true | _ => false end)
       (log (snd during)) = [AClickAdd; AClickAdd].
Proof.
  intros hostA before during.
  split; [vm_compute; reflexivity|]. split; [vm_compute; reflexivity|].
  split; [vm_compute; reflexivity|]. split; [|vm_compute; reflexivity].
  apply (proj1 (@addRows_alert_abort platform defaults Page hostA (Some TNO_SCHEMA)
                  [bolt] nut [washer] true "default"%string page0
                  [Some 1%Z] (snd before) (Some 2%Z) (snd during)
                  ltac:(vm_compute; reflexivity) ltac:(vm_compute; reflexivity)
                  ltac:(vm_compute; reflexivity) ltac:(vm_compute; reflexivity))).
Defined.

(** The example of the specification: canonical order C, A, B and a record
    whose keys come in the order A, B, C. *)
Definition abcRecord : Row :=
  [ ("A", VStr (js "first")); ("B", VStr (js "second")); ("C", VStr (js "third")) ]%string.

Example fillRow_writes_C_A_B :
  focus_seq (log (snd (fillRow platform (page_host None None) (Some abcSchema) 1 abcRecord
                         "default" false (start page0))))
  = [js "C1"; js "A1"; js "B1"]
  /\ flat_map (fun a => match a with
                        | ASetProp n "value" (VStr v) => [(n, v)]
                        | _ => []
                        end)
       (log (snd (fillRow platform (page_host None None) (Some abcSchema) 1 abcRecord
                    "default" false (start page0))))
     = [(js "C1", js "third"); (js "A1", js "first"); (js "B1", js "second")].
Proof. split; vm_compute; reflexivity. Qed.

Lemma abc_elements_present (key : string) (n : jstr) :
  In key (fillPlan (fieldsToSkip false) abcRecord ["C"; "A"; "B"]%string) ->
  getColumnName (Some abcSchema) 1 key "default" = inr (Some n) ->
  present (page_host None None) n.
Proof.
  intros Hin Hn h. vm_compute in Hin.
  repeat (destruct Hin as [<-|Hin];
          [vm_compute in Hn; inversion Hn; subst n; vm_compute; discriminate|]).
  destruct Hin.
Qed.


(** A record whose description is blank and whose remark is null. *)
Definition sparse : Row :=
  [ ("description", VStr (js "   ")); ("qnty_total", VNum 2); ("remark", VNull) ]%string.

Lemma tno_names_row1 (k' : string) (n' : jstr) :
  k' <> "description"%string ->
  getColumnName (Some TNO_SCHEMA) 1 k' "default" = inr (Some n') ->
  n' <> js "stkcode_desc1".
Proof.
  intros Hk Hn. unfold getColumnName in Hn. cbn [getAllowedKeys TNO_SCHEMA transactions fields
    lookup String.eqb] in Hn.
  destruct (mem k' _) eqn:Hm; [|discriminate]. cbn [negb] in Hn.
  apply mem_In in Hm. cbn [In] in Hm.
  repeat (destruct Hm as [<-|Hm];
          [first [ congruence | vm_compute in Hn; inversion Hn; discriminate ]|]).
  destruct Hm.
Qed.

Lemma fillRow_skips_blank_witness :
  isBlank (data_get sparse "description") = true
  /\ fillRow platform (page_host None None) (Some TNO_SCHEMA) 1 sparse "default" false
       (start page0)
     = fillRow platform (page_host None None) (Some TNO_SCHEMA) 1
         (remove_key "description" sparse) "default" false (start page0)
  /\ exists l,
       log (snd (fillRow platform (page_host None None) (Some TNO_SCHEMA) 1 sparse
                   "default" false (start page0))) = [] ++ l
       /\ Forall (fun a => target a <> Some (js "stkcode_desc1")) l.
Proof.
  split; [reflexivity|].
  pose proof (@fillRow_skips_blank platform Page (page_host None None) (Some TNO_SCHEMA)
                1%Z sparse "default"%string false "description"%string (start page0)
                eq_refl) as [Hsame Huntouched].
  split; [exact Hsame|].
  apply (Huntouched (js "stkcode_desc1") eq_refl).
  - vm_compute. discriminate.
  - apply tno_names_row1.
Defined.

(** *** The witnesses of the further properties *)


(** A record with a stock code, a description and a quantity, in a row that
    the stock search made: the code is left alone, the description, which
    the schema keeps under [description], is written. *)
Definition stocked : Row :=
  [ ("stkcode_code", VStr (js "A-100")); ("description", VStr (js "Bolt M8"));
    ("qnty_total", VNum 2) ]%string.

Example fillRow_stock_item_shipped :
  focus_seq (log (snd (fillRow platform (page_host None None) (Some TNO_SCHEMA) 1 stocked
                         "default" true (start page0))))
  = [js "stkcode_desc1"; js "qnty_total1"]
  /\ focus_seq (log (snd (fillRow platform (page_host None None) (Some TNO_SCHEMA) 1 stocked
                            "default" false (start page0))))
     = [js "stkcode_code1"; js "stkcode_desc1"; js "qnty_total1"].
Proof. split; vm_compute; reflexivity. Qed.


Lemma unlisted_type_is_default_witness :
  unlisted (Some TNO_SCHEMA) "sales"
  /\ Ocr.getFieldSpec (Some TNO_SCHEMA) "sales" = Ocr.getFieldSpec (Some TNO_SCHEMA) "default"
  /\ addRows platform defaults (page_host None None) (Some TNO_SCHEMA) [bolt] false "sales"
       page0
     = addRows platform defaults (page_host None None) (Some TNO_SCHEMA) [bolt] false
         "default" page0.
Proof.
  assert (Hun : unlisted (Some TNO_SCHEMA) "sales").
  { split; [|reflexivity]. cbn. intuition discriminate. }
  split; [exact Hun|].
  destruct (@unlisted_type_is_default platform defaults Page (page_host None None)
              (Some TNO_SCHEMA) "sales"%string Hun) as [_ [Hs [_ [_ Hrun]]]].
  split; [exact Hs | apply Hrun].
Defined.

(** The calls of focus and blur for that record, in an ordinary row. *)
Example fillRow_focus_blur_shipped :
  focus_blur_seq (log (snd (fillRow platform (page_host None None) (Some TNO_SCHEMA) 1 stocked
                              "default" false (start page0))))
  = [ (true, js "stkcode_code1"); (false, js "stkcode_code1");
      (true, js "stkcode_desc1"); (false, js "stkcode_desc1");
      (true, js "qnty_total1"); (false, js "qnty_total1") ].
Proof. vm_compute. reflexivity. Qed.

(** A record with a stock code on a page whose search makes no row: the
    search is driven, then the button is clicked, once. *)
Example createRow_after_search :
  log (snd (createRow platform defaults (page_host None None) stocked (start page0)))
  = [ASearch (js "A-100") 1; AClickAdd]
  /\ fst (createRow platform defaults (page_host None None) stocked (start page0))
     = inr (Some (1%Z, false)).
Proof. split; vm_compute; reflexivity. Qed.

End EngineFacts.

(** ** The registry, when it is not there *)

Module RegistryFacts.
Import Js Schema Ocr AddRows Demo EngineFacts.



End RegistryFacts.

(** ** What normalisation leaves in a record *)

Module RecordFacts.
Import Js Schema Ocr ObjFacts NormalizeFacts SanitizeFacts.

(** *** White space after [.replace(/\s+/g, ' ').trim()] *)

(** Every white-space character is U+0020. *)
Definition plain_spaces (s : jstr) : bool :=
  forallb (fun c => negb (is_ws c) || (c =? 32)%N) s.

(** No two white-space characters are adjacent. *)
Fixpoint single_spaces (s : jstr) : bool :=
  match s with
  | a :: (b :: _) as r => negb (is_ws a && is_ws b) && single_spaces r
  | _ => true
  end.

(** Neither the first nor the last character is white space. *)
Definition no_edge_space (s : jstr) : bool :=
  match s with
  | [] => true
  | c :: _ => negb (is_ws c) && negb (is_ws (last s c))
  end.

Definition tidy (s : jstr) : bool :=
  plain_spaces s && single_spaces s && no_edge_space s.

Lemma single_spaces_cons (a b : N) (r : jstr) :
  single_spaces (a :: b :: r) = negb (is_ws a && is_ws b) && single_spaces (b :: r).
Proof. reflexivity. Qed.

Lemma takeWhile_dropWhile {A} (p : A -> bool) (l : list A) :
  takeWhile p l ++ dropWhile p l = l.
Proof. induction l as [|x l IH]; simpl; auto. destruct (p x); simpl; congruence. Qed.

Lemma skipn_takeWhile {A} (p : A -> bool) (l : list A) :
  skipn (length (takeWhile p l)) l = dropWhile p l.
Proof. induction l as [|x l IH]; simpl; auto. destruct (p x); simpl; auto. Qed.

Lemma dropWhile_head {A} (p : A -> bool) (l : list A) :
  match dropWhile p l with
  | [] => True
  | x :: _ => p x = false
  end.
Proof. induction l as [|x l IH]; simpl; auto. destruct (p x) eqn:E; simpl; auto. Qed.

(** One step of the scan for [/\s+/g]. *)
Lemma collapse_ws_cons (c : N) (r : jstr) :
  collapse_ws (c :: r)
  = if is_ws c then 32%N :: collapse_ws (dropWhile is_ws r) else c :: collapse_ws r.
Proof.
  unfold collapse_ws, replaceAll. cbn [gsub]. unfold m_ws_run. cbn [takeWhile].
  destruct (is_ws c); cbn [length app]; [|reflexivity].
  now rewrite gsub_skip, skipn_takeWhile.
Qed.

Lemma collapse_ws_spaces (bound : nat) :
  forall s, (length s <= bound)%nat ->
    plain_spaces (collapse_ws s) = true /\ single_spaces (collapse_ws s) = true.
Proof.
  induction bound as [|bound IH]; intros s Hlen.
  - destruct s; [split; reflexivity | simpl in Hlen; lia].
  - destruct s as [|c r]; [split; reflexivity|]. simpl in Hlen.
    rewrite collapse_ws_cons. destruct (is_ws c) eqn:Hc.
    + pose proof (length_dropWhile is_ws r) as Hle.
      pose proof (dropWhile_head is_ws r) as Hhd.
      destruct (IH (dropWhile is_ws r)) as [H1 H2]; [lia|].
      split.
      * cbn [plain_spaces forallb]. fold (plain_spaces (collapse_ws (dropWhile is_ws r))).
        rewrite H1. now rewrite orb_true_r.
      * destruct (dropWhile is_ws r) as [|x r'] eqn:E; [reflexivity|].
        rewrite collapse_ws_cons in *. rewrite Hhd in *.
        rewrite single_spaces_cons, Hhd, andb_false_r. exact H2.
    + destruct (IH r) as [H1 H2]; [lia|]. split.
      * cbn [plain_spaces forallb]. fold (plain_spaces (collapse_ws r)).
        now rewrite Hc, H1.
      * destruct (collapse_ws r) as [|x r'] eqn:E; [reflexivity|].
        rewrite single_spaces_cons, Hc. exact H2.
Qed.

Lemma single_spaces_app_l (l1 l2 : jstr) :
  single_spaces (l1 ++ l2) = true -> single_spaces l1 = true.
Proof.
  induction l1 as [|a l1 IH]; [reflexivity|].
  destruct l1 as [|b l1]; [reflexivity|].
  cbn [app]. rewrite !single_spaces_cons. intro Hs. apply andb_prop in Hs as [H1 H2].
  rewrite H1. apply IH. exact H2.
Qed.

Lemma single_spaces_app_r (l1 l2 : jstr) :
  single_spaces (l1 ++ l2) = true -> single_spaces l2 = true.
Proof.
  induction l1 as [|a l1 IH]; [auto|].
  intro Hs. apply IH. destruct l1 as [|b l1].
  - cbn [app] in *. destruct l2; [reflexivity|]. rewrite single_spaces_cons in Hs.
    now apply andb_prop in Hs as [_ H2].
  - cbn [app] in Hs. rewrite single_spaces_cons in Hs. now apply andb_prop in Hs as [_ H2].
Qed.

Lemma trimEnd_prefix (s : jstr) : exists sfx, s = trimEnd s ++ sfx.
Proof.
  exists (rev (takeWhile is_ws (rev s))). unfold trimEnd.
  rewrite <- rev_app_distr, takeWhile_dropWhile. now rewrite rev_involutive.
Qed.

Lemma trimStart_suffix (s : jstr) : exists pre, s = pre ++ trimStart s.
Proof. exists (takeWhile is_ws s). unfold trimStart. now rewrite takeWhile_dropWhile. Qed.

Lemma trim_infix (s : jstr) : exists pre sfx, s = pre ++ trim s ++ sfx.
Proof.
  destruct (trimStart_suffix s) as [pre Hp].
  destruct (trimEnd_prefix (trimStart s)) as [sfx Hs].
  exists pre, sfx. unfold trim. now rewrite <- Hs.
Qed.

Lemma trimEnd_last (s : jstr) (d : N) :
  trimEnd s <> [] -> is_ws (last (trimEnd s) d) = false.
Proof.
  unfold trimEnd. pose proof (dropWhile_head is_ws (rev s)) as Hhd.
  destruct (dropWhile is_ws (rev s)) as [|x r]; [cbn; congruence|].
  intros _. cbn [rev]. now rewrite last_last.
Qed.

Lemma trimEnd_head (c : N) (r : jstr) :
  is_ws c = false -> exists r', trimEnd (c :: r) = c :: r'.
Proof.
  intro Hc. destruct (trimEnd_prefix (c :: r)) as [sfx Hs].
  destruct (trimEnd (c :: r)) as [|x r'] eqn:E.
  - exfalso. cbn [app] in Hs. subst sfx.
    unfold trimEnd in E. apply (f_equal (@rev N)) in E. rewrite rev_involutive in E.
    cbn [rev] in E.
    assert (Hall : forallb is_ws (rev (c :: r)) = true).
    { clear -E. cbn [rev]. induction (rev r ++ [c]) as [|y l IH]; [reflexivity|].
      cbn [dropWhile] in E. destruct (is_ws y) eqn:Hy; [|discriminate].
      cbn [forallb]. rewrite Hy. auto. }
    rewrite forallb_forall in Hall. specialize (Hall c).
    rewrite Hall in Hc; [discriminate|]. apply in_rev. rewrite rev_involutive. now left.
  - cbn [app] in Hs. inversion Hs; subst. eauto.
Qed.

(** The value [normalizeAndValidate] stores in a string field is tidy. *)
Lemma trim_collapse_tidy (s : jstr) : tidy (trim (collapse_ws s)) = true.
Proof.
  destruct (collapse_ws_spaces (length s) s (le_n _)) as [H1 H2].
  destruct (trim_infix (collapse_ws s)) as [pre [sfx Hi]].
  unfold tidy. apply andb_true_intro; split; [apply andb_true_intro; split|].
  - unfold plain_spaces in *. rewrite Hi, !forallb_app in H1.
    apply andb_prop in H1 as [_ H1]. now apply andb_prop in H1 as [H1 _].
  - rewrite Hi in H2. apply single_spaces_app_r in H2. now apply single_spaces_app_l in H2.
  - unfold trim. pose proof (dropWhile_head is_ws (collapse_ws s)) as Hhd.
    fold (trimStart (collapse_ws s)) in Hhd.
    destruct (trimStart (collapse_ws s)) as [|c r] eqn:E; [reflexivity|].
    destruct (trimEnd_head c r Hhd) as [r' Hr]. unfold no_edge_space. rewrite Hr, Hhd.
    cbn [negb andb]. rewrite <- Hr. rewrite trimEnd_last; [reflexivity|]. now rewrite Hr.
Qed.

Lemma last_cons_indep {A} (x : A) (l : list A) (d d' : A) :
  last (x :: l) d = last (x :: l) d'.
Proof. revert x. induction l as [|y l IH]; intro x; [reflexivity|]. cbn [last]. apply IH. Qed.

Lemma tidy_pad (n : nat) (s : jstr) : s <> [] -> tidy s = true -> tidy (padStart0 n s) = true.
Proof.
  intros Hne Ht. unfold padStart0. induction (n - length s)%nat as [|z IH]; [exact Ht|].
  cbn [repeat app]. unfold tidy in *.
  apply andb_prop in IH as [IH IH3]. apply andb_prop in IH as [IH1 IH2].
  apply andb_true_intro; split; [apply andb_true_intro; split|].
  - cbn [plain_spaces forallb]. exact IH1.
  - destruct (repeat 48%N z ++ s) as [|b r] eqn:E; [reflexivity|].
    rewrite single_spaces_cons. exact IH2.
  - unfold no_edge_space in *. destruct (repeat 48%N z ++ s) as [|b r] eqn:E.
    { destruct z; cbn in E; [congruence|discriminate]. }
    apply andb_prop in IH3 as [_ IH3]. cbn [last].
    replace (is_ws 48) with false by reflexivity. cbn [negb andb].
    change (negb (is_ws (last (b :: r) 48%N)) = true).
    now rewrite (last_cons_indep b r 48%N b).
Qed.

(** *** The fields of a normalised record *)

Definition listed (spec : FieldSpec) : list string :=
  fs_string spec ++ fs_number spec ++ fs_boolean spec.

(** The record before the date parts are padded. *)
Lemma lookup_typed_loops (P : Platform) (spec : FieldSpec) (raw : JsValue) (k : string) :
  lookup k
    (fold_left (fun o k => obj_set k (VBool (coerceBoolean P (opt_get raw k))) o)
       (fs_boolean spec)
       (fold_left (fun o k => obj_set k (normalizeNumber P (opt_get raw k)) o)
          (fs_number spec)
          (fold_left (fun o k => obj_set k (normString P raw k) o) (fs_string spec) [])))
  = if mem k (fs_boolean spec) then Some (VBool (coerceBoolean P (opt_get raw k)))
    else if mem k (fs_number spec) then Some (normalizeNumber P (opt_get raw k))
    else if mem k (fs_string spec) then Some (normString P raw k)
    else None.
Proof.
  rewrite (lookup_fold_set (fun k => VBool (coerceBoolean P (opt_get raw k)))).
  rewrite (lookup_fold_set (fun k => normalizeNumber P (opt_get raw k))).
  now rewrite (lookup_fold_set (fun k => normString P raw k)).
Qed.

Lemma lookup_padDatePart_none (P : Platform) (k k' : string) (n : nat) (out : Item) :
  lookup k out = None -> lookup k (padDatePart P k' n out) = None.
Proof.
  intro Hk. destruct (string_dec k k') as [<-|Hn].
  - unfold padDatePart. now rewrite Hk.
  - now rewrite lookup_padDatePart_other.
Qed.

Lemma lookup_padDatePart_tidy (P : Platform) (k k' : string) (n : nat) (out : Item)
  (s : jstr) :
  lookup k out = Some (VStr s) -> tidy s = true ->
  exists s', lookup k (padDatePart P k' n out) = Some (VStr s') /\ tidy s' = true.
Proof.
  intros Hk Ht. destruct (string_dec k k') as [<-|Hn].
  - unfold padDatePart. rewrite Hk, lookup_obj_set_eq. eexists; split; [reflexivity|].
    destruct s as [|c r]; [reflexivity|]. cbn [truthy toStr].
    apply tidy_pad; [discriminate | exact Ht].
  - rewrite lookup_padDatePart_other by assumption. eauto.
Qed.

Lemma normalizeNumber_finite (P : Platform) (v : JsValue) :
  normalizeNumber P v = VNull
  \/ exists x, normalizeNumber P v = VNum x /\ is_finite x = true.
Proof.
  unfold normalizeNumber. destruct (nullish v); [now left|].
  destruct v; try (destruct (is_finite _) eqn:E; [right; eauto | now left]).
Qed.


(** X2. Every string field of a normalised record is a string in which
    white space occurs only as single U+0020 characters between two other
    characters (the date parts included, which are padded with zeros), and
    every number field is null or a finite number, never NaN or an
    infinity. *)
Theorem normalizeAndValidate_tidy (P : Platform) (sc : option Schema)
  (items : JsValue) (transactionType : string) :
  schema_wf sc ->
  dates_are_strings (getFieldSpec sc transactionType) ->
  Forall (fun out =>
            (forall k, In k (fs_string (getFieldSpec sc transactionType)) ->
               exists s, lookup k out = Some (VStr s) /\ tidy s = true)
            /\ (forall k, In k (fs_number (getFieldSpec sc transactionType)) ->
                  lookup k out = Some VNull
                  \/ exists x, lookup k out = Some (VNum x) /\ is_finite x = true))
    (normalizeAndValidate P sc items transactionType).
Proof.
  intros Hwf Hdates. pose proof (getFieldSpec_disjoint sc transactionType Hwf) as Hdis.
  unfold normalizeAndValidate. set (spec := getFieldSpec sc transactionType) in *.
  apply Forall_forall. intros out Hin. apply in_map_iff in Hin as [raw [<- _]].
  split.
  - intros k Hs. destruct (Hdis k) as [Hd _]. destruct (Hd Hs) as [Hn Hb].
    apply mem_not_In in Hn, Hb. apply mem_In in Hs. unfold normalizeItem.
    assert (E : exists s, lookup k
                 (fold_left (fun o k => obj_set k (VBool (coerceBoolean P (opt_get raw k))) o)
                    (fs_boolean spec)
                    (fold_left (fun o k => obj_set k (normalizeNumber P (opt_get raw k)) o)
                       (fs_number spec)
                       (fold_left (fun o k => obj_set k (normString P raw k) o)
                          (fs_string spec) []))) = Some (VStr s) /\ tidy s = true).
    { rewrite lookup_typed_loops, Hb, Hn, Hs. unfold normString.
      eexists; split; [reflexivity | apply trim_collapse_tidy]. }
    destruct E as [s0 [E0 T0]].
    destruct (lookup_padDatePart_tidy P k "rqt_day" 2 _ s0 E0 T0) as [s1 [E1 T1]].
    destruct (lookup_padDatePart_tidy P k "rqt_mth" 2 _ s1 E1 T1) as [s2 [E2 T2]].
    destruct (lookup_padDatePart_tidy P k "rqt_yr" 4 _ s2 E2 T2) as [s3 [E3 T3]].
    eauto.
  - intros k Hn.
    destruct (normalizeItem_total P spec raw Hdis Hdates) as [_ [Hnum _]].
    destruct (Hnum k Hn) as [v [Hv [Ev _]]]. rewrite Hv, Ev.
    destruct (normalizeNumber_finite P (js_get raw k)) as [->|[x [-> Hx]]]; [now left|].
    right. eauto.
Qed.

(** An item with a property the schema does not know, untidy strings and a
    quantity that is not a number. *)
Definition untidyItem : JsValue :=
  VObj [ ("description", VStr (js "  Hex   bolt  M8 "));
         ("qnty_total", VStr (js "n/a"));
         ("hack", VStr (js "x")) ]%string.

Lemma normalizeAndValidate_tidy_witness :
  map (fun out => (lookup "description" out, lookup "qnty_total" out, lookup "hack" out))
    (normalizeAndValidate Demo.platform (Some TNO_SCHEMA) (VArr [untidyItem]) "default")
  = [(Some (VStr (js "Hex bolt M8")), Some VNull, None)]
  /\ Forall (fun out =>
            (forall k, In k (fs_string (getFieldSpec (Some TNO_SCHEMA) "default")) ->
               exists s, lookup k out = Some (VStr s) /\ tidy s = true)
            /\ (forall k, In k (fs_number (getFieldSpec (Some TNO_SCHEMA) "default")) ->
                  lookup k out = Some VNull
                  \/ exists x, lookup k out = Some (VNum x) /\ is_finite x = true))
       (normalizeAndValidate Demo.platform (Some TNO_SCHEMA) (VArr [untidyItem]) "default").
Proof.
  split; [vm_compute; reflexivity|].
  apply (@normalizeAndValidate_tidy Demo.platform (Some TNO_SCHEMA) (VArr [untidyItem])
           "default").
  - apply shipped_schema_wf.
  - apply (shipped_dates_are_strings "default").
Defined.

(** *** Sanitisation: length limits and runs *)

(** The limit [sanitizeItems] applies to a string field. *)
Definition limit_of (sc : option Schema) (transactionType : string) (k : string) : Z :=
  match lookup k (getFieldMaxLens sc transactionType) with
  | Some n => n
  | None => DEFAULT_STRING_MAXLEN
  end.

Lemma lookup_In {V} (k : string) (v : V) (o : list (string * V)) :
  lookup k o = Some v -> In (k, v) o.
Proof.
  induction o as [|[k' v'] o IH]; cbn [lookup]; [discriminate|].
  destruct (String.eqb_spec k k') as [->|Hn].
  - intro E; inversion E; now left.
  - intro E; right; auto.
Qed.

Lemma limit_of_positive (sc : option Schema) (transactionType : string) (k : string) :
  (0 < limit_of sc transactionType k)%Z.
Proof.
  unfold limit_of. destruct (lookup k _) as [n|] eqn:E; [|reflexivity].
  apply lookup_In in E. unfold getFieldMaxLens in E.
  destruct sc as [s|]; [|destruct E]. destruct (fields s) as [fs|]; [|destruct E].
  apply in_flat_map in E as [[k' def] [_ Hin]].
  destruct (mem k' _ && type_is "string" def); [|destruct Hin].
  destruct (f_maxLen def) as [ml|]; [|destruct Hin].
  destruct (Z.ltb_spec 0 ml); [|destruct Hin].
  destruct Hin as [E|[]]. inversion E; subst. assumption.
Qed.

Lemma cleanAndClampString_length (P : Platform) (v : JsValue) (cap : Z) :
  (0 <= cap)%Z -> (Z.of_nat (length (cleanAndClampString P v (Some cap))) <= cap)%Z.
Proof.
  intro Hcap. unfold cleanAndClampString.
  destruct (isNoiseString _); [cbn; lia|].
  destruct (Z.ltb_spec cap (Z.of_nat (length (replaceAll m_repeat_run
              (trim (collapse_ws (filter (fun c => negb (is_zero_width c))
                 (toStr P (if nullish v then VStr [] else v))))))))); [|lia].
  unfold slice0. destruct (Z.ltb_spec cap 0); [lia|].
  rewrite length_firstn. lia.
Qed.

(** The loop of [sanitizeItems] over the string fields. *)
Lemma sanitizeItem_spec (P : Platform) (limitsMap : list (string * Z)) (l : list string) :
  forall (row : Item) (k : string),
    let out := fold_left
                 (fun out k =>
                    let limit := match lookup k limitsMap with
                                 | Some n => n
                                 | None => DEFAULT_STRING_MAXLEN
                                 end in
                    let cur := match lookup k out with Some v => v | None => VUndef end in
                    obj_set k (VStr (cleanAndClampString P cur (Some limit))) out)
                 l row in
    (In k l ->
       exists cur, lookup k out
                   = Some (VStr (cleanAndClampString P cur
                                   (Some match lookup k limitsMap with
                                         | Some n => n
                                         | None => DEFAULT_STRING_MAXLEN
                                         end))))
    /\ (~ In k l -> lookup k out = lookup k row).
Proof.
  induction l as [|a l IH]; intros row k; cbn [fold_left].
  - split; [intros [] | reflexivity].
  - cbv zeta in *. split.
    + intros Hin. destruct (in_dec string_dec k l) as [Hl|Hl].
      * apply (proj1 (IH _ k) Hl).
      * destruct Hin as [->|Hin]; [|contradiction].
        rewrite (proj2 (IH _ k) Hl), lookup_obj_set_eq. eauto.
    + intros Hn. rewrite (proj2 (IH _ k)) by (intro Hl; apply Hn; now right).
      apply lookup_obj_set_ne. intros ->. apply Hn. now left.
Qed.


Example sanitizeItems_shipped_limits :
  map (limit_of (Some TNO_SCHEMA) "default")
    ["stkcode_code"; "description"; "remark"; "uom_trans_code"]%string
  = [64; 120; 500; 16]%Z
  /\ map (fun out => lookup "uom_trans_code" out)
       (sanitizeItems Demo.platform (Some TNO_SCHEMA)
          [[("uom_trans_code", VStr (js "pieces per carton of twelve"));
            ("qnty_total", VNum 3)]]%string "default")
     = [Some (VStr (js "pieces per carto"))].
Proof. split; vm_compute; reflexivity. Qed.

(** No line terminator survives the collapse of white space. *)
Lemma plain_spaces_no_terminator (s : jstr) :
  plain_spaces s = true -> forallb (fun c => negb (is_line_terminator c)) s = true.
Proof.
  unfold plain_spaces. rewrite !forallb_forall. intros Hp c Hc. specialize (Hp c Hc).
  destruct (is_line_terminator c) eqn:Hlt; [|reflexivity].
  unfold is_line_terminator in Hlt. apply existsb_exists in Hlt as [x [Hx E]].
  apply N.eqb_eq in E. subst x.
  cbn [In] in Hx. repeat (destruct Hx as [<-|Hx]; [discriminate Hp|]). destruct Hx.
Qed.

(** The scan for [/(.)\1{4,}/g] only emits characters of its input. *)
Lemma gsub_repeat_chars (p : N -> bool) (bound : nat) :
  forall s k, (length s <= bound)%nat -> forallb p s = true ->
              forallb p (gsub m_repeat_run k s) = true.
Proof.
  induction bound as [|bound IH]; intros s k Hlen Hall.
  - destruct s; [reflexivity | simpl in Hlen; lia].
  - destruct s as [|c r]; [reflexivity|]. simpl in Hlen.
    cbn [forallb] in Hall. apply andb_prop in Hall as [Hc Hr].
    destruct k as [|k]; [|cbn [gsub]; apply IH; [lia | exact Hr]].
    rewrite gsub_repeat_cons.
    destruct (negb (is_line_terminator c) && (5 <=? S (lead c r))%nat).
    + cbn [app forallb]. rewrite Hc. cbn [andb]. apply IH; [lia | exact Hr].
    + cbn [forallb]. rewrite Hc. cbn [andb]. apply IH; [lia | exact Hr].
Qed.

Lemma lead_run (c : N) (n : nat) (post : jstr) : (n <= lead c (repeat c n ++ post))%nat.
Proof.
  induction n as [|n IH]; [lia|]. cbn [repeat app]. rewrite lead_cons, N.eqb_refl. lia.
Qed.

Lemma has_run_finds (c : N) (n : nat) (pre post : jstr) :
  (5 <= n)%nat -> has_run 5 (pre ++ repeat c n ++ post) = false ->
  is_line_terminator c = true.
Proof.
  intros Hn. induction pre as [|a pre IH]; cbn [app].
  - destruct n as [|n]; [lia|]. cbn [repeat app]. rewrite has_run_cons.
    intro Hr. apply orb_false_elim in Hr as [Hr _].
    destruct (is_line_terminator c); [reflexivity|]. cbn [negb andb] in Hr.
    apply Nat.leb_gt in Hr. pose proof (lead_run c n post). lia.
  - rewrite has_run_cons. intro Hr. apply orb_false_elim in Hr as [_ Hr]. auto.
Qed.

(** X4. Whatever the value and the limit, the string [cleanAndClampString]
    returns never has the same character five times in a row. *)
Theorem cleanAndClampString_no_run_of_five (P : Platform) (value : JsValue)
  (maxLen : option Z) (c : N) (n : nat) (pre post : jstr) :
  (5 <= n)%nat ->
  cleanAndClampString P value maxLen <> pre ++ repeat c n ++ post.
Proof.
  intros Hn. unfold cleanAndClampString.
  set (s0 := trim (collapse_ws (filter (fun c => negb (is_zero_width c))
                                  (toStr P (if nullish value then VStr [] else value))))).
  set (s := replaceAll m_repeat_run s0).
  assert (Hrun : has_run 5 s = false) by (apply (@collapse_bounds_runs (length s0)); lia).
  assert (Hlt : forallb (fun c => negb (is_line_terminator c)) s = true).
  { apply (@gsub_repeat_chars _ (length s0)); [lia|].
    apply plain_spaces_no_terminator.
    pose proof (trim_collapse_tidy (filter (fun c => negb (is_zero_width c))
                  (toStr P (if nullish value then VStr [] else value)))) as Ht.
    unfold tidy in Ht. apply andb_prop in Ht as [Ht _]. now apply andb_prop in Ht as [Ht _]. }
  assert (Hpre : forall k, firstn k s <> pre ++ repeat c n ++ post).
  { intros k E.
    assert (Es : s = pre ++ repeat c n ++ (post ++ skipn k s)).
    { rewrite <- (firstn_skipn k s) at 1. rewrite E. now rewrite <- !app_assoc. }
    rewrite Es in Hrun. pose proof (has_run_finds c n pre _ Hn Hrun) as Hc.
    rewrite forallb_forall in Hlt. specialize (Hlt c).
    rewrite Hc in Hlt. discriminate Hlt.
    rewrite Es. apply in_or_app. right. apply in_or_app. left.
    destruct n; [lia | now left]. }
  destruct (isNoiseString s).
  - intro E. destruct pre; [|discriminate]. destruct n; [lia | discriminate].
  - destruct (_ <? _)%Z.
    + unfold slice0. destruct (_ <? 0)%Z; apply Hpre.
    + rewrite <- (firstn_all s). apply Hpre.
Qed.

Lemma cleanAndClampString_no_run_of_five_witness :
  cleanAndClampString Demo.platform (VStr (js "-----  ----")) None = js "--- ----"
  /\ cleanAndClampString Demo.platform (VStr (js "-----  ----")) None
     <> js "--- " ++ repeat 45%N 5 ++ [].
Proof.
  split; [vm_compute; reflexivity|].
  apply (@cleanAndClampString_no_run_of_five Demo.platform (VStr (js "-----  ----")) None
           45%N 5%nat (js "--- ") []). lia.
Defined.

End RecordFacts.

(** ** The fallback of the response parser *)

Module FallbackFacts.
Import Js Schema Ocr.

Lemma indexOf_first (c : N) (pre r : jstr) :
  indexOf c pre = None -> indexOf c (pre ++ c :: r) = Some (length pre).
Proof.
  induction pre as [|x pre IH]; cbn [app indexOf length].
  - now rewrite N.eqb_refl.
  - destruct (x =? c)%N; [discriminate|].
    destruct (indexOf c pre); [discriminate|]. intros _. now rewrite IH.
Qed.

Lemma indexOf_none_app (c : N) (a b : jstr) :
  indexOf c a = None -> indexOf c b = None -> indexOf c (a ++ b) = None.
Proof.
  induction a as [|x a IH]; cbn [app indexOf]; auto.
  destruct (x =? c)%N; [discriminate|].
  destruct (indexOf c a); [discriminate|]. intros _ Hb. now rewrite IH.
Qed.

Lemma indexOf_none_rev (c : N) (s : jstr) : indexOf c s = None -> indexOf c (rev s) = None.
Proof.
  induction s as [|x s IH]; cbn [rev indexOf]; auto.
  destruct (x =? c)%N eqn:E; [discriminate|].
  destruct (indexOf c s); [discriminate|]. intros _.
  apply indexOf_none_app; [auto|]. cbn. now rewrite E.
Qed.

Lemma lastIndexOf_last (c : N) (a post : jstr) :
  indexOf c post = None -> lastIndexOf c (a ++ c :: post) = Some (length a).
Proof.
  intro Hp. unfold lastIndexOf. rewrite rev_app_distr. cbn [rev]. rewrite <- app_assoc.
  cbn [app]. rewrite indexOf_first by now apply indexOf_none_rev.
  f_equal. rewrite length_app, length_rev. cbn [length]. lia.
Qed.

(** X5. When the cleaned text of a response does not parse as a whole and
    has an opening bracket before its last closing bracket, the items are
    those of the text from the first opening bracket to the last closing
    one, whatever stands before and after; and an empty list when that
    slice does not parse either. *)
Theorem safeJsonExtract_bracket_slice (P : Platform) (sc : option Schema)
  (transactionType : string) (text pre body post : jstr) :
  cleanText text = pre ++ 91%N :: body ++ 93%N :: post ->
  indexOf 91%N pre = None ->
  indexOf 93%N post = None ->
  JSON_parse P (cleanText text) = None ->
  safeJsonExtract P sc text transactionType
  = match parseItems P sc (91%N :: body ++ [93%N]) transactionType with
    | Some items => items
    | None => []
    end.
Proof.
  intros Hc Hpre Hpost Hwhole. unfold safeJsonExtract.
  destruct text as [|t0 text']; [destruct pre; discriminate|].
  set (cleaned := cleanText (t0 :: text')) in *.
  unfold parseItems at 1. rewrite Hwhole. rewrite Hc.
  rewrite indexOf_first by assumption.
  change (pre ++ 91%N :: body ++ 93%N :: post) with (pre ++ (91%N :: body) ++ 93%N :: post).
  rewrite app_assoc, lastIndexOf_last by assumption.
  replace (length pre <? length (pre ++ 91%N :: body))%nat with true
    by (symmetry; apply Nat.ltb_lt; rewrite length_app; cbn [length]; lia).
  replace (slice (length pre) (length (pre ++ 91%N :: body) + 1)
             ((pre ++ 91%N :: body) ++ 93%N :: post))
    with (91%N :: body ++ [93%N]); [reflexivity|].
  unfold slice. rewrite <- app_assoc, skipn_app, skipn_all, Nat.sub_diag. cbn [skipn app].
  rewrite length_app. cbn [length].
  replace (length pre + S (length body) + 1 - length pre)%nat
    with (length (91%N :: body ++ [93%N]) + 0)%nat
    by (cbn [length]; rewrite length_app; cbn [length]; lia).
  change (91%N :: body ++ 93%N :: post) with ((91%N :: body) ++ 93%N :: post).
  change (93%N :: post) with ([93%N] ++ post). rewrite app_assoc.
  rewrite firstn_app_2. cbn [firstn]. now rewrite app_nil_r.
Qed.

(** A fenced answer with a sentence before the array. *)
Lemma safeJsonExtract_bracket_slice_witness :
  map (fun it => lookup "description" it)
    (safeJsonExtract Demo.platform (Some TNO_SCHEMA)
       (Demo.jq "Here you are: ```json [{'description':'Nut'}] ``` Bye.") "default")
  = [Some (VStr (js "Nut"))].
Proof.
  rewrite (@safeJsonExtract_bracket_slice Demo.platform (Some TNO_SCHEMA) "default"
             (Demo.jq "Here you are: ```json [{'description':'Nut'}] ``` Bye.")
             (js "Here you are:  ") (Demo.jq "{'description':'Nut'}") (js "  Bye.")
             ltac:(vm_compute; reflexivity) ltac:(vm_compute; reflexivity)
             ltac:(vm_compute; reflexivity) ltac:(vm_compute; reflexivity)).
  vm_compute. reflexivity.
Defined.

End FallbackFacts.

(** ** Compression, for every encoder *)

Module EncoderFacts.
Import Js Num Compress CompressFacts.

Definition fits (target : float) (b : Blob) : bool := PrimFloat.leb (of_Z (b_size b)) target.

(** What the file is when a blob was kept. *)
Definition asJpeg (file : File) (b : Blob) : File :=
  {| name := jpegName file; mime := js "image/jpeg"; size := b_size b |}.

Lemma in_firstn {A} (x : A) (n : nat) (l : list A) : In x (firstn n l) -> In x l.
Proof.
  revert l. induction n as [|n IH]; intros [|y l]; cbn [firstn In]; auto; try tauto.
  intros [E|Hin]; auto.
Qed.

Lemma canvas_dim_positive (w : Z) (scale : float) : (1 <= canvas_dim w scale)%Z.
Proof. unfold canvas_dim. destruct (floor _); lia. Qed.

Section Canvas.
Variable decode : File -> option (Z * Z).
Variable encode : File -> Z -> Z -> float -> option Z.

(** Whatever the encoder answers, the loop follows the schedule of the
    settings for as long as it runs. *)
Lemma compressLoop_follows_schedule (file : File) (target : float) (w h : Z) :
  forall iters scale quality best,
    exists n,
      map settings (snd (compressLoop encode file target w h iters scale quality best))
      = firstn n (map (drawn w h) (schedule iters scale quality)).
Proof.
  induction iters as [|k IH]; intros scale quality best; [exists 0%nat; reflexivity|].
  cbn [compressLoop schedule].
  destruct (encode file (canvas_dim w scale) (canvas_dim h scale) quality) as [sz|];
    [|exists 0%nat; reflexivity].
  destruct (PrimFloat.leb (of_Z sz) target); [exists 1%nat; reflexivity|].
  destruct (adjust scale quality) as [[s' q']|]; [|exists 1%nat; reflexivity].
  match goal with |- context [compressLoop encode file target w h k s' q' ?b'] =>
    destruct (IH s' q' b') as [n Hn];
    destruct (compressLoop encode file target w h k s' q' b') as [r tr] end.
  exists (S n). cbn [snd map firstn] in *. now rewrite Hn.
Qed.

Lemma compressLoop_first_fit (file : File) (target : float) (w h : Z) :
  forall iters scale quality best r tr,
    compressLoop encode file target w h iters scale quality best = (r, tr) ->
    forall b, In b tr -> fits target b = true ->
      r = Some (Some b)
      /\ exists before, tr = before ++ [b] /\ forallb (fun x => negb (fits target x)) before = true.
Proof.
  induction iters as [|k IH]; intros scale quality best r tr Hrun b Hin Hfit.
  - cbn in Hrun. inversion Hrun; subst. destruct Hin.
  - cbn [compressLoop] in Hrun.
    destruct (encode file (canvas_dim w scale) (canvas_dim h scale) quality) as [sz|];
      [|inversion Hrun; subst; destruct Hin].
    set (blob := {| b_size := sz; b_width := canvas_dim w scale;
                    b_height := canvas_dim h scale; b_quality := quality |}) in *.
    destruct (PrimFloat.leb (of_Z sz) target) eqn:Hsz.
    + inversion Hrun; subst. destruct Hin as [<-|[]]. split; [reflexivity|].
      exists []. split; reflexivity.
    + assert (Hblob : fits target blob = false) by exact Hsz.
      destruct (adjust scale quality) as [[s' q']|].
      * match type of Hrun with context [compressLoop encode file target w h k s' q' ?b'] =>
          destruct (compressLoop encode file target w h k s' q' b') as [r' tr'] eqn:Hrec end.
        inversion Hrun; subst. destruct Hin as [<-|Hin]; [congruence|].
        destruct (IH _ _ _ _ _ Hrec b Hin Hfit) as [Hr [before [Ht Hb]]].
        split; [exact Hr|]. exists (blob :: before). split; [now rewrite Ht|].
        cbn [forallb]. now rewrite Hblob, Hb.
      * inversion Hrun; subst. destruct Hin as [<-|[]]. congruence.
Qed.

Lemma compressLoop_total (file : File) (target : float) (w h : Z) :
  (forall cw ch q, encode file cw ch q <> None) ->
  forall iters scale quality best,
    fst (compressLoop encode file target w h iters scale quality best) <> None.
Proof.
  intro Henc. induction iters as [|k IH]; intros scale quality best; [discriminate|].
  cbn [compressLoop].
  destruct (encode file (canvas_dim w scale) (canvas_dim h scale) quality) as [sz|] eqn:E;
    [|now apply Henc in E].
  destruct (PrimFloat.leb (of_Z sz) target); [discriminate|].
  destruct (adjust scale quality) as [[s' q']|]; [|discriminate].
  match goal with |- context [compressLoop encode file target w h k s' q' ?b'] =>
    specialize (IH s' q' b');
    destruct (compressLoop encode file target w h k s' q' b') as [r tr] end.
  exact IH.
Qed.

Lemma compressLoop_encodes (file : File) (target : float) (w h : Z) (k : nat)
  (scale quality : float) (best : option Blob) (r : option Blob) :
  compressLoop encode file target w h (S k) scale quality best <> (Some r, []).
Proof.
  cbn [compressLoop].
  destruct (encode file (canvas_dim w scale) (canvas_dim h scale) quality) as [sz|];
    [|discriminate].
  destruct (PrimFloat.leb (of_Z sz) target); [discriminate|].
  destruct (adjust scale quality) as [[s' q']|]; [|discriminate].
  match goal with |- context [compressLoop encode file target w h k s' q' ?b'] =>
    destruct (compressLoop encode file target w h k s' q' b') end.
  discriminate.
Qed.

(** X6. Whatever the encoder answers, the canvases [compressImage] encodes
    follow one fixed schedule from its start: the first at full size with
    quality 0.9, at most fourteen in all, none with a quality under 0.25
    and none narrower or lower than one pixel. *)
Theorem compressImage_encodings (file : File) (targetKB : float) (w h : Z) :
  starts_with (js "image/") (mime file) = true ->
  decode file = Some (w, h) ->
  let tr := snd (compressImage decode encode file targetKB) in
  (exists n, map settings tr = firstn n (map (drawn w h) (schedule 15 1.0 0.9)))
  /\ (length tr <= 14)%nat
  /\ Forall (fun b => PrimFloat.leb minQuality (b_quality b) = true
                      /\ PrimFloat.leb (b_quality b) 0.9 = true
                      /\ (1 <= b_width b)%Z /\ (1 <= b_height b)%Z) tr.
Proof.
  intros Hmime Hdec tr.
  assert (Hpre : exists n, map settings tr = firstn n (map (drawn w h) (schedule 15 1.0 0.9))).
  { unfold tr, compressImage. rewrite Hmime, Hdec. cbn [negb].
    destruct (compressLoop_follows_schedule file (targetBytes targetKB) w h 15 1.0 0.9 None)
      as [n Hn].
    exists n. rewrite <- Hn.
    destruct (compressLoop encode file (targetBytes targetKB) w h 15 1 0.9 None)
      as [[[b|]|] t]; reflexivity. }
  split; [exact Hpre|]. destruct Hpre as [n Hn]. split.
  - rewrite <- (length_map settings), Hn, length_firstn, length_map, schedule_from_start.
    cbn [length]. lia.
  - assert (Hall : Forall (fun sq : float * float =>
                             PrimFloat.leb minQuality (snd sq) = true
                             /\ PrimFloat.leb (snd sq) 0.9 = true)
                     (schedule 15 1.0 0.9)).
    { rewrite schedule_from_start. repeat constructor. }
    apply Forall_forall. intros b Hb.
    assert (Hs : In (settings b) (firstn n (map (drawn w h) (schedule 15 1.0 0.9)))).
    { rewrite <- Hn. now apply in_map. }
    apply in_firstn in Hs. apply in_map_iff in Hs as [sq [E Hsq]].
    rewrite Forall_forall in Hall. destruct (Hall sq Hsq) as [H1 H2].
    unfold settings, drawn in E. injection E as Ew Eh Eq.
    rewrite <- Eq, <- Ew, <- Eh.
    repeat split; auto using canvas_dim_positive.
Qed.

(** X7. When one of the encodings is within the target, it is the last
    one made, none before it was within the target, and the file returned
    is that encoding, as a JPEG file named after the original. *)
Theorem compressImage_first_fit (file : File) (targetKB : float) (w h : Z) (b : Blob) :
  starts_with (js "image/") (mime file) = true ->
  decode file = Some (w, h) ->
  In b (snd (compressImage decode encode file targetKB)) ->
  fits (targetBytes targetKB) b = true ->
  fst (compressImage decode encode file targetKB) = asJpeg file b
  /\ exists before,
       snd (compressImage decode encode file targetKB) = before ++ [b]
       /\ forallb (fun x => negb (fits (targetBytes targetKB) x)) before = true.
Proof.
  unfold compressImage. intros Hmime Hdec. rewrite Hmime, Hdec. cbn [negb].
  destruct (compressLoop encode file (targetBytes targetKB) w h 15 1 0.9 None)
    as [r tr] eqn:Hrun.
  intros Hin Hfit.
  assert (Hin' : In b tr) by (destruct r as [[x|]|]; exact Hin).
  destruct (compressLoop_first_fit _ _ _ _ _ _ _ _ _ _ Hrun b Hin' Hfit) as [-> Hb].
  split; [reflexivity | exact Hb].
Qed.

(** X8. When the encoder never fails and no encoding is within the target,
    the file returned is a JPEG file named after the original whose size is
    the smallest of the sizes encoded. *)
Theorem compressImage_keeps_smallest (file : File) (targetKB : float) (w h : Z) :
  starts_with (js "image/") (mime file) = true ->
  decode file = Some (w, h) ->
  (forall cw ch q, encode file cw ch q <> None) ->
  forallb (fun x => negb (fits (targetBytes targetKB) x))
    (snd (compressImage decode encode file targetKB)) = true ->
  exists b,
    In b (snd (compressImage decode encode file targetKB))
    /\ fst (compressImage decode encode file targetKB) = asJpeg file b
    /\ forall b', In b' (snd (compressImage decode encode file targetKB)) ->
                  (b_size b <= b_size b')%Z.
Proof.
  unfold compressImage. intros Hmime Hdec Henc. rewrite Hmime, Hdec. cbn [negb].
  pose proof (compressLoop_total file (targetBytes targetKB) w h Henc 15 1.0 0.9 None) as Htot.
  destruct (compressLoop encode file (targetBytes targetKB) w h 15 1 0.9 None)
    as [r tr] eqn:Hrun.
  cbn [fst] in Htot. destruct r as [r|]; [|congruence]. intro Hmiss.
  assert (Hmiss' : forall b, In b tr -> PrimFloat.leb (of_Z (b_size b)) (targetBytes targetKB)
                                        = false).
  { rewrite forallb_forall in Hmiss. intros b Hb.
    assert (Hb' : In b (snd (match r with
                             | Some b0 => (asJpeg file b0, tr)
                             | None => ({| name := jpegName file; mime := js "image/jpeg";
                                           size := size file |}, tr)
                             end))) by (destruct r; exact Hb).
    specialize (Hmiss b Hb'). now apply negb_true_iff in Hmiss. }
  pose proof (@compressLoop_keeps_smallest encode file (targetBytes targetKB) w h
                15 1.0 0.9 None r tr Hrun Hmiss') as Hk.
  destruct r as [rb|].
  - destruct Hk as [[Hin|E] [Hmin _]]; [|discriminate].
    exists rb. cbn [fst snd]. auto.
  - exfalso. destruct Hk as [_ Ht]. subst tr.
    exact (compressLoop_encodes file (targetBytes targetKB) w h 14 1.0 0.9 None None Hrun).
Qed.

End Canvas.

(** A scan whose encodings weigh a tenth of a byte per pixel and quality
    point: the fourth encoding, at quality 0.6, is the first under 100 KB. *)
Definition scanEncoder (f : File) (cw ch : Z) (q : float) : option Z :=
  match floor (of_Z (cw * ch) * q * 0.2) with
  | Some n => Some n
  | None => None
  end.

Lemma compressImage_encodings_witness :
  map settings
    (snd (compressImage (fun _ => Some (1000, 800)%Z) scanEncoder bigPicture 100))
  = [ (1000%Z, 800%Z, 0.9%float); (1000%Z, 800%Z, 0.8%float);
      (1000%Z, 800%Z, 0.7%float); (1000%Z, 800%Z, 0.6%float) ]
  /\ (length (snd (compressImage (fun _ => Some (1000, 800)%Z) scanEncoder bigPicture 100))
      <= 14)%nat.
Proof.
  split; [vm_compute; reflexivity|].
  apply (@compressImage_encodings (fun _ => Some (1000, 800)%Z) scanEncoder bigPicture 100
           1000 800 eq_refl eq_refl).
Defined.

Lemma compressImage_first_fit_witness :
  fst (compressImage (fun _ => Some (1000, 800)%Z) scanEncoder bigPicture 100)
  = {| name := js "scan.jpg"; mime := js "image/jpeg"; size := 96000 |}.
Proof.
  apply (@compressImage_first_fit (fun _ => Some (1000, 800)%Z) scanEncoder bigPicture 100
           1000 800
           {| b_size := 96000; b_width := 1000; b_height := 800; b_quality := 0.6 |}
           eq_refl eq_refl).
  - vm_compute. right; right; right; left. reflexivity.
  - vm_compute. reflexivity.
Defined.

Lemma compressImage_keeps_smallest_witness :
  exists b,
    In b (snd (compressImage (fun _ => Some (1000, 800)%Z) (fun _ cw ch _ => Some (cw * ch)%Z)
                 bigPicture 100))
    /\ size (fst (compressImage (fun _ => Some (1000, 800)%Z)
                    (fun _ cw ch _ => Some (cw * ch)%Z) bigPicture 100))
       = b_size b
    /\ b_size b = (377 * 301)%Z.
Proof.
  destruct (@compressImage_keeps_smallest (fun _ => Some (1000, 800)%Z)
              (fun _ cw ch _ => Some (cw * ch)%Z) bigPicture 100 1000 800
              eq_refl eq_refl)
    as [b [Hin [Hout Hmin]]].
  - intros cw ch q. discriminate.
  - vm_compute. reflexivity.
  - exists b. split; [exact Hin|]. rewrite Hout. split; [reflexivity|].
    assert (E : size (fst (compressImage (fun _ => Some (1000, 800)%Z)
                             (fun _ cw ch _ => Some (cw * ch)%Z) bigPicture 100))
                = (377 * 301)%Z) by (vm_compute; reflexivity).
    rewrite Hout in E. exact E.
Defined.

End EncoderFacts.

(** ** The element names of the shipped schema *)

Module NameFacts.
Import Js Schema AddRows ObjFacts EngineFacts.

Local Open Scope Z_scope.

Lemma digits_value_last (v : Z) (s : jstr) (c : N) :
  digits_value v (s ++ [c]) = 10 * digits_value v s + (Z.of_N c - 48).
Proof. revert v. induction s as [|x s IH]; intro v; cbn [app digits_value]; auto. Qed.

Lemma digits_of_acc (fuel : nat) :
  forall n acc, digits_of fuel n acc = digits_of fuel n [] ++ acc.
Proof.
  induction fuel as [|f IH]; intros n acc; [reflexivity|].
  cbn [digits_of]. destruct (n <? 10); [reflexivity|].
  rewrite (IH _ (_ :: acc)), (IH _ [_]). now rewrite <- app_assoc.
Qed.

Lemma digit_char (n : Z) : 0 <= n -> is_digit (Z.to_N (48 + n mod 10)) = true
                                     /\ Z.of_N (Z.to_N (48 + n mod 10)) - 48 = n mod 10.
Proof.
  intro Hn. pose proof (Z.mod_pos_bound n 10 ltac:(lia)) as Hm.
  split.
  - unfold is_digit. apply andb_true_intro. split; apply N.leb_le; lia.
  - rewrite Z2N.id; lia.
Qed.

(** The digits written for a number read back as that number. *)
Lemma digits_of_value (fuel : nat) :
  forall n, 0 <= n < 2 ^ Z.of_nat (S fuel) ->
    digits_of (S fuel) n [] <> []
    /\ forallb is_digit (digits_of (S fuel) n []) = true
    /\ digits_value 0 (digits_of (S fuel) n []) = n.
Proof.
  induction fuel as [|f IH]; intros n Hn.
  - assert (Hlt : n < 10) by (cbn in Hn; lia).
    destruct (digit_char n (proj1 Hn)) as [Hd Hv].
    cbn [digits_of]. apply Z.ltb_lt in Hlt. rewrite Hlt. apply Z.ltb_lt in Hlt.
    split; [discriminate|]. split; [cbn [forallb]; now rewrite Hd|].
    cbn [digits_value]. rewrite Hv. rewrite Z.mod_small; lia.
  - destruct (digit_char n (proj1 Hn)) as [Hd Hv].
    remember (S f) as f1 eqn:Ef. cbn [digits_of].
    destruct (Z.ltb_spec n 10) as [Hlt|Hge].
    + split; [discriminate|]. split; [cbn [forallb]; now rewrite Hd|].
      cbn [digits_value]. rewrite Hv. rewrite Z.mod_small; lia.
    + rewrite digits_of_acc.
      assert (Hq : 0 <= n / 10 < 2 ^ Z.of_nat f1).
      { split; [apply Z.div_pos; lia|].
        rewrite Nat2Z.inj_succ, Z.pow_succ_r in Hn by lia.
        apply Z.div_lt_upper_bound; lia. }
      destruct (IH (n / 10) Hq) as [Hne [Hall Hval]].
      split; [intro E; apply app_eq_nil in E as [_ E]; discriminate|].
      split; [rewrite forallb_app, Hall; cbn [forallb]; now rewrite Hd|].
      rewrite digits_value_last, Hval, Hv. pose proof (Z.div_mod n 10). lia.
Qed.

Lemma log2_fuel (n : Z) : 0 <= n -> 0 <= n < 2 ^ Z.of_nat (S (Z.to_nat (Z.log2 n))).
Proof.
  intro Hn. split; [exact Hn|].
  rewrite Nat2Z.inj_succ, Z2Nat.id by apply Z.log2_nonneg.
  destruct (Z.eq_dec n 0) as [->|Hz]; [reflexivity|].
  apply Z.log2_spec. lia.
Qed.

Lemma takeWhile_all {A} (p : A -> bool) (l : list A) : forallb p l = true -> takeWhile p l = l.
Proof.
  induction l as [|x l IH]; [reflexivity|]. cbn [forallb takeWhile].
  intro Hl. apply andb_prop in Hl as [Hx Hl]. now rewrite Hx, IH.
Qed.

(** [parseInt(String(i), 10)] is [i]. *)
Lemma parseInt10_Z_to_jstr (z : Z) : parseInt10 (Z_to_jstr z) = Some z.
Proof.
  unfold Z_to_jstr. destruct (Z.ltb_spec z 0) as [Hneg|Hpos].
  - destruct (digits_of_value _ (- z) (log2_fuel (- z) ltac:(lia))) as [Hne [Hall Hval]].
    unfold parseInt10, trimStart. cbn [dropWhile]. replace (is_ws 45) with false by reflexivity.
    rewrite takeWhile_all by assumption.
    destruct (digits_of _ (- z) []) as [|d ds]; [congruence|].
    rewrite Hval. f_equal. lia.
  - destruct (digits_of_value _ z (log2_fuel z Hpos)) as [Hne [Hall Hval]].
    destruct (digits_of _ z []) as [|d ds] eqn:E; [congruence|].
    cbn [forallb] in Hall. apply andb_prop in Hall as [Hd Hds].
    assert (Hws : is_ws d = false).
    { unfold is_digit in Hd. apply andb_prop in Hd as [H1 H2].
      apply N.leb_le in H1, H2. unfold is_ws.
      apply orb_false_intro.
      - apply not_true_is_false. intro Hex. apply existsb_exists in Hex as [x [Hx Ex]].
        apply N.eqb_eq in Ex. subst x. cbn [In] in Hx.
        repeat (destruct Hx as [<-|Hx]; [lia|]). destruct Hx.
      - apply andb_false_intro1. apply N.leb_gt. lia. }
    unfold parseInt10, trimStart. cbn [dropWhile]. rewrite Hws.
    assert (H45 : d <> 45%N /\ d <> 43%N).
    { unfold is_digit in Hd. apply andb_prop in Hd as [H1 H2].
      apply N.leb_le in H1, H2. lia. }
    assert (Htw : takeWhile is_digit (d :: ds) = d :: ds).
    { apply takeWhile_all. cbn [forallb]. now rewrite Hd, Hds. }
    destruct H45 as [Hm Hp].
    assert (Hsplit : (let '(neg, u) := match d :: ds with
                                       | 45%N :: r => (true, r)
                                       | 43%N :: r => (false, r)
                                       | _ => (false, d :: ds)
                                       end in
                      match takeWhile is_digit u with
                      | [] => None
                      | ds0 => let v := digits_value 0 ds0 in Some (if neg then - v else v)
                      end) = Some z).
    { destruct d as [|p]; [now rewrite Htw, Hval|].
      do 6 (destruct p as [p|p|]; try (now rewrite Htw, Hval)); congruence. }
    exact Hsplit.
Qed.

Lemma Z_to_jstr_injective (i j : Z) : Z_to_jstr i = Z_to_jstr j -> i = j.
Proof.
  intro E. apply (f_equal parseInt10) in E. rewrite !parseInt10_Z_to_jstr in E. congruence.
Qed.

Local Close Scope Z_scope.

(** The base name and the suffix after the row number, per field of the
    shipped schema. *)
Definition shipped_dom : list (string * (jstr * jstr)) :=
  [ ("stkcode_code", (js "stkcode_code", []));
    ("description", (js "stkcode_desc", []));
    ("remark", (js "desc", []));
    ("qnty_total", (js "qnty_total", []));
    ("uom_trans_code", (js "uom_trans_code", js "_disp"));
    ("price_unitrate_forex", (js "fmi_aup", js "_disp")) ]%string.

Lemma makeSuffixFn_plain (i : Z) : makeSuffixFn (js "{i}") i = Z_to_jstr i.
Proof.
  unfold makeSuffixFn, replaceAll, m_index.
  change (js "{i}") with [123%N; 105%N; 125%N].
  cbn [gsub starts_with N.eqb Pos.eqb andb]. apply app_nil_r.
Qed.

Lemma makeSuffixFn_disp (i : Z) : makeSuffixFn (js "{i}_disp") i = Z_to_jstr i ++ js "_disp".
Proof.
  unfold makeSuffixFn, replaceAll, m_index.
  change (js "{i}") with [123%N; 105%N; 125%N].
  change (js "{i}_disp") with [123%N; 105%N; 125%N; 95%N; 100%N; 105%N; 115%N; 112%N].
  cbn [gsub starts_with N.eqb Pos.eqb andb]. reflexivity.
Qed.

Lemma shipped_allowed (txn : string) :
  getAllowedKeys (Some TNO_SCHEMA) txn
  = inr ["stkcode_code"; "description"; "remark"; "uom_trans_code";
         "qnty_total"; "price_unitrate_forex"]%string.
Proof.
  unfold getAllowedKeys. cbn [TNO_SCHEMA transactions fields lookup].
  now destruct (String.eqb txn "default").
Qed.

Lemma shipped_name_of (i : Z) (txn : string) (k : string) (b p : jstr) :
  (forall a, getAllowedKeys (Some TNO_SCHEMA) txn = inr a ->
     getColumnName (Some TNO_SCHEMA) i k txn
     = (if negb (mem k a) then inr None else inr (Some (b ++ makeSuffixFn p i)))) ->
  mem k ["stkcode_code"; "description"; "remark"; "uom_trans_code";
         "qnty_total"; "price_unitrate_forex"]%string = true ->
  getColumnName (Some TNO_SCHEMA) i k txn = inr (Some (b ++ makeSuffixFn p i)).
Proof. intros Hn Hm. rewrite (Hn _ (shipped_allowed txn)), Hm. reflexivity. Qed.

Lemma shipped_name (i : Z) (k txn : string) (n : jstr) :
  getColumnName (Some TNO_SCHEMA) i k txn = inr (Some n) ->
  exists b s, lookup k shipped_dom = Some (b, s) /\ n = b ++ Z_to_jstr i ++ s.
Proof.
  intro Hn.
  assert (Hm : In k ["stkcode_code"; "description"; "remark"; "uom_trans_code";
                     "qnty_total"; "price_unitrate_forex"]%string).
  { unfold getColumnName in Hn. rewrite shipped_allowed in Hn.
    destruct (mem k _) eqn:Hm; [now apply mem_In | discriminate]. }
  assert (Hstep : forall b p,
            (forall a, getAllowedKeys (Some TNO_SCHEMA) txn = inr a ->
               getColumnName (Some TNO_SCHEMA) i k txn
               = (if negb (mem k a) then inr None else inr (Some (b ++ makeSuffixFn p i)))) ->
            n = b ++ makeSuffixFn p i).
  { intros b p Hc. rewrite (shipped_name_of i txn k b p Hc) in Hn by now apply mem_In.
    now inversion Hn. }
  cbn [In] in Hm.
  destruct Hm as [<-|[<-|[<-|[<-|[<-|[<-|[]]]]]]].
  - exists (js "stkcode_code"), []. split; [reflexivity|].
    rewrite app_nil_r, <- makeSuffixFn_plain. apply Hstep.
    intros a Ea. unfold getColumnName. rewrite Ea. reflexivity.
  - exists (js "stkcode_desc"), []. split; [reflexivity|].
    rewrite app_nil_r, <- makeSuffixFn_plain. apply Hstep.
    intros a Ea. unfold getColumnName. rewrite Ea. reflexivity.
  - exists (js "desc"), []. split; [reflexivity|].
    rewrite app_nil_r, <- makeSuffixFn_plain. apply Hstep.
    intros a Ea. unfold getColumnName. rewrite Ea. reflexivity.
  - exists (js "uom_trans_code"), (js "_disp"). split; [reflexivity|].
    rewrite <- makeSuffixFn_disp. apply Hstep.
    intros a Ea. unfold getColumnName. rewrite Ea. reflexivity.
  - exists (js "qnty_total"), []. split; [reflexivity|].
    rewrite app_nil_r, <- makeSuffixFn_plain. apply Hstep.
    intros a Ea. unfold getColumnName. rewrite Ea. reflexivity.
  - exists (js "fmi_aup"), (js "_disp"). split; [reflexivity|].
    rewrite <- makeSuffixFn_disp. apply Hstep.
    intros a Ea. unfold getColumnName. rewrite Ea. reflexivity.
Qed.

(** X15. In the shipped schema no two fields and no two rows share an
    element: the name [getColumnName] gives determines the row and the
    field, and it is never the name of the price flag of a row. *)
Theorem shipped_names_injective (i j : Z) (k k' txn txn' : string) (n : jstr) :
  getColumnName (Some TNO_SCHEMA) i k txn = inr (Some n) ->
  getColumnName (Some TNO_SCHEMA) j k' txn' = inr (Some n) ->
  i = j /\ k = k' /\ n <> flagName j.
Proof.
  intros H1 H2.
  destruct (shipped_name i k txn n H1) as [b [s [Hk ->]]].
  destruct (shipped_name j k' txn' _ H2) as [b' [s' [Hk' E]]].
  assert (Hflag : b ++ Z_to_jstr i ++ s <> flagName j).
  { unfold flagName. clear - Hk. unfold shipped_dom in Hk. cbn [lookup] in Hk.
    repeat (destruct (String.eqb k _) in Hk;
            [inversion Hk; subst; intro E; discriminate E|]).
    discriminate. }
  unfold shipped_dom in Hk, Hk'. cbn [lookup] in Hk, Hk'.
  assert (Hsame : forall (base sfx : jstr), base ++ Z_to_jstr i ++ sfx = base ++ Z_to_jstr j ++ sfx
                                            -> i = j).
  { intros base sfx Eq. apply app_inv_head, app_inv_tail in Eq.
    now apply Z_to_jstr_injective. }
  destruct (String.eqb_spec k "stkcode_code");
    [|destruct (String.eqb_spec k "description");
      [|destruct (String.eqb_spec k "remark");
        [|destruct (String.eqb_spec k "qnty_total");
          [|destruct (String.eqb_spec k "uom_trans_code");
            [|destruct (String.eqb_spec k "price_unitrate_forex"); [|discriminate]]]]]];
    inversion Hk; subst;
    (destruct (String.eqb_spec k' "stkcode_code");
     [|destruct (String.eqb_spec k' "description");
       [|destruct (String.eqb_spec k' "remark");
         [|destruct (String.eqb_spec k' "qnty_total");
           [|destruct (String.eqb_spec k' "uom_trans_code");
             [|destruct (String.eqb_spec k' "price_unitrate_forex"); [|discriminate]]]]]]);
    inversion Hk'; subst;
    first [ discriminate E
          | split; [eapply Hsame; exact E | split; [reflexivity | exact Hflag]] ].
Qed.

Lemma shipped_names_injective_witness :
  getColumnName (Some TNO_SCHEMA) 12 "uom_trans_code" "default"
  = inr (Some (js "uom_trans_code12_disp"))
  /\ (forall j k', getColumnName (Some TNO_SCHEMA) j k' "sales"
                   = inr (Some (js "uom_trans_code12_disp")) ->
                   12%Z = j /\ "uom_trans_code"%string = k').
Proof.
  split; [vm_compute; reflexivity|].
  intros j k' Hn.
  destruct (@shipped_names_injective 12 j "uom_trans_code" k' "default" "sales"
              (js "uom_trans_code12_disp") ltac:(vm_compute; reflexivity) Hn) as [Hi [Hk _]].
  auto.
Defined.

End NameFacts.

(** ** The API key and the uploaded files *)

Module UploadFacts.
Import Js Compress Upload.

(** X16. When neither the page nor the session has a usable key and the
    user types one that is not blank, [resolveGeminiApiKey] returns it and
    stores it in the session, after one prompt and no alert; the next call
    then returns the same key without asking, unless the key typed is the
    placeholder [YOUR_GEMINI_API_KEY], in which case the user is asked
    again. *)
Theorem resolveGeminiApiKey_remembers (ks : KeyStore) (key : jstr) (answer : option jstr) :
  usable (globalKey ks) = false ->
  usable (sessionKey ks) = false ->
  trim key <> [] ->
  let ks1 := {| globalKey := globalKey ks; sessionKey := Some key |} in
  resolveGeminiApiKey (Some key) ks = (Some key, ks1, [KPrompt])
  /\ (key <> placeholder -> resolveGeminiApiKey answer ks1 = (Some key, ks1, []))
  /\ (key = placeholder ->
      exists r ks2 more, resolveGeminiApiKey answer ks1 = (r, ks2, KPrompt :: more)).
Proof.
  intros Hg Hs Hk ks1.
  assert (Hne : key <> []) by (intros ->; now apply Hk).
  destruct key as [|c r]; [congruence|].
  split; [|split].
  - unfold resolveGeminiApiKey. rewrite Hg, Hs.
    destruct (trim (c :: r)); [congruence | reflexivity].
  - intro Hp. unfold resolveGeminiApiKey, ks1. cbn [globalKey sessionKey]. rewrite Hg.
    cbn [usable]. unfold jstr_eqb. destruct (list_eq_dec N.eq_dec (c :: r) placeholder);
      [congruence | reflexivity].
  - intro Hp. unfold resolveGeminiApiKey, ks1. cbn [globalKey sessionKey]. rewrite Hg.
    cbn [usable]. unfold jstr_eqb. destruct (list_eq_dec N.eq_dec (c :: r) placeholder);
      [|congruence]. cbn [negb].
    destruct answer as [[|a0 a]|]; try (do 3 eexists; reflexivity).
    destruct (trim (a0 :: a)); do 3 eexists; reflexivity.
Qed.

Lemma resolveGeminiApiKey_remembers_witness :
  let ks := {| globalKey := Some placeholder; sessionKey := None |} in
  let ks1 := {| globalKey := Some placeholder; sessionKey := Some (js " AIza-123 ") |} in
  resolveGeminiApiKey (Some (js " AIza-123 ")) ks = (Some (js " AIza-123 "), ks1, [KPrompt])
  /\ resolveGeminiApiKey None ks1 = (Some (js " AIza-123 "), ks1, []).
Proof.
  intros ks ks1.
  destruct (@resolveGeminiApiKey_remembers ks (js " AIza-123 ") None eq_refl eq_refl
              ltac:(vm_compute; discriminate)) as [H1 [H2 _]].
  split; [exact H1|]. apply H2. vm_compute. discriminate.
Defined.

(** *** The list of files and its previews *)

Section Limits.
Variable MAX_IMAGES : Z.
Variable maxPages : Z.
Variable openPdf : File -> option (Z * (Z -> option Z)).

(** What the user does in the dialog: files are dropped or chosen, or the
    remove button of a preview is clicked. *)
Inductive UserAct : Type :=
| Drop (files : list File)
| Remove (pos : nat).

Definition act (u : Uploads) (a : UserAct) : Uploads :=
  match a with
  | Drop files => fst (handleFiles MAX_IMAGES maxPages openPdf (map fresh files) u)
  | Remove pos => removeCard pos u
  end.

Definition run (acts : list UserAct) : Uploads := fold_left act acts noUploads.

(** The previews mirror the files: same ids in the same order, all
    different, all given by the counter, each with its meta element; and
    the files are no more than the limit. *)
Definition mirrored (u : Uploads) : Prop :=
  map tnoId (uploadedFiles u) = map Some (cards u)
  /\ NoDup (cards u)
  /\ (1 <= TNO_FILE_UID u)%Z
  /\ Forall (fun id => (1 <= id < TNO_FILE_UID u)%Z) (cards u)
  /\ (forall id, In id (map fst (previewMetaById u)) <-> In id (cards u))
  /\ (Z.of_nat (length (uploadedFiles u)) <= Z.max 0 MAX_IMAGES)%Z.

Lemma in_map_set {V} (k k' : Z) (v : V) (m : list (Z * V)) :
  In k' (map fst (map_set k v m)) <-> k' = k \/ In k' (map fst m).
Proof.
  induction m as [|[k0 v0] m IH]; cbn [map_set map fst In].
  - intuition.
  - destruct (Z.eqb_spec k k0) as [->|Hn]; cbn [map fst In]; [intuition|].
    rewrite IH. intuition.
Qed.

Lemma in_map_delete {V} (k k' : Z) (m : list (Z * V)) :
  In k' (map fst (map_delete k m)) <-> k' <> k /\ In k' (map fst m).
Proof.
  unfold map_delete. rewrite !in_map_iff. split.
  - intros [[k0 v0] [E Hin]]. apply filter_In in Hin as [Hin Hp]. cbn [fst] in *. subst k0.
    apply negb_true_iff in Hp. apply Z.eqb_neq in Hp. split; [congruence|].
    exists (k', v0). auto.
  - intros [Hn [[k0 v0] [E Hin]]]. cbn [fst] in E. subst k0. exists (k', v0).
    split; [reflexivity|]. apply filter_In. split; [exact Hin|]. cbn [fst].
    apply negb_true_iff, Z.eqb_neq. congruence.
Qed.

Lemma mirrored_addImageFile (f : File) (u : Uploads) :
  mirrored u -> mirrored (addImageFile MAX_IMAGES (fresh f) u).
Proof.
  intros [Hids [Hnd [Huid [Hrange [Hmeta Hlen]]]]]. unfold addImageFile.
  destruct (Z.leb_spec MAX_IMAGES (Z.of_nat (length (uploadedFiles u)))) as [Hfull|Hroom].
  - repeat split; auto; apply Hmeta.
  - unfold fresh, createPreviewCard, mirrored.
    cbn [tnoId file uploadedFiles TNO_FILE_UID previewMetaById cards alerts].
    split; [|split; [|split; [|split; [|split]]]].
    + rewrite !map_app, Hids. reflexivity.
    + apply NoDup_app; [exact Hnd | repeat constructor; intros [] |].
      intros id Hin [<-|[]]. rewrite Forall_forall in Hrange. specialize (Hrange _ Hin). lia.
    + lia.
    + apply Forall_app. split.
      * eapply Forall_impl; [|exact Hrange]. cbn beta. intros. lia.
      * constructor; [lia | constructor].
    + intro id. rewrite in_map_set, in_app_iff, Hmeta. cbn [In]. intuition.
    + rewrite length_app. cbn [length]. lia.
Qed.

Lemma spliceById_removeAt (pos : nat) :
  forall (fs : list UFile) (ids : list Z) (id : Z),
    map tnoId fs = map Some ids -> NoDup ids -> nth_error ids pos = Some id ->
    map tnoId (spliceById id fs) = map Some (removeAt pos ids)
    /\ length (spliceById id fs) = (length fs - 1)%nat.
Proof.
  induction pos as [|p IH]; intros fs ids id Hmap Hnd Hnth.
  - destruct ids as [|i ids]; [discriminate|]. cbn in Hnth. inversion Hnth; subst i.
    destruct fs as [|f fs]; [discriminate|]. cbn [map] in Hmap. inversion Hmap as [[Hf Hr]].
    cbn [spliceById removeAt]. rewrite Hf, Z.eqb_refl. split; [exact Hr | cbn; lia].
  - destruct ids as [|i ids]; [discriminate|]. cbn in Hnth.
    destruct fs as [|f fs]; [discriminate|]. cbn [map] in Hmap. inversion Hmap as [[Hf Hr]].
    inversion Hnd as [|? ? Hnotin Hnd']; subst.
    cbn [spliceById removeAt]. rewrite Hf.
    destruct (Z.eqb_spec i id) as [->|Hne].
    + exfalso. apply Hnotin. eapply nth_error_In; eauto.
    + destruct (IH fs ids id Hr Hnd' Hnth) as [E L]. cbn [map length]. rewrite E, Hf, L.
      split; [reflexivity|]. destruct fs; [destruct ids; [destruct p|]; discriminate|].
      cbn [length]. lia.
Qed.

Lemma removeAt_incl {A} (pos : nat) (l : list A) (x : A) :
  In x (removeAt pos l) -> In x l.
Proof.
  revert l. induction pos as [|p IH]; intros [|y l]; cbn [removeAt In]; auto.
  intros [E|Hin]; auto.
Qed.

Lemma removeAt_NoDup {A} (pos : nat) (l : list A) : NoDup l -> NoDup (removeAt pos l).
Proof.
  revert l. induction pos as [|p IH]; intros [|y l] Hnd; cbn [removeAt]; auto.
  - now inversion Hnd.
  - inversion Hnd; subst. constructor; auto. intro Hin. now apply removeAt_incl in Hin.
Qed.

Lemma removeAt_others {A} (pos : nat) (l : list A) (x y : A) :
  nth_error l pos = Some y -> NoDup l -> (In x (removeAt pos l) <-> x <> y /\ In x l).
Proof.
  revert l. induction pos as [|p IH]; intros [|z l] Hnth Hnd; try discriminate.
  - cbn in Hnth. inversion Hnth; subst z. inversion Hnd; subst. cbn [removeAt In].
    split; [intro Hin; split; [congruence | auto] | intros [Hne [E|Hin]]; congruence].
  - cbn in Hnth. inversion Hnd as [|? ? Hnotin Hnd']; subst. cbn [removeAt In].
    rewrite (IH l Hnth Hnd'). split.
    + intros [->|[Hne Hin]]; [|auto]. split; [|auto]. intros ->. apply Hnotin.
      eapply nth_error_In; eauto.
    + intros [Hne [E|Hin]]; auto.
Qed.

Lemma mirrored_removeCard (pos : nat) (u : Uploads) : mirrored u -> mirrored (removeCard pos u).
Proof.
  intros Hm. unfold removeCard. destruct (nth_error (cards u) pos) as [id|] eqn:Hnth; [|exact Hm].
  destruct Hm as [Hids [Hnd [Huid [Hrange [Hmeta Hlen]]]]].
  destruct (spliceById_removeAt pos _ _ id Hids Hnd Hnth) as [E L].
  unfold mirrored. cbn [uploadedFiles TNO_FILE_UID previewMetaById cards].
  split; [exact E|]. split; [now apply removeAt_NoDup|]. split; [exact Huid|].
  split; [|split].
  - rewrite Forall_forall in *. intros x Hx. apply Hrange. eapply removeAt_incl; eauto.
  - intro x. rewrite in_map_delete, (removeAt_others pos (cards u) x id Hnth Hnd), Hmeta.
    reflexivity.
  - lia.
Qed.

Lemma mirrored_addAll (fs : list File) :
  forall u, mirrored u -> mirrored (addAll MAX_IMAGES (map fresh fs) u).
Proof.
  unfold addAll. induction fs as [|f fs IH]; intros u Hu; [exact Hu|].
  cbn [map fold_left]. apply IH. now apply mirrored_addImageFile.
Qed.

Lemma mirrored_pdfLoop (pdfs : list UFile) :
  forall u, mirrored u -> mirrored (fst (pdfLoop MAX_IMAGES maxPages openPdf pdfs u)).
Proof.
  induction pdfs as [|pdf rest IH]; intros u Hu; [exact Hu|].
  cbn [pdfLoop]. destruct (processPdf maxPages openPdf (file pdf)) as [[[pages reported] pc]|];
    [|now apply IH].
  specialize (IH _ (mirrored_addAll pages u Hu)).
  destruct (pdfLoop MAX_IMAGES maxPages openPdf rest _) as [u' more]. exact IH.
Qed.

Lemma filter_fresh (p : File -> bool) (fs : list File) :
  filter (fun f => p (file f)) (map fresh fs) = map fresh (filter p fs).
Proof.
  induction fs as [|f fs IH]; [reflexivity|]. cbn [map filter fresh file].
  destruct (p f); cbn [map]; now rewrite IH.
Qed.

(** X17. Whatever files the user drops or chooses and whatever previews
    the user removes, in any order: the previews in the dialog carry the ids
    of the files to submit, in the same order; the ids are all different
    and all given by the counter; each preview has its meta element and no
    other is kept; and the files are never more than the limit
    [MAX_IMAGES]. *)
Theorem uploads_mirrored (acts : list UserAct) : mirrored (run acts).
Proof.
  unfold run.
  assert (H0 : mirrored noUploads).
  { unfold mirrored, noUploads. cbn. repeat split; try constructor; try tauto; lia. }
  revert H0. generalize noUploads. induction acts as [|a acts IH]; intros u Hu; [exact Hu|].
  cbn [fold_left]. apply IH. destruct a as [files|pos]; cbn [act].
  - unfold handleFiles. rewrite !filter_fresh.
    pose proof (mirrored_addAll (filter isImage files) u Hu) as H1.
    destruct (map fresh (filter isPdf files)) as [|p ps] eqn:Ep; [exact H1|].
    pose proof (mirrored_pdfLoop (p :: ps) _ H1) as H2.
    destruct (pdfLoop MAX_IMAGES maxPages openPdf (p :: ps) _) as [u' calls]. exact H2.
  - now apply mirrored_removeCard.
Qed.

(** *** The pages of a PDF file *)

Definition rendered (render : Z -> option Z) (i : Z) : bool :=
  match render i with Some _ => true | None => false end.

(** The page numbers [i], [i + 1], ..., [n] of them. *)
Definition pagesFrom (i : Z) (n : nat) : list Z := map (fun j => (i + Z.of_nat j)%Z) (seq 0 n).

Lemma pagesFrom_S (i : Z) (n : nat) : pagesFrom i (S n) = i :: pagesFrom (i + 1) n.
Proof.
  unfold pagesFrom. cbn [seq map]. rewrite Z.add_0_r. f_equal.
  rewrite <- seq_shift, map_map. apply map_ext. intro j. lia.
Qed.

Lemma pagesLoop_spec (f : File) (render : Z -> option Z) (pageCount : Z) :
  forall fuel i,
    (pageCount = i + Z.of_nat fuel - 1)%Z ->
    snd (pagesLoop f render fuel i pageCount) = filter (rendered render) (pagesFrom i fuel)
    /\ map name (fst (pagesLoop f render fuel i pageCount))
       = map (pageName f) (filter (rendered render) (pagesFrom i fuel))
    /\ map (fun o => Some (size o)) (fst (pagesLoop f render fuel i pageCount))
       = map render (filter (rendered render) (pagesFrom i fuel))
    /\ Forall (fun o => mime o = js "image/jpeg") (fst (pagesLoop f render fuel i pageCount)).
Proof.
  induction fuel as [|k IH]; intros i Hpc; [repeat split; constructor|].
  rewrite pagesFrom_S. cbn [pagesLoop filter].
  replace (i <=? pageCount)%Z with true by (symmetry; apply Z.leb_le; lia).
  destruct (IH (i + 1)%Z ltac:(lia)) as [H1 [H2 [H3 H4]]].
  destruct (pagesLoop f render k (i + 1) pageCount) as [out reported]. cbn [fst snd] in *.
  assert (Er : rendered render i = match render i with Some _ => true | None => false end)
    by reflexivity.
  destruct (render i) as [sz|] eqn:Eri; rewrite Er; cbn [fst snd map name size].
  - rewrite H1, H2, H3, Eri. repeat split; auto.
  - auto.
Qed.

(** X18. [processPdf] makes one JPEG file per page that could be
    rendered, for the pages 1 to [min(numPages, maxPages)] and in page
    order, named after the document and the page number; a page that fails
    is left out and does not stop the others; the progress callback is
    called for the pages made, and never more than [maxPages] files come
    out. *)
Theorem processPdf_pages (f : File) (numPages : Z) (render : Z -> option Z) :
  openPdf f = Some (numPages, render) ->
  exists out reported,
    processPdf maxPages openPdf f = Some (out, reported, Z.min numPages maxPages)
    /\ reported = filter (rendered render)
                    (pagesFrom 1 (Z.to_nat (Z.min numPages maxPages)))
    /\ map name out = map (pageName f) reported
    /\ map (fun o => Some (size o)) out = map render reported
    /\ Forall (fun o => mime o = js "image/jpeg") out
    /\ (length out <= Z.to_nat maxPages)%nat.
Proof.
  intro Ho. unfold processPdf. rewrite Ho.
  set (pc := Z.min numPages maxPages).
  destruct (Z.to_nat pc) as [|k] eqn:Ek.
  - exists [], []. cbn. repeat split; auto. lia.
  - destruct (pagesLoop_spec f render pc (S k) 1 ltac:(lia)) as [H1 [H2 [H3 H4]]].
    destruct (pagesLoop f render (S k) 1 pc) as [out reported]. cbn [fst snd] in *.
    exists out, reported. rewrite <- H1. rewrite <- H1 in H2, H3.
    repeat split; auto.
    pose proof (f_equal (@length _) H2) as Hl. rewrite !length_map in Hl. rewrite Hl, H1.
    etransitivity; [apply filter_length_le|]. unfold pagesFrom. rewrite length_map, length_seq.
    lia.
Qed.

(** *** What a drop adds *)

Definition pagesOf (f : File) : list File :=
  match processPdf maxPages openPdf f with
  | Some (out, _, _) => out
  | None => []
  end.

(** The files a drop asks to add: the images, then the pages of the PDF
    files. *)
Definition accepted (files : list File) : list File :=
  filter isImage files ++ flat_map pagesOf (filter isPdf files).

Definition room (u : Uploads) : nat :=
  Z.to_nat (MAX_IMAGES - Z.of_nat (length (uploadedFiles u))).

Lemma addAll_files (fs : list File) :
  forall u,
    map file (uploadedFiles (addAll MAX_IMAGES (map fresh fs) u))
    = map file (uploadedFiles u) ++ firstn (room u) fs
    /\ alerts (addAll MAX_IMAGES (map fresh fs) u)
       = alerts u ++ repeat (limitMessage MAX_IMAGES) (length fs - room u).
Proof.
  unfold addAll. induction fs as [|f fs IH]; intro u.
  - cbn. now rewrite firstn_nil, !app_nil_r.
  - cbn [map fold_left]. destruct (IH (addImageFile MAX_IMAGES (fresh f) u)) as [Hf Ha].
    rewrite Hf, Ha. unfold addImageFile, room.
    destruct (Z.leb_spec MAX_IMAGES (Z.of_nat (length (uploadedFiles u)))) as [Hfull|Hroom].
    + cbn [uploadedFiles alerts].
      replace (Z.to_nat (MAX_IMAGES - Z.of_nat (length (uploadedFiles u)))) with 0%nat by lia.
      cbn [firstn length]. rewrite !Nat.sub_0_r, <- app_assoc. split; [reflexivity|].
      reflexivity.
    + unfold fresh, createPreviewCard. cbn [tnoId file uploadedFiles alerts].
      rewrite length_app, map_app. cbn [length map file].
      replace (Z.to_nat (MAX_IMAGES - Z.of_nat (length (uploadedFiles u))))
        with (S (Z.to_nat (MAX_IMAGES - Z.of_nat (length (uploadedFiles u) + 1)))) by lia.
      cbn [firstn length Nat.sub]. rewrite <- app_assoc. split; reflexivity.
Qed.

Lemma addAll_app (a b : list UFile) (u : Uploads) :
  addAll MAX_IMAGES (a ++ b) u = addAll MAX_IMAGES b (addAll MAX_IMAGES a u).
Proof. unfold addAll. apply fold_left_app. Qed.

Lemma pdfLoop_adds (pdfs : list File) :
  forall u,
    fst (pdfLoop MAX_IMAGES maxPages openPdf (map fresh pdfs) u)
    = addAll MAX_IMAGES (map fresh (flat_map pagesOf pdfs)) u.
Proof.
  induction pdfs as [|pdf rest IH]; intro u; [reflexivity|].
  cbn [map pdfLoop flat_map fresh file]. rewrite map_app, addAll_app.
  destruct (processPdf maxPages openPdf pdf) as [[[pages reported] pc]|] eqn:Ep.
  - replace (pagesOf pdf) with pages by (unfold pagesOf; now rewrite Ep).
    specialize (IH (addAll MAX_IMAGES (map fresh pages) u)).
    destruct (pdfLoop MAX_IMAGES maxPages openPdf (map fresh rest) _) as [u' more].
    exact IH.
  - replace (pagesOf pdf) with (@nil File) by (unfold pagesOf; now rewrite Ep).
    apply IH.
Qed.

(** X19. A drop adds the image files it holds, in their order, and then
    the pages of its PDF files, until the list has [MAX_IMAGES] files; the
    files beyond the limit are ignored, with one alert each; files that are
    neither images nor PDF documents are ignored without a word. *)
Theorem handleFiles_accepts (files : list File) (u : Uploads) :
  let u' := fst (handleFiles MAX_IMAGES maxPages openPdf (map fresh files) u) in
  map file (uploadedFiles u') = map file (uploadedFiles u) ++ firstn (room u) (accepted files)
  /\ alerts u'
     = alerts u ++ repeat (limitMessage MAX_IMAGES) (length (accepted files) - room u).
Proof.
  cbv zeta.
  assert (E : fst (handleFiles MAX_IMAGES maxPages openPdf (map fresh files) u)
              = addAll MAX_IMAGES (map fresh (accepted files)) u).
  { unfold handleFiles, accepted. rewrite !filter_fresh, map_app, addAll_app.
    rewrite <- pdfLoop_adds.
    destruct (map fresh (filter isPdf files)) as [|p ps] eqn:Ep; [reflexivity|].
    destruct (pdfLoop MAX_IMAGES maxPages openPdf (p :: ps) _) as [u' calls]. reflexivity. }
  rewrite E. apply addAll_files.
Qed.

End Limits.

(** A document of five pages of which the second cannot be rendered, with
    room for three pages. *)
Definition report : File := {| name := js "Report.PDF"; mime := []; size := 90000 |}.

Definition fivePages (f : File) : option (Z * (Z -> option Z)) :=
  Some (5%Z, fun i => if (i =? 2)%Z then None else Some (1000 * i)%Z).

Lemma processPdf_pages_witness :
  exists out reported,
    processPdf 3 fivePages report = Some (out, reported, 3%Z)
    /\ reported = [1; 3]%Z
    /\ map name out = [js "Report_page1.jpg"; js "Report_page3.jpg"].
Proof.
  destruct (@processPdf_pages 3 fivePages report 5
              (fun i => if (i =? 2)%Z then None else Some (1000 * i)%Z) eq_refl)
    as [out [reported [E [Hr [Hn _]]]]].
  exists out, reported. split; [exact E|].
  assert (Er : reported = [1; 3]%Z) by (rewrite Hr; vm_compute; reflexivity).
  split; [exact Er|]. rewrite Hn, Er. vm_compute. reflexivity.
Defined.

(** Two pictures, a text file and that document dropped on a dialog that
    takes three files: the pictures and the first page go in, the other
    page is refused with an alert. *)
Example handleFiles_three_of_four :
  let photo (n : string) := {| name := js n; mime := js "image/png"; size := 2048 |} in
  let notes := {| name := js "notes.txt"; mime := js "text/plain"; size := 10 |} in
  let u := fst (handleFiles 3 3 fivePages
                  (map fresh [photo "a.png"%string; notes; report; photo "b.png"%string]) noUploads) in
  map (fun f => (name (file f), tnoId f)) (uploadedFiles u)
  = [(js "a.png", Some 1%Z); (js "b.png", Some 2%Z); (js "Report_page1.jpg", Some 3%Z)]
  /\ cards u = [1; 2; 3]%Z
  /\ length (alerts u) = 1%nat.
Proof. cbv zeta. repeat split; vm_compute; reflexivity. Qed.

End UploadFacts.

(** ** The single-entry loader *)

Module LoaderFacts.
Import Js Loader.

Local Open Scope Z_scope.

(** A check over the integers from [lo] to [hi]. *)
Lemma range_check (p : Z -> bool) (lo hi : Z) :
  forallb (fun k => p (lo + Z.of_nat k)) (seq 0 (Z.to_nat (hi - lo + 1))) = true ->
  forall z, lo <= z <= hi -> p z = true.
Proof.
  intros Hall z Hz. rewrite forallb_forall in Hall.
  replace z with (lo + Z.of_nat (Z.to_nat (z - lo))) by lia.
  apply Hall, in_seq. lia.
Qed.

Definition two_digits (n : Z) : bool :=
  (length (pad2 n) =? 2)%nat && forallb is_digit (pad2 n)
  && match parseInt10 (pad2 n) with Some m => m =? n | None => false end.

Lemma pad2_two_digits (n : Z) : 1 <= n <= 31 -> two_digits n = true.
Proof. intro Hn. apply (range_check two_digits 1 31); [vm_compute; reflexivity | exact Hn]. Qed.

Lemma pad2_length (n : Z) : 1 <= n <= 31 -> length (pad2 n) = 2%nat.
Proof.
  intro Hn. pose proof (pad2_two_digits n Hn) as H. unfold two_digits in H.
  apply andb_prop in H as [H _]. apply andb_prop in H as [H _]. now apply Nat.eqb_eq.
Qed.

Lemma pad2_digits (n : Z) : 1 <= n <= 31 -> forallb is_digit (pad2 n) = true.
Proof.
  intro Hn. pose proof (pad2_two_digits n Hn) as H. unfold two_digits in H.
  apply andb_prop in H as [H _]. now apply andb_prop in H as [_ H].
Qed.

Lemma pad2_injective (n m : Z) : 1 <= n <= 31 -> 1 <= m <= 31 -> pad2 n = pad2 m -> n = m.
Proof.
  intros Hn Hm E.
  pose proof (pad2_two_digits n Hn) as H1. pose proof (pad2_two_digits m Hm) as H2.
  unfold two_digits in H1, H2.
  apply andb_prop in H1 as [_ H1]. apply andb_prop in H2 as [_ H2].
  rewrite E in H1. destruct (parseInt10 (pad2 m)) as [v|]; [|discriminate].
  apply Z.eqb_eq in H1, H2. congruence.
Qed.

Definition four_digits (y : Z) : bool :=
  (length (Z_to_jstr y) =? 4)%nat && forallb is_digit (Z_to_jstr y).

Lemma year_four_digits (y : Z) : 1000 <= y <= 9999 -> four_digits y = true.
Proof. intro Hy. apply (range_check four_digits 1000 9999); [vm_compute; reflexivity | exact Hy]. Qed.

(** Two lists that end with tails of one length split alike. *)
Lemma app_inj_length {A} (a b c d : list A) :
  length b = length d -> a ++ b = c ++ d -> a = c /\ b = d.
Proof.
  intros Hl E.
  assert (Ha : length a = length c).
  { apply (f_equal (@length A)) in E. rewrite !length_app in E. lia. }
  revert c Ha E. induction a as [|x a IH]; intros [|y c] Ha E; try discriminate.
  - now split.
  - cbn in Ha, E. injection E as -> E. injection Ha as Ha.
    destruct (IH c Ha E) as [-> ->]. now split.
Qed.

(** A day of the calendar, as [getMonth()] and [getDate()] give it. *)
Definition calendar (d : Date) : Prop := 0 <= month d <= 11 /\ 1 <= date d <= 31.

(** X20. The version key of the daily policy tells the days apart: two
    calendar days with the same key are the same day. For a year of four
    digits the key is eight characters, all of them digits (YYYYMMDD). *)
Theorem todayKey_per_day (d1 d2 : Date) :
  calendar d1 -> calendar d2 ->
  (todayKey d1 = todayKey d2 -> d1 = d2)
  /\ (1000 <= fullYear d1 <= 9999 ->
      length (todayKey d1) = 8%nat /\ forallb is_digit (todayKey d1) = true).
Proof.
  intros [Hm1 Hd1] [Hm2 Hd2]. split.
  - unfold todayKey. intro E.
    apply app_inj_length in E as [Ey E].
    2:{ rewrite !length_app, !pad2_length by lia. reflexivity. }
    apply app_inj_length in E as [Em Ed].
    2:{ rewrite !pad2_length by lia. reflexivity. }
    apply NameFacts.Z_to_jstr_injective in Ey.
    apply pad2_injective in Em; [|lia|lia]. apply pad2_injective in Ed; [|lia|lia].
    destruct d1, d2. cbn in *. f_equal; lia.
  - intro Hy. pose proof (year_four_digits _ Hy) as H4. unfold four_digits in H4.
    apply andb_prop in H4 as [Hl Hdig]. apply Nat.eqb_eq in Hl.
    unfold todayKey. split.
    + rewrite !length_app, Hl, !pad2_length by lia. reflexivity.
    + rewrite !forallb_app, Hdig, !pad2_digits by lia. reflexivity.
Qed.

Local Close Scope Z_scope.

Section Page.
Variable scripts : list jstr.
Variable clock : nat -> Clock.
Variable encodeURIComponent : jstr -> jstr.
Variable loads : jstr -> bool.
Variable definesPdfJs : jstr -> bool.

Local Abbreviation urlOf := (urlOf clock encodeURIComponent).
Local Abbreviation loadLoop := (loadLoop clock encodeURIComponent loads definesPdfJs).
Local Abbreviation load := (load scripts clock encodeURIComponent loads definesPdfJs).

(** The addresses of the files [fs], the first of them being file [i]. *)
Fixpoint addresses (opts : Options) (base : jstr) (fs : list jstr) (i : nat) : list jstr :=
  match fs with
  | [] => []
  | f :: rest => urlOf opts base i f :: addresses opts base rest (S i)
  end.

(** The addresses a call of [load] is to request. *)
Definition plan (opts : Options) : list jstr :=
  addresses opts
    (match basePath opts with Some b => b | None => ownBasePath scripts end)
    (match files opts with Some l => l | None => defaultFiles end) 0.

(** The addresses requested from a plan: those that load, up to and with
    the first that does not. *)
Definition attempted (us : list jstr) : list jstr :=
  takeWhile loads us ++ firstn 1 (dropWhile loads us).

Definition verdict (us : list jstr) : AddRows.Outcome unit :=
  match dropWhile loads us with
  | [] => AddRows.Resolved tt
  | u :: _ => AddRows.Rejected {| AddRows.message := js "Failed to load " ++ u;
                                  AddRows.code := None |}
  end.

Lemma loadLoop_in_order (opts : Options) (base : jstr) (fs : list jstr) :
  forall i w,
    requested (snd (loadLoop opts base fs i w))
    = requested w ++ attempted (addresses opts base fs i)
    /\ fst (loadLoop opts base fs i w) = verdict (addresses opts base fs i)
    /\ gemini_api_key (snd (loadLoop opts base fs i w)) = gemini_api_key w
    /\ TNO_TXN_TYPE (snd (loadLoop opts base fs i w)) = TNO_TXN_TYPE w.
Proof.
  induction fs as [|f rest IH]; intros i w.
  - cbn. now rewrite app_nil_r.
  - cbn [Loader.loadLoop addresses]. unfold attempted, verdict. cbn [takeWhile dropWhile].
    destruct (loads (urlOf opts base i f)) eqn:El.
    + destruct (IH (S i)
          {| gemini_api_key := gemini_api_key w; TNO_TXN_TYPE := TNO_TXN_TYPE w;
             pdfjsLib := pdfjsLib w || definesPdfJs (urlOf opts base i f);
             workerSrc := if includes (js "pdf.min.js") f
                             && (pdfjsLib w || definesPdfJs (urlOf opts base i f))
                          then Some pdfWorker else workerSrc w;
             requested := requested w ++ [urlOf opts base i f] |})
        as [Hr [Hv [Hk Ht]]].
      cbn [requested gemini_api_key TNO_TXN_TYPE pdfjsLib workerSrc] in *.
      rewrite Hr, Hv, Hk, Ht. unfold attempted, verdict.
      rewrite <- !app_assoc. repeat split; reflexivity.
    + cbn. repeat split; reflexivity.
Qed.

(** X21. [TNO.load] requests the scripts one after the other in the order of
    the file list, each after the one before it has loaded, and stops at
    the first that fails: the scripts added to the page are the addresses
    of the plan that load, followed by the first that does not, and the
    promise rejects with [Failed to load] and that address, or resolves
    when every one loaded. *)
Theorem load_in_order (opts : Options) (w : Window) :
  requested (snd (load opts w)) = requested w ++ attempted (plan opts)
  /\ fst (load opts w) = verdict (plan opts).
Proof.
  unfold Loader.load, plan.
  match goal with
  | |- context [Loader.loadLoop _ _ _ _ ?o ?b ?fs ?i ?w0] =>
      destruct (loadLoop_in_order o b fs i w0) as [Hr [Hv _]]
  end.
  cbn [requested] in Hr. now rewrite Hr, Hv.
Qed.

(** X22. [TNO.load] never replaces a key the page has set: a key of the
    window that is not empty is still there after the call, whatever the
    options say and whether the scripts load or not; a transaction type
    given in the options always replaces the one of the window. *)
Theorem load_keeps_page_key (opts : Options) (w : Window) (key : jstr) :
  gemini_api_key w = Some key -> key <> [] ->
  gemini_api_key (snd (load opts w)) = Some key
  /\ (forall t, transactionType opts = Some t ->
        TNO_TXN_TYPE (snd (load opts w)) = Some t).
Proof.
  intros Hk Hne. unfold Loader.load.
  match goal with
  | |- context [Loader.loadLoop _ _ _ _ ?o ?b ?fs ?i ?w0] =>
      destruct (loadLoop_in_order o b fs i w0) as [_ [_ [Hg Ht]]]
  end.
  cbn [gemini_api_key TNO_TXN_TYPE] in Hg, Ht. rewrite Hg, Ht, Hk. split.
  - destruct key; [congruence|]. now destruct (apiKey opts).
  - now intros t ->.
Qed.

End Page.

Lemma starts_with_app (p s : jstr) : starts_with p (p ++ s) = true.
Proof. induction p as [|c p IH]; [reflexivity|]. cbn. now rewrite N.eqb_refl. Qed.

Lemma includes_app (p a b : jstr) : includes p (a ++ p ++ b) = true.
Proof.
  induction a as [|c a IH].
  - cbn [app]. destruct (p ++ b) eqn:E; cbn [includes]; rewrite <- E, starts_with_app;
      reflexivity.
  - cbn [app includes]. rewrite IH. apply orb_true_r.
Qed.

Lemma takeWhile_app {A} (p : A -> bool) (a b : list A) :
  forallb p a = true -> takeWhile p (a ++ b) = a ++ takeWhile p b.
Proof.
  induction a as [|x a IH]; [reflexivity|]. cbn [forallb app takeWhile].
  intro H. apply andb_prop in H as [Hx Ha]. now rewrite Hx, IH.
Qed.

Lemma indexOf_app (c : N) (a b : jstr) :
  forallb (fun x => negb (x =? c)%N) a = true ->
  indexOf c (a ++ c :: b) = Some (length a).
Proof.
  induction a as [|x a IH]; cbn [forallb app indexOf length].
  - now rewrite N.eqb_refl.
  - intro H. apply andb_prop in H as [Hx Ha]. apply negb_true_iff in Hx.
    rewrite Hx, (IH Ha). reflexivity.
Qed.

(** X23. When the options give no base path, the scripts are taken from the
    directory of the loader itself: if the first script of the page whose
    address contains the name of the loader has the address
    [dir/tno_ai_ocr_add_rows_loader.js], with or without a query string
    after it, the base path is [dir/], whatever the query string is. *)
Theorem ownBasePath_loader_dir (before after : list jstr) (dir tail : jstr) :
  (forall s, In s before -> includes loaderFile s = false) ->
  ~ In 63%N dir ->
  tail = [] \/ (exists q, tail = 63%N :: q) ->
  ownBasePath (before ++ (dir ++ js "/" ++ loaderFile ++ tail) :: after) = dir ++ js "/".
Proof.
  intros Hb Hd Ht. unfold ownBasePath.
  assert (Hf : find (fun s => match s with [] => false | _ => includes loaderFile s end)
                 (before ++ (dir ++ js "/" ++ loaderFile ++ tail) :: after)
               = Some (dir ++ js "/" ++ loaderFile ++ tail)).
  { induction before as [|s before IH]; cbn [app find].
    - replace (dir ++ js "/" ++ loaderFile ++ tail)
        with ((dir ++ js "/") ++ loaderFile ++ tail) by now rewrite <- app_assoc.
      rewrite includes_app.
      destruct ((dir ++ js "/") ++ loaderFile ++ tail) eqn:E; [|reflexivity].
      destruct dir; discriminate.
    - rewrite (Hb s (or_introl eq_refl)).
      replace (match s with [] => false | _ :: _ => false end) with false by now destruct s.
      apply IH. intros s' Hs'. apply Hb. now right. }
  rewrite Hf.
  assert (Hq : forallb (fun c => negb (c =? 63)%N) dir = true).
  { apply forallb_forall. intros c Hc. apply negb_true_iff, N.eqb_neq. now intros ->. }
  assert (Hc : takeWhile (fun c => negb (c =? 63)%N) (dir ++ js "/" ++ loaderFile ++ tail)
               = dir ++ js "/" ++ loaderFile).
  { rewrite takeWhile_app by exact Hq. f_equal.
    replace (js "/" ++ loaderFile ++ tail) with ((js "/" ++ loaderFile) ++ tail)
      by now rewrite <- app_assoc.
    rewrite takeWhile_app by reflexivity.
    destruct Ht as [-> | [q ->]]; cbn [takeWhile N.eqb Pos.eqb negb];
      now rewrite <- app_assoc, app_nil_r. }
  rewrite Hc. unfold lastIndexOf.
  replace (rev (dir ++ js "/" ++ loaderFile)) with (rev loaderFile ++ 47%N :: rev dir).
  2:{ rewrite !rev_app_distr. change (rev (js "/")) with [47%N]. now rewrite <- app_assoc. }
  rewrite indexOf_app by reflexivity.
  rewrite !length_app, length_rev.
  replace (length dir + (length (js "/") + length loaderFile) - 1 - length loaderFile + 1)%nat
    with (length (dir ++ js "/"))
    by (rewrite length_app; change (length (js "/")) with 1%nat; lia).
  replace (dir ++ js "/" ++ loaderFile) with ((dir ++ js "/") ++ loaderFile)
    by now rewrite <- app_assoc.
  rewrite firstn_app, Nat.sub_diag, firstn_all. cbn [firstn]. apply app_nil_r.
Qed.

Definition cdn : jstr := js "https://cdn.example.com/tno".

Definition at_noon : nat -> Clock :=
  fun _ => {| now := 1757500000000; today := {| fullYear := 2025; month := 8; date := 10 |} |}.

Lemma todayKey_per_day_witness :
  (todayKey {| fullYear := 2025; month := 8; date := 10 |}
   = todayKey {| fullYear := 2025; month := 8; date := 10 |} ->
   {| fullYear := 2025; month := 8; date := 10 |}
   = {| fullYear := 2025; month := 8; date := 10 |})
  /\ ((1000 <= 2025 <= 9999)%Z ->
      length (todayKey {| fullYear := 2025; month := 8; date := 10 |}) = 8%nat
      /\ forallb is_digit (todayKey {| fullYear := 2025; month := 8; date := 10 |}) = true).
Proof.
  apply (todayKey_per_day {| fullYear := 2025; month := 8; date := 10 |}
           {| fullYear := 2025; month := 8; date := 10 |});
    unfold calendar; cbn; lia.
Defined.

Lemma load_keeps_page_key_witness :
  gemini_api_key
    (snd (load [] at_noon (fun s => s) (fun _ => true) (fun _ => false)
            {| versionPolicy := None; versions := None; basePath := Some cdn;
               apiKey := Some (js "from-options"); transactionType := Some (js "sales");
               files := None |}
            {| gemini_api_key := Some (js "from-page"); TNO_TXN_TYPE := None;
               pdfjsLib := false; workerSrc := None; requested := [] |}))
  = Some (js "from-page").
Proof.
  apply (load_keeps_page_key [] at_noon (fun s => s) (fun _ => true) (fun _ => false)
           _ _ (js "from-page")); [reflexivity | discriminate].
Defined.

Lemma ownBasePath_loader_dir_witness :
  ownBasePath [js "https://cdn.example.com/jquery.js";
               cdn ++ js "/" ++ loaderFile ++ js "?build=7/a"]
  = cdn ++ js "/".
Proof.
  apply (ownBasePath_loader_dir [js "https://cdn.example.com/jquery.js"] [] cdn
           (js "?build=7/a")).
  - intros s [<- | []]. vm_compute. reflexivity.
  - vm_compute. intuition discriminate.
  - right. eexists. reflexivity.
Defined.

(** The default files, all of which load. *)
Example load_default_files :
  requested
    (snd (load [] at_noon (fun s => s) (fun _ => true) (fun _ => false) noOptions
            {| gemini_api_key := None; TNO_TXN_TYPE := None; pdfjsLib := false;
               workerSrc := None; requested := [] |}))
  = [pdfJs; pdfWorker;
     js "./tno_ai_ocr_add_rows_schema.js?v=20250910";
     js "./tno_ai_ocr_add_rows_add_rows.js?v=20250910";
     js "./tno_ai_ocr_add_rows_ocr.js?v=20250910"].
Proof. vm_compute. reflexivity. Qed.

End LoaderFacts.

(** ** The loader overlay *)

Module OverlayFacts.
Import Js Overlay.

Local Open Scope Z_scope.

(** The overlay is up: displayed, announced, and listening to the keys. *)
Definition shown (s : State) : Prop :=
  display s = js "flex" /\ ariaHidden s = js "false" /\ ariaBusy s = Some (js "true")
  /\ listening s = true.

(** The overlay is down, and nothing of it is left behind. *)
Definition hidden (s : State) : Prop :=
  display s = js "none" /\ ariaHidden s = js "true" /\ ariaBusy s = None
  /\ listening s = false /\ previousActiveElement s = None.

(** A value of [aria-valuenow]: an integer from 0 to 100, or NaN. *)
Definition percentage (v : jstr) : Prop :=
  v = js "NaN" \/ exists p, 0 <= p <= 100 /\ v = Z_to_jstr p.

Definition sound (s : State) : Prop :=
  loaderClosable s = closable (dataState s)
  /\ (shown s \/ hidden s)
  /\ percentage (valueNow s).

Lemma sound_initial : sound initial.
Proof.
  split; [reflexivity|]. split.
  - right. repeat split; reflexivity.
  - right. exists 0. split; [lia | reflexivity].
Qed.

Lemma sound_update (t : jstr) (percent : option Z) (isError : bool) (s : State) :
  sound s -> sound (updateOcrLoader injected t percent isError s).
Proof.
  intros [Hc [Hv Hp]]. split; [exact Hc|]. split; [exact Hv|].
  unfold updateOcrLoader. cbn [valueNow progress injected].
  destruct percent as [p|]; [right | now left].
  exists (Z.max 0 (Z.min 100 p)). split; [lia | reflexivity].
Qed.

Lemma sound_setState (state : jstr) (s : State) :
  sound s -> sound (setLoaderState injected state s).
Proof. intros [Hc [Hv Hp]]. split; [reflexivity|]. split; [exact Hv | exact Hp]. Qed.

Lemma sound_setDone (h : DoneHandler) (s : State) : sound s -> sound (setDone injected h s).
Proof. intros [Hc [Hv Hp]]. split; [exact Hc|]. split; [exact Hv | exact Hp]. Qed.

Lemma sound_close (s : State) : sound s -> sound (closeLoader injected s) .
Proof.
  intros [Hc [Hv Hp]]. split; [reflexivity|]. split; [|exact Hp].
  right. repeat split; reflexivity.
Qed.

Lemma sound_open (t : jstr) (percent : Z) (active : option jstr) (s : State) :
  sound s -> sound (openLoader injected t percent active s).
Proof.
  intros [Hc [Hv Hp]]. split; [reflexivity|]. split.
  - left. repeat split; reflexivity.
  - right. exists (Z.max 0 (Z.min 100 percent)). split; [lia | reflexivity].
Qed.

Lemma sound_step (s : State) (e : Event) : sound s -> sound (step injected s e).
Proof.
  intro Hs. destruct e as [t p a | t p b | st | h | | key | ]; cbn [step].
  - now apply sound_open.
  - now apply sound_update.
  - now apply sound_setState.
  - now apply sound_setDone.
  - now apply sound_close.
  - destruct (listening s); [|exact Hs]. unfold handleOverlayKeydown.
    destruct (jstr_eqb key (js "Escape") && loaderClosable s); [now apply sound_close | exact Hs].
  - unfold clickDone. cbn [doneBtn injected].
    destruct (onclick s); [exact Hs | now apply sound_close |].
    destruct (sound_close s Hs) as [Hc [Hv Hp]].
    split; [exact Hc|]. split; [exact Hv | exact Hp].
Qed.

Lemma sound_run (es : list Event) : forall s, sound s -> sound (run injected es s).
Proof.
  induction es as [|e es IH]; intros s Hs; [exact Hs|].
  cbn [run fold_left]. apply IH, sound_step, Hs.
Qed.

(** X24. Whatever the library and the user do to the injected overlay, in
    any order: it is either up (displayed, not hidden to assistive
    technology, the body busy, the keys listened to) or down (not displayed,
    hidden, the body not busy, the keys not listened to); the progress
    announced is an integer from 0 to 100 or NaN; and a key closes the
    overlay exactly when the overlay is up, the key is Escape and the state
    of the container is [complete], [empty] or [error]. *)
Theorem overlay_sound (es : list Event) (key : jstr) :
  let s := run injected es initial in
  (shown s \/ hidden s)
  /\ percentage (valueNow s)
  /\ step injected s (EKey key)
     = (if listening s && jstr_eqb key (js "Escape") && closable (dataState s)
        then closeLoader injected s else s).
Proof.
  cbv zeta. destruct (sound_run es initial sound_initial) as [Hc [Hv Hp]].
  split; [exact Hv|]. split; [exact Hp|].
  cbn [step]. unfold handleOverlayKeydown. rewrite Hc.
  destruct (listening (run injected es initial)); reflexivity.
Qed.

(** What the library does while it works: it reports progress and sets
    the handler of the done button; the user may press keys meanwhile. *)
Definition working (e : Event) : Prop :=
  match e with
  | EUpdate _ _ _ | ESetDone _ | EKey _ => True
  | _ => False
  end.

Section Document.
Variable dom : Dom.

(** X25. While the library works, no key takes the overlay away: from the
    call of [openLoader] on, as long as the library only reports progress
    and sets the handler of the done button, the overlay stays displayed with
    the state [progress], whatever keys are pressed, Escape included, and
    no element is given the focus. *)
Theorem overlay_stays_while_working (t : jstr) (percent : Z) (active : option jstr)
  (es : list Event) (s0 : State) :
  overlay dom = true -> container dom = true ->
  Forall working es ->
  let s := run dom (EOpen t percent active :: es) s0 in
  display s = js "flex" /\ ariaHidden s = js "false" /\ ariaBusy s = Some (js "true")
  /\ dataState s = js "progress" /\ loaderClosable s = false /\ listening s = true
  /\ focused s = focused s0 ++ [FocusContainer]
  /\ modalDisplay s = modalDisplay s0.
Proof.
  intros Ho Hc Hes. cbv zeta. cbn [run fold_left step]. fold (run dom es).
  set (s1 := openLoader dom t percent active s0).
  assert (H1 : display s1 = js "flex" /\ ariaHidden s1 = js "false"
               /\ ariaBusy s1 = Some (js "true")
               /\ dataState s1 = js "progress" /\ loaderClosable s1 = false
               /\ listening s1 = true /\ focused s1 = focused s0 ++ [FocusContainer]
               /\ modalDisplay s1 = modalDisplay s0).
  { unfold s1, openLoader, setLoaderState, setDone, updateOcrLoader. rewrite Ho, Hc.
    cbn [andb negb]. destruct (doneBtn dom); repeat split; reflexivity. }
  clearbody s1. revert s1 H1.
  induction Hes as [|e es He _ IH]; intros s1 H1; [exact H1|].
  cbn [run fold_left]. apply IH.
  destruct H1 as [D [A [B [S [C [L [F M]]]]]]].
  destruct e as [t' p a | t' p b | st | h | | key | ]; try contradiction; cbn [step].
  - repeat split; assumption.
  - unfold setDone. destruct (doneBtn dom); repeat split; assumption.
  - rewrite L. unfold handleOverlayKeydown. rewrite C, andb_false_r.
    repeat split; assumption.
Qed.

End Document.

Lemma overlay_stays_while_working_witness :
  display (run injected
             [EOpen (js "Preparing images...") 0 (Some (js "ai-ocr-submit"));
              EKey (js "Escape");
              EUpdate (js "Sending to AI for processing...") (Some 30) false;
              EKey (js "Escape")] initial)
  = js "flex".
Proof.
  apply (overlay_stays_while_working injected (js "Preparing images...") 0
           (Some (js "ai-ocr-submit"))
           [EKey (js "Escape");
            EUpdate (js "Sending to AI for processing...") (Some 30) false;
            EKey (js "Escape")] initial);
    [reflexivity | reflexivity | repeat constructor].
Defined.

Local Close Scope Z_scope.

End OverlayFacts.

(** ** The submit handler *)

Module SubmitFacts.
Import Js Compress Upload Overlay Submit.

(** A key that [resolveGeminiApiKey] returns is not empty. *)
Lemma resolved_key_not_empty (answer : option jstr) (ks ks' : KeyStore) (key : jstr)
  (ds : list KeyEvent) :
  resolveGeminiApiKey answer ks = (Some key, ks', ds) -> key <> [].
Proof.
  unfold resolveGeminiApiKey. intro E.
  assert (Hu : forall k, usable (Some k) = true -> k <> []) by (intros k Hk ->; discriminate).
  destruct (usable (globalKey ks)) eqn:Ug.
  { injection E as Ek _ _. rewrite Ek in Ug. now apply Hu. }
  destruct (usable (sessionKey ks)) eqn:Us.
  { injection E as Ek _ _. rewrite Ek in Us. now apply Hu. }
  destruct answer as [[|c a]|]; try discriminate.
  destruct (trim (c :: a)); [discriminate|]. injection E as <- _ _. discriminate.
Qed.

(** A report of progress. *)
Definition reporting (e : Event) : Prop :=
  match e with
  | EUpdate _ _ _ => True
  | _ => False
  end.

Lemma reporting_sendingEvents (tr : list Extract.Event) : Forall reporting (sendingEvents tr).
Proof.
  induction tr as [|e tr IH]; [constructor|]. unfold sendingEvents. cbn [flat_map].
  apply Forall_app. split; [|exact IH]. destruct e; repeat constructor.
Qed.

Lemma reporting_progressEvents (acts : list AddRows.Act) :
  Forall reporting (progressEvents acts).
Proof.
  induction acts as [|a acts IH]; [constructor|]. unfold progressEvents. cbn [flat_map].
  apply Forall_app. split; [|exact IH]. destruct a; repeat constructor.
Qed.

(** What the reports of progress leave as it is. *)
Definition same_frame (s s' : State) : Prop :=
  display s' = display s /\ ariaHidden s' = ariaHidden s /\ ariaBusy s' = ariaBusy s
  /\ dataState s' = dataState s /\ loaderClosable s' = loaderClosable s
  /\ listening s' = listening s /\ previousActiveElement s' = previousActiveElement s
  /\ onclick s' = onclick s /\ modalDisplay s' = modalDisplay s /\ focused s' = focused s.

Lemma reporting_run (dom : Dom) (es : list Event) :
  Forall reporting es -> forall s, same_frame s (run dom es s).
Proof.
  induction 1 as [|e es He _ IH]; intro s; [repeat split|].
  cbn [run fold_left]. destruct e; try contradiction. cbn [step].
  destruct (IH (updateOcrLoader dom t percent isError s))
    as [H1 [H2 [H3 [H4 [H5 [H6 [H7 [H8 [H9 H10]]]]]]]]].
  repeat split; assumption.
Qed.

Lemma run_app (dom : Dom) (a b : list Event) (s : State) :
  run dom (a ++ b) s = run dom b (run dom a s).
Proof. apply fold_left_app. Qed.

Section Pipeline.
Variable P : Platform.
Variable cfg : AddRows.WaitConfig.
Context {H : Type}.
Variable host : AddRows.Host H.
Variable sc : option Schema.Schema.
Context {Net : Type}.
Variable fetch : Net -> nat -> Net * Extract.Response.
Variable decode : File -> option (Z * Z).
Variable encode : File -> Z -> Z -> float -> option Z.
Variable targetKB : float.
Variable transactionType : string.
Variable answer : option jstr.
Variable active : option jstr.

Local Abbreviation compressFiles := (compressFiles decode encode targetKB).
Local Abbreviation submit :=
  (submit P cfg host sc fetch decode encode targetKB transactionType answer active).

(** The file that [compressImage] resolves with. *)
Definition compressed (f : UFile) : File :=
  fst (compressImage decode encode (file f) targetKB).

Lemma compressFiles_spec (total : Z) (fs : list UFile) :
  forall i metas,
    fst (fst (compressFiles total fs i metas)) = map compressed fs
    /\ Forall reporting (snd (compressFiles total fs i metas)).
Proof.
  induction fs as [|f fs IH]; intros i metas; [split; [reflexivity | constructor]|].
  cbn [Submit.compressFiles map].
  match goal with
  | |- context [Submit.compressFiles _ _ _ total fs ?j ?m] =>
      destruct (IH j m) as [Hf He];
      destruct (Submit.compressFiles decode encode targetKB total fs j m) as [[cfs ms] evs]
  end.
  cbn [fst snd] in *. split; [now rewrite Hf | now constructor].
Qed.

(** The overlay after the calls of a submit: opened, then reports of
    progress, then the last report and the state. *)
Lemma settled (t : jstr) (es : list Event) (last : jstr) (isError : bool) (state : jstr)
  (s0 : State) :
  Forall reporting es ->
  let s := run injected
             (([EOpen t 0 active] ++ es) ++ [EUpdate last (Some 100%Z) isError; EState state])
             s0 in
  display s = js "flex" /\ ariaHidden s = js "false" /\ ariaBusy s = Some (js "true")
  /\ listening s = true /\ loaderClosable s = closable state /\ dataState s = state
  /\ valueNow s = js "100" /\ text s = last /\ errorClass s = isError
  /\ onclick s = CloseOnly /\ modalDisplay s = modalDisplay s0.
Proof.
  intro Hes. cbv zeta. rewrite !run_app. cbn [run fold_left step].
  fold (run injected es (openLoader injected t 0 active s0)).
  destruct (reporting_run injected es Hes (openLoader injected t 0 active s0))
    as [H1 [H2 [H3 [H4 [H5 [H6 [H7 [H8 [H9 H10]]]]]]]]].
  unfold setLoaderState, updateOcrLoader.
  cbn [injected overlay container progress progressFill statusText andb negb
       display ariaHidden ariaBusy listening loaderClosable dataState valueNow text
       errorClass onclick modalDisplay].
  rewrite H1, H2, H3, H6, H8, H9. repeat split; reflexivity.
Qed.

(** What the overlay shows at the end of a submit. *)
Inductive Ending : Type :=
| NothingExtracted
| Completed
| Failed (error : AddRows.Exn).

(** How a submit of the files ends: the files are compressed, the items
    are extracted from them, and the rows are added if there are items. *)
Definition ending (u : Ui) (n : Net) (h : H) : Ending :=
  let '(items, _) :=
    Extract.getOcrResults P fetch sc (map compressed (uploadedFiles (uploads u)))
      transactionType {| Extract.net := n; Extract.trace := [] |} in
  match items with
  | [] => NothingExtracted
  | _ =>
      match fst (AddRows.addRows P cfg (withRowProgress host) sc items true
                   transactionType h) with
      | AddRows.Resolved _ => Completed
      | AddRows.Rejected error => Failed error
      end
  end.


End Pipeline.

(** One picture uploaded, a key set by the page, a canvas that encodes a
    picture to a tenth of a byte per pixel and quality point, and a model
    that answers with one item. *)
Definition invoice : UFile :=
  {| file := {| name := js "invoice.png"; mime := js "image/png"; size := 300000 |};
     tnoId := Some 1%Z |}.

Definition oneUpload : Ui :=
  {| uploads := {| uploadedFiles := [invoice]; TNO_FILE_UID := 2;
                   previewMetaById := [(1%Z, (js "invoice.png", js "invoice.png"))];
                   cards := [1%Z]; alerts := [] |};
     keys := {| globalKey := Some (js "key-of-the-page"); sessionKey := None |};
     geminiApiKey := Some []; processing := None; disabled := false;
     inputValue := js "C:/fakepath/invoice.png"; dialogs := []; events := [] |}.

Definition canvas (f : File) (w h : Z) (q : float) : option Z :=
  match Num.floor (Num.of_Z (w * h) * q / 10)%float with
  | Some n => Some n
  | None => None
  end.

Definition oneItem : list Extract.Response :=
  [Extract.HttpResponse 200
     (Some (Demo.answer (Demo.jq "[{'description': 'Bolt M8', 'qnty_total': 4}]")))].

Definition demo (script : list Extract.Response) : Result :=
  submit Demo.platform AddRows.defaults (Demo.page_host None None) (Some Schema.TNO_SCHEMA)
    Demo.scripted (fun _ => Some (800, 600)%Z) canvas 100 "default" None
    (Some (js "ai-ocr-submit")) oneUpload script Demo.page0.

(** The run of the handler on that upload: the reports in their order, the
    overlay at the end, and the row added to the page. *)
Example submit_one_invoice :
  let r := demo oneItem in
  let s := run injected (events (ui r)) initial in
  map (fun e => match e with EUpdate t _ _ => t | _ => [] end) (events (ui r))
  = [ []; js "Compressing image 1 of 1..."; js "Sending to AI for processing...";
      js "Sending image 1 of 1 to AI..."; js "Adding rows..."; js "Adding row 1 of 1...";
      js "Completed"; []; [] ]
  /\ dataState s = js "complete" /\ text s = js "Completed" /\ valueNow s = js "100"
  /\ page r = {| Demo.maxRow := 1; Demo.clicks := 1 |}
  /\ uploadedFiles (uploads (ui r)) = []
  /\ dataState (run injected (events (ui (demo []))) initial) = js "empty".
Proof. cbv zeta. repeat split; vm_compute; reflexivity. Qed.


End SubmitFacts.
